(** * A shallow embedding of the bot's admission, permission and broadcast code

    The development follows the JavaScript sources:
    - [middlewares/floodControl.js]  (sliding-window flood control),
    - [middlewares/isAdmin.js]       (the admin gate),
    - [commands/admins/shutdown.js]  (the owner-only shutdown command),
    - [commands/admins/broadcast.js] (the broadcast dispatcher),
    - [utils/logger.js]              (the JSON log file),
    - [utils/fileHelper.js]          (the JSON users file).

    Handlers are written in a small state/exception/output monad: the state
    holds the module-level [userRequests] map and the wall clock, the output
    is the sequence of externally visible calls a handler makes
    ([next()], [ctx.reply], [logger.log], Telegram API calls, ...), and a
    computation either returns, throws a JavaScript error, or ends the
    process.  Writes to the console ([console.error], [console.log]) are
    not part of the output.

    A JavaScript string is represented by its UTF-8 encoding (a string
    with a lone surrogate has none and is not represented).  Numbers are
    integers; where the source computes in floating point the rounding of
    doubles is written out.  The clock advances by the pauses a handler asks
    for; the time the awaited calls themselves take is not modelled. *)

From Stdlib Require Import ZArith Lia Ascii Sorted.
From stdpp Require Import base tactics option list gmap strings.

Local Open Scope Z_scope.

(** ** JavaScript helpers *)

Module Js.

(** [x || d] on an optional number: [undefined] and [0] are falsy. *)
Definition or_num (x : option Z) (d : Z) : Z :=
  match x with
  | Some v => if bool_decide (v = 0) then d else v
  | None => d
  end.

(** [x || d] on an optional string: [undefined] and the empty string are
    falsy. *)
Definition or_str (x : option string) (d : string) : string :=
  match x with
  | Some v => if bool_decide (v = ""%string) then d else v
  | None => d
  end.

(** Numbers that can be [Infinity]: [Math.min()] of no argument is
    [Infinity], and arithmetic on it stays infinite. *)
Inductive num := Fin (z : Z) | Infinity.

(** [Math.min(...l)]. *)
Fixpoint Math_min (l : list Z) : num :=
  match l with
  | [] => Infinity
  | x :: r =>
      match Math_min r with
      | Infinity => Fin x
      | Fin m => Fin (Z.min x m)
      end
  end.

(** [Math.ceil(a / b)] for integers [a] and [b > 0]. *)
Definition ceil_div (a b : Z) : Z := - ((- a) / b).

(** [Math.round(a / b)] for integers [a] and [b = 1000]: halves round
    up.  The source divides in floating point; the double nearest to a
    quotient by 1000 lies on the same side of every half as the quotient
    itself (for [|a| < 2^53]), so the exact quotient is rounded. *)
Definition round_div (a b : Z) : Z := (2 * a + b) / (2 * b).

(** *** Doubles

    A positive finite double is [m * 2^e] with [2^52 <= m < 2^53]; it is
    kept as the pair [(m, e)].  Subnormal numbers and overflow are not
    reached by the quantities of this development. *)

(** The double nearest to [num / den], ties to the even mantissa, for
    [num >= 0] and [den > 0]. *)
Definition nearest_double (num den : Z) : Z * Z :=
  if bool_decide (num ≤ 0) then (0, 0) else
  let scaled := fun e : Z =>
    if bool_decide (0 ≤ e) then (num, den * 2 ^ e)
    else (num * 2 ^ (- e), den) in
  let e := Z.log2 num - Z.log2 den - 52 in
  let e := if bool_decide ((scaled e).1 / (scaled e).2 < 2 ^ 52)
           then e - 1 else e in
  let n := (scaled e).1 in
  let d := (scaled e).2 in
  let q := n / d in
  let r := n mod d in
  (if bool_decide (d < 2 * r ∨ (2 * r = d ∧ Z.odd q = true))
   then q + 1 else q, e).

(** [x * k] for a double [x] and a small integer [k > 0]. *)
Definition times (k : Z) (x : Z * Z) : Z * Z :=
  if bool_decide (0 ≤ x.2) then nearest_double (k * x.1 * 2 ^ x.2) 1
  else nearest_double (k * x.1) (2 ^ (- x.2)).

(** [Math.round(x)]: the nearest integer, halves towards [+Infinity]. *)
Definition Math_round (x : Z * Z) : Z :=
  if bool_decide (0 ≤ x.2) then x.1 * 2 ^ x.2
  else (2 * x.1 + 2 ^ (- x.2)) / 2 ^ (1 - x.2).

(** [Math.round((a / b) * 100)] for integers [0 <= a] and [0 < b]: the
    quotient is rounded to a double, so is the product, and the result is
    rounded to an integer. *)
Definition percent (a b : Z) : Z :=
  Math_round (times 100 (nearest_double a b)).

(** The double nearest to the integer [z]: [z] itself up to [2^53], a
    rounded value beyond. *)
Definition to_double (z : Z) : Z :=
  let value := fun z : Z =>
    let x := nearest_double z 1 in
    if bool_decide (0 ≤ x.2) then x.1 * 2 ^ x.2 else x.1 / 2 ^ (- x.2) in
  if bool_decide (Z.abs z ≤ 2 ^ 53) then z
  else if bool_decide (0 ≤ z) then value z else - value (- z).

End Js.

(** ** Data *)

(** [ctx.from]: the Telegram user who sent the update. *)
Record User := {
  user_id : Z;
  user_username : option string;
  user_first_name : option string;
  user_language_code : option string;
}.

(** A thrown JavaScript error; only [error.message] is ever read. *)
Record Error := { message : string }.

(** [config.json] is not part of the sources: it is a parameter of every
    handler.  [ADMINS], [FLOOD_CONTROL] and its two fields may be absent. *)
Record FloodConfig := {
  MAX_REQUESTS : option Z;
  TIME_WINDOW : option Z;
}.

Record Config := {
  OWNER_ID : Z;
  ADMINS : option (list Z);
  FLOOD_CONTROL : option FloodConfig;
  LANGUAGE : option string;
}.

(** A value substituted for a [{placeholder}] by [getText]. *)
Inductive Param := PStr (s : string) | PNum (n : Z).

(** Message bodies.  Each template literal of the sources is a constructor
    carrying the values interpolated into it; the fixed texts are constant
    constructors.  [Localized lang key params] stands for
    [getText(lang, key, params)].  Wall-clock strings
    ([new Date().toLocaleString()]) are left out. *)
Inductive Text :=
  | Localized (lang key : string) (params : list (string * Param))
  (* floodControl.js; the text shows [timeWindow / 1000] *)
  | SlowDown (remainingTime : Js.num) (maxRequests timeWindow : Z)
  (* isAdmin.js *)
  | AdminAccessDenied
  | PermissionSystemError
  (* shutdown.js *)
  | OwnerAccessDenied
  | ShutdownConfirmation
  | ShuttingDown (shutdownMsg : Text) (initiatedBy : string) (userId : Z)
  | ShutdownError (errorMsg : Text) (error : string)
  (* broadcast.js *)
  | EmptyBroadcast
  | NoUsersFound
  | BroadcastConfirmation (broadcastMessage : string) (totalUsers : Z)
  | StartingBroadcast
  | BroadcastMessage (broadcastMessage : string)
  | BroadcastProgress (successCount failureCount progress
                       processedCount totalUsers : Z) (elapsed : Z)
  | BroadcastCompleted (successCount failureCount successRate
                        completionTime : Z) (successMsg : Text).

(** The records handed to [logger.log], one constructor per [type] field.
    Every call site also sets [timestamp: new Date().toISOString()], which
    is left out. *)
Inductive LogRecord :=
  | flood_control_triggered (userId : Z) (username : string)
      (requestCount maxRequests : Z) (remainingCooldown : Js.num)
  | middleware_error (middleware : string) (userId : option Z)
      (username : option string) (error : string)
  | unauthorized_access (userId : Z) (username : string) (command : string)
  | admin_command (command : string) (userId : Z) (username : string)
      (messageLength : option Z)
  | admin_command_error (command : string) (userId : option Z)
      (username : option string) (error : string)
  | bot_shutdown_initiated (adminId : Z) (adminUsername : string)
  | broadcast_delivery_failed (userId : Z) (error : string)
  | broadcast_completed (adminId : Z) (adminUsername : string)
      (totalUsers successCount failureCount completionTime : Z)
      (message : string).

(** The externally visible calls of a handler, in program order. *)
Inductive Event :=
  | EvNext                              (* next() *)
  | EvReply (t : Text)                  (* ctx.reply(t, ...) *)
  | EvLog (r : LogRecord)               (* logger.log(r) *)
  | EvSend (userId : Z) (t : Text)      (* telegram.sendMessage(userId, t) *)
  | EvEdit (t : Text)                   (* telegram.editMessageText(.., t) *)
  | EvSleep (ms : Z)                    (* setTimeout(resolve, ms) *)
  | EvSetIsOwner | EvSetIsAdmin         (* ctx.isOwner = true, ctx.isAdmin = true *)
  | EvExit (code : Z).                  (* process.exit(code) *)

Global Instance Js_num_eq_dec : EqDecision Js.num.
Proof. solve_decision. Defined.
Global Instance Param_eq_dec : EqDecision Param.
Proof. solve_decision. Defined.
Global Instance Text_eq_dec : EqDecision Text.
Proof. solve_decision. Defined.
Global Instance LogRecord_eq_dec : EqDecision LogRecord.
Proof. solve_decision. Defined.
Global Instance Event_eq_dec : EqDecision Event.
Proof. solve_decision. Defined.

(** The Telegraf context of one update.  The answers of the chat transport
    are inputs: each function tells whether the awaited call resolves
    ([None]) or rejects with an error.  [ctx_sendMessage] is what
    [ctx.telegram.sendMessage] would answer; no handler of this development
    reaches that method (see [Broadcast.ctx_telegram]). *)
Record Ctx := {
  ctx_from : option User;                         (* ctx.from *)
  ctx_message_text : option string;               (* ctx.message.text; None: no ctx.message *)
  ctx_reply : Text -> option Error;               (* await ctx.reply(..) *)
  ctx_sendMessage : Z -> Text -> option Error;    (* await ctx.telegram.sendMessage(..) *)
  ctx_editMessageText : Text -> option Error;     (* await ctx.telegram.editMessageText(..) *)
}.

(** ** The handler monad *)

(** Mutable state shared by the handlers: the [userRequests] map of
    floodControl.js and the wall clock read by [Date.now()]. *)
Record Store := {
  userRequests : gmap Z (list Z);
  wall : Z;
}.

Inductive Result (A : Type) :=
  | Ok (a : A)
  | Throw (e : Error)
  | Exited (code : Z).
Arguments Ok {A} a.
Arguments Throw {A} e.
Arguments Exited {A} code.

Definition M (A : Type) : Type := Store -> Result A * Store * list Event.

Definition ret {A} (a : A) : M A := fun s => (Ok a, s, []).

Definition bind {A B} (m : M A) (k : A -> M B) : M B :=
  fun s =>
    match m s with
    | (Ok a, s1, e1) => let '(r, s2, e2) := k a s1 in (r, s2, e1 ++ e2)
    | (Throw e, s1, e1) => (Throw e, s1, e1)
    | (Exited c, s1, e1) => (Exited c, s1, e1)
    end.

Definition throw {A} (e : Error) : M A := fun s => (Throw e, s, []).

(** [try { body } catch (error) { handler }]. *)
Definition try_catch {A} (body : M A) (handler : Error -> M A) : M A :=
  fun s =>
    match body s with
    | (Throw e, s1, e1) => let '(r, s2, e2) := handler e s1 in (r, s2, e1 ++ e2)
    | out => out
    end.

Declare Scope js_scope.
Delimit Scope js_scope with js.
Notation "'let!' x ':=' m 'in' k" := (bind m (fun x => k))
  (at level 10, x name, m at level 100, k at level 200,
   format "'[v' 'let!'  x  ':='  m  'in' '/' k ']'") : js_scope.
Notation "m ';;' k" := (bind m (fun _ => k))
  (at level 100, k at level 200, right associativity,
   format "'[v' m  ';;' '/' k ']'") : js_scope.
Local Open Scope js_scope.

Definition emit (ev : Event) : M unit := fun s => (Ok tt, s, [ev]).

(** An awaited transport call: the call is made, then it resolves or
    rejects. *)
Definition await_call (ev : Event) (outcome : option Error) : M unit :=
  emit ev ;;
  match outcome with
  | None => ret tt
  | Some e => throw e
  end.

Definition next : M unit := emit EvNext.
Definition logger_log (r : LogRecord) : M unit := emit (EvLog r).
Definition reply (ctx : Ctx) (t : Text) : M unit :=
  await_call (EvReply t) (ctx_reply ctx t).
Definition Date_now : M Z := fun s => (Ok (wall s), s, []).

(** [process.exit(code)]: nothing runs afterwards. *)
Definition process_exit {A} (code : Z) : M A :=
  fun s => (Exited code, s, [EvExit code]).

(** [setTimeout(resolve, ms)] awaited: the clock has advanced by [ms] when
    the handler resumes. *)
Definition sleep (ms : Z) : M unit :=
  fun s => (Ok tt, {| userRequests := userRequests s; wall := wall s + ms |},
            [EvSleep ms]).

(** Reading the property [prop] of [undefined] throws a [TypeError]; the
    message is V8's (Node 16.9 and later). *)
Definition TypeError_undefined (prop : string) : Error :=
  {| message := "Cannot read properties of undefined (reading '"
                +:+ prop +:+ "')" |}.

(** [ctx.from], for a handler that reads [ctx.from.<prop>] first. *)
Definition get_from (ctx : Ctx) (prop : string) : M User :=
  match ctx_from ctx with
  | Some u => ret u
  | None => throw (TypeError_undefined prop)
  end.

(** The event list and final store of a run. *)
Definition events_of {A} (out : Result A * Store * list Event) : list Event := out.2.
Definition store_of {A} (out : Result A * Store * list Event) : Store := out.1.2.
Definition result_of {A} (out : Result A * Store * list Event) : Result A := out.1.1.

(** [userId === config.OWNER_ID || (config.ADMINS && config.ADMINS.includes(userId))],
    the test shared by floodControl.js and isAdmin.js. *)
Definition is_owner (config : Config) (userId : Z) : bool :=
  bool_decide (userId = OWNER_ID config).

Definition in_admins (config : Config) (userId : Z) : bool :=
  match ADMINS config with
  | Some admins => bool_decide (userId ∈ admins)
  | None => false
  end.

(** ** middlewares/floodControl.js *)

Module FloodControl.
Section WithConfig.
Variable config : Config.

Definition maxRequests : Z :=
  Js.or_num (FLOOD_CONTROL config ≫= MAX_REQUESTS) 5.
Definition timeWindow : Z :=
  Js.or_num (FLOOD_CONTROL config ≫= TIME_WINDOW) 60000.

(** [requests.filter(timestamp => now - timestamp < timeWindow)] *)
Definition prune (now : Z) (requests : list Z) : list Z :=
  filter (fun timestamp => now - timestamp < timeWindow) requests.

(** [Math.ceil((timeWindow - (now - oldestRequest)) / 1000)] with
    [oldestRequest = Math.min(...validRequests)]. *)
Definition remainingTime (now : Z) (validRequests : list Z) : Js.num :=
  match Js.Math_min validRequests with
  | Js.Fin oldestRequest =>
      Js.Fin (Js.ceil_div (timeWindow - (now - oldestRequest)) 1000)
  | Js.Infinity => Js.Infinity
  end.

Definition has_requests (userId : Z) : M bool :=
  fun s => (Ok (bool_decide (is_Some (userRequests s !! userId))), s, []).
Definition set_requests (userId : Z) (requests : list Z) : M unit :=
  fun s => (Ok tt, {| userRequests := <[userId := requests]> (userRequests s);
                      wall := wall s |}, []).
Definition get_requests (userId : Z) : M (list Z) :=
  fun s => (Ok (default [] (userRequests s !! userId)), s, []).

(** The [try] block of [floodControl]. *)
Definition floodControl_try (ctx : Ctx) : M unit :=
  let! user := get_from ctx "id" in
  let userId := user_id user in
  let username := Js.or_str (user_username user) "Unknown" in
  let! now := Date_now in
  if is_owner config userId || in_admins config userId then
    next
  else
    let! known := has_requests userId in
    (if known then ret tt else set_requests userId []) ;;
    let! requests := get_requests userId in
    let validRequests := prune now requests in
    if bool_decide (Z.of_nat (length validRequests) >= maxRequests) then
      let remaining := remainingTime now validRequests in
      logger_log (flood_control_triggered userId username
                    (Z.of_nat (length validRequests)) maxRequests remaining) ;;
      reply ctx (SlowDown remaining maxRequests timeWindow) ;;
      ret tt
    else
      set_requests userId (validRequests ++ [now]) ;;
      next.

(** The [catch] block of [floodControl]. *)
Definition floodControl_catch (ctx : Ctx) (error : Error) : M unit :=
  logger_log (middleware_error "floodControl"
                (user_id <$> ctx_from ctx)
                (ctx_from ctx ≫= user_username)
                (message error)) ;;
  next.

Definition floodControl (ctx : Ctx) : M unit :=
  try_catch (floodControl_try ctx) (floodControl_catch ctx).

(** The periodic clean-up ([setInterval] callback). *)
Definition cleanup : M unit :=
  fun s =>
    let now := wall s in
    (Ok tt,
     {| userRequests :=
          omap (fun requests =>
                  let validRequests := prune now requests in
                  if bool_decide (length validRequests = 0%nat) then None
                  else Some validRequests)
               (userRequests s);
        wall := wall s |},
     []).

End WithConfig.
End FloodControl.

(** ** middlewares/isAdmin.js *)

Module IsAdmin.
Section WithConfig.
Variable config : Config.

(** The [try] block of [isAdmin]. *)
Definition isAdmin_try (ctx : Ctx) : M unit :=
  let! user := get_from ctx "id" in
  let userId := user_id user in
  let username := Js.or_str (user_username user) "Unknown" in
  if is_owner config userId then
    emit EvSetIsOwner ;;
    emit EvSetIsAdmin ;;
    next
  else if in_admins config userId then
    emit EvSetIsAdmin ;;
    next
  else
    logger_log (unauthorized_access userId username
                  (Js.or_str (ctx_message_text ctx) "Unknown")) ;;
    reply ctx AdminAccessDenied ;;
    ret tt.

(** The [catch] block of [isAdmin]: the request does not proceed. *)
Definition isAdmin_catch (ctx : Ctx) (error : Error) : M unit :=
  logger_log (middleware_error "isAdmin"
                (user_id <$> ctx_from ctx)
                (ctx_from ctx ≫= user_username)
                (message error)) ;;
  reply ctx PermissionSystemError ;;
  ret tt.

Definition isAdmin (ctx : Ctx) : M unit :=
  try_catch (isAdmin_try ctx) (isAdmin_catch ctx).

End WithConfig.
End IsAdmin.

(** [x.language_code || config.LANGUAGE || 'en'] *)
Definition userLang_of (config : Config) (language_code : option string) : string :=
  Js.or_str language_code (Js.or_str (LANGUAGE config) "en").

(** ** commands/admins/shutdown.js *)

Module Shutdown.
Section WithConfig.
Variable config : Config.

Definition execute_try (ctx : Ctx) : M unit :=
  let! user := get_from ctx "language_code" in
  let userLang := userLang_of config (user_language_code user) in
  if bool_decide (user_id user ≠ OWNER_ID config) then
    reply ctx OwnerAccessDenied ;;
    ret tt
  else
    logger_log (admin_command "/shutdown" (user_id user)
                  (Js.or_str (user_username user) "Unknown") None) ;;
    let shutdownMsg := Localized userLang "success.shutdown_initiated" [] in
    reply ctx ShutdownConfirmation ;;
    reply ctx (ShuttingDown shutdownMsg
                 (Js.or_str (user_first_name user)
                    (Js.or_str (user_username user) "Unknown"))
                 (user_id user)) ;;
    logger_log (bot_shutdown_initiated (user_id user)
                  (Js.or_str (user_username user) "Unknown")) ;;
    sleep 2000 ;;
    process_exit 0.

Definition execute_catch (ctx : Ctx) (error : Error) : M unit :=
  logger_log (admin_command_error "/shutdown"
                (user_id <$> ctx_from ctx)
                (ctx_from ctx ≫= user_username)
                (message error)) ;;
  let userLang := userLang_of config (ctx_from ctx ≫= user_language_code) in
  let errorMsg := Localized userLang "errors.general" [] in
  reply ctx (ShutdownError errorMsg (message error)) ;;
  ret tt.

Definition execute (ctx : Ctx) : M unit :=
  try_catch (execute_try ctx) (execute_catch ctx).

End WithConfig.
End Shutdown.

(** ** String methods used by the command parser

    Strings are UTF-8 byte sequences; the separator of [split] and [join]
    is the space, a single byte that is part of no longer character. *)

Module Str.

(** [s.split(sep)] for a one-character separator. *)
Fixpoint split (sep : ascii) (s : string) : list string :=
  match s with
  | EmptyString => [EmptyString]
  | String c r =>
      if bool_decide (c = sep) then EmptyString :: split sep r
      else match split sep r with
           | [] => [String c EmptyString]
           | w :: ws => String c w :: ws
           end
  end.

(** [parts.join(sep)] *)
Fixpoint join (sep : string) (parts : list string) : string :=
  match parts with
  | [] => EmptyString
  | [w] => w
  | w :: ws => (w +:+ sep +:+ join sep ws)%string
  end.

(** *** White space

    [String.prototype.trim] removes white space and line terminators:
    U+0009 to U+000D, U+0020, U+00A0, U+1680, U+2000 to U+200A, U+2028,
    U+2029, U+202F, U+205F, U+3000 and U+FEFF.  In UTF-8 these are one, two
    or three bytes long. *)

Definition is_space (c : ascii) : bool :=
  let n := nat_of_ascii c in
  bool_decide (n = 32 ∨ (9 ≤ n ∧ n ≤ 13))%nat.

(** U+00A0 *)
Definition is_space2 (c1 c2 : ascii) : bool :=
  bool_decide (nat_of_ascii c1 = 194 ∧ nat_of_ascii c2 = 160)%nat.

Definition is_space3 (c1 c2 c3 : ascii) : bool :=
  let n1 := nat_of_ascii c1 in
  let n2 := nat_of_ascii c2 in
  let n3 := nat_of_ascii c3 in
  bool_decide
    ((n1 = 225 ∧ n2 = 154 ∧ n3 = 128) ∨                  (* U+1680 *)
     (n1 = 226 ∧ n2 = 128 ∧ 128 ≤ n3 ∧ n3 ≤ 138) ∨       (* U+2000 to U+200A *)
     (n1 = 226 ∧ n2 = 128 ∧ (n3 = 168 ∨ n3 = 169)) ∨     (* U+2028, U+2029 *)
     (n1 = 226 ∧ n2 = 128 ∧ n3 = 175) ∨                  (* U+202F *)
     (n1 = 226 ∧ n2 = 129 ∧ n3 = 159) ∨                  (* U+205F *)
     (n1 = 227 ∧ n2 = 128 ∧ n3 = 128) ∨                  (* U+3000 *)
     (n1 = 239 ∧ n2 = 187 ∧ n3 = 191))%nat.              (* U+FEFF *)

(** The bytes [l] without the white space they start with.  With
    [backwards] the bytes are those of a reversed string: each character
    is then read from its last byte. *)
Fixpoint strip (backwards : bool) (l : list ascii) : list ascii :=
  match l with
  | [] => []
  | c1 :: r1 =>
      if is_space c1 then strip backwards r1
      else
        match r1 with
        | [] => l
        | c2 :: r2 =>
            if (if backwards then is_space2 c2 c1 else is_space2 c1 c2)
            then strip backwards r2
            else
              match r2 with
              | [] => l
              | c3 :: r3 =>
                  if (if backwards then is_space3 c3 c2 c1
                      else is_space3 c1 c2 c3)
                  then strip backwards r3
                  else l
              end
        end
  end.

(** [s.trim()] *)
Definition trim (s : string) : string :=
  String.string_of_list_ascii
    (rev (strip true (rev (strip false (String.list_ascii_of_string s))))).

(** [s.length]: the number of UTF-16 code units.  A character of one to
    three bytes is one unit, a character of four bytes is two; the bytes
    128 to 191 continue a character. *)
Fixpoint length (s : string) : nat :=
  match s with
  | EmptyString => 0
  | String c r =>
      let n := nat_of_ascii c in
      (if bool_decide (128 ≤ n ∧ n < 192)%nat then 0
       else if bool_decide (240 ≤ n)%nat then 2 else 1)
      + length r
  end.

End Str.

(** ** commands/admins/broadcast.js *)

Module Broadcast.

(** [users.slice(i, j)] *)
Definition slice {A} (l : list A) (i j : nat) : list A :=
  take (j - i) (drop i l).

(** The loop
    [for (let i = 0; i < users.length; i += batchSize)
       batches.push(users.slice(i, i + batchSize))],
    started at index [i].  For [batchSize > 0] it ends within
    [users.length] iterations, which is the fuel given to it by
    [make_batches]. *)
Fixpoint batches_from {A} (fuel : nat) (users : list A) (batchSize i : nat)
  : list (list A) :=
  match fuel with
  | O => []
  | S fuel' =>
      if bool_decide (i < length users)%nat then
        slice users i (i + batchSize)
          :: batches_from fuel' users batchSize (i + batchSize)
      else []
  end.

Definition make_batches {A} (users : list A) (batchSize : nat) : list (list A) :=
  batches_from (length users) users batchSize 0.

(** [const batchSize = 30; // Telegram allows ~30 messages per second] *)
Definition batchSize : nat := 30.

(** The three counters of [execute]. *)
Record Tally := {
  successCount : Z;
  failureCount : Z;
  processedCount : Z;
}.

Definition count (success : bool) (t : Tally) : Tally :=
  {| successCount := if success then successCount t + 1 else successCount t;
     failureCount := if success then failureCount t else failureCount t + 1;
     processedCount := processedCount t + 1 |}.

(** *** The bot handed to [sendMessageToUser]

    [sendMessageToUser] reads [bot.telegram.sendMessage].  A Telegraf
    instance holds its Telegram client in the property [telegram]; a
    Telegram client itself has no property of that name. *)

Record Client := {
  (* await client.sendMessage(userId, message, ..): resolves or rejects *)
  sendMessage : Z -> Text -> option Error;
  (* how long the send to [userId] stays pending: pending sends settle
     in the order of their latencies *)
  latency : Z -> nat;
}.

Inductive Bot :=
  | Telegraf (telegram : Client)
  | TelegramClient.

(** [bot.telegram] *)
Definition bot_telegram (bot : Bot) : option Client :=
  match bot with
  | Telegraf telegram => Some telegram
  | TelegramClient => None
  end.

(** [ctx.telegram], the value [execute] hands to [sendMessageToUser] as
    [bot]: a Telegram client. *)
Definition ctx_telegram (ctx : Ctx) : Bot := TelegramClient.

(** *** [sendMessageToUser(bot, userId, message, options)]

    The function is [async]: a call runs up to its first [await] and
    returns a promise; the rest runs when the awaited send has settled.
    The two parts are [sendMessageToUser_call] and
    [sendMessageToUser_resume]. *)

(** A call that has run up to its first suspension. *)
Inductive Sending :=
  | Returned (success : bool)                       (* no await was reached *)
  | Pending (userId : Z) (outcome : option Error).  (* at await ..sendMessage(..) *)

(** The [catch] block: the failure is logged with the recipient and the
    reason, and turned into [false]. *)
Definition sendMessageToUser_catch (userId : Z) (error : Error) : M bool :=
  logger_log (broadcast_delivery_failed userId (message error)) ;;
  ret false.

(** The start of the [try] block.  Without a [bot.telegram], reading
    [bot.telegram.sendMessage] throws before anything is called or awaited,
    and the [catch] block runs at once. *)
Definition sendMessageToUser_call (bot : Bot) (userId : Z) (msg : Text)
  : M Sending :=
  match bot_telegram bot with
  | None =>
      let! success := sendMessageToUser_catch userId
                        (TypeError_undefined "sendMessage") in
      ret (Returned success)
  | Some telegram =>
      emit (EvSend userId msg) ;;
      ret (Pending userId (sendMessage telegram userId msg))
  end.

(** The rest of the call, once the send has settled. *)
Definition sendMessageToUser_resume (call : Sending) : M bool :=
  match call with
  | Returned success => ret success
  | Pending userId None => ret true
  | Pending userId (Some error) => sendMessageToUser_catch userId error
  end.


(** *** A batch: [await Promise.all(batch.map(async (targetUser) => ...))] *)

(** [batch.map(..)]: each callback runs up to its first suspension, in
    the order of the batch. *)
Fixpoint start_batch (bot : Bot) (msg : Text) (batch : list User)
  : M (list Sending) :=
  match batch with
  | [] => ret []
  | targetUser :: rest =>
      let! call := sendMessageToUser_call bot (user_id targetUser) msg in
      let! calls := start_batch bot msg rest in
      ret (call :: calls)
  end.

(** When a suspended callback resumes: at once when its call has returned,
    after the latency of its send otherwise. *)
Definition resumes_at (bot : Bot) (call : Sending) : nat :=
  match call, bot_telegram bot with
  | Pending userId _, Some telegram => latency telegram userId
  | _, _ => 0
  end.

(** [l] in the order of [rank]; elements of equal rank keep their order. *)
Fixpoint insert_by {A} (rank : A -> nat) (x : A) (l : list A) : list A :=
  match l with
  | [] => [x]
  | y :: l' =>
      if bool_decide (rank x ≤ rank y)%nat then x :: l
      else y :: insert_by rank x l'
  end.

Definition order_by {A} (rank : A -> nat) (l : list A) : list A :=
  foldr (insert_by rank) [] l.

(** The callbacks resume one by one; each takes the result of its call
    and moves the counters. *)
Fixpoint finish_batch (calls : list Sending) (t : Tally) : M Tally :=
  match calls with
  | [] => ret t
  | call :: rest =>
      let! success := sendMessageToUser_resume call in
      finish_batch rest (count success t)
  end.

Definition send_batch (bot : Bot) (msg : Text) (batch : list User) (t : Tally)
  : M Tally :=
  let! calls := start_batch bot msg batch in
  finish_batch (order_by (resumes_at bot) calls) t.

(** [ctx.telegram.editMessageText(chat, id, undefined, text, ...)] *)
Definition editMessageText (ctx : Ctx) (t : Text) : M unit :=
  await_call (EvEdit t) (ctx_editMessageText ctx t).

(** The body of [for (let batchIndex = 0; batchIndex < batches.length; batchIndex++)]
    for the batches that remain; [bot] is the first argument of
    [sendMessageToUser]. *)
Fixpoint run_batches (bot : Bot) (ctx : Ctx) (msg : Text)
    (totalUsers startTime : Z) (batches : list (list User)) (t : Tally)
  : M Tally :=
  match batches with
  | [] => ret t
  | batch :: rest =>
      let! t := send_batch bot msg batch t in
      let progress := Js.percent (processedCount t) totalUsers in
      let! now := Date_now in
      try_catch
        (editMessageText ctx
           (BroadcastProgress (successCount t) (failureCount t) progress
              (processedCount t) totalUsers
              (Js.round_div (now - startTime) 1000)))
        (fun editError => ret tt) ;;
      (if bool_decide (rest ≠ []) then sleep 1000 else ret tt) ;;
      run_batches bot ctx msg totalUsers startTime rest t
  end.

Section WithConfig.
Variable config : Config.

(** The part of [execute] that runs once the recipients are known to be
    non-empty: announcement, batches, final report, audit record. *)
Definition dispatch (ctx : Ctx) (user : User) (userLang : string)
    (broadcastMessage : string) (users : list User) : M unit :=
  let totalUsers := Z.of_nat (length users) in
  reply ctx (BroadcastConfirmation broadcastMessage totalUsers) ;;
  reply ctx StartingBroadcast ;;
  let! startTime := Date_now in
  let batches := make_batches users batchSize in
  let formattedMessage := BroadcastMessage broadcastMessage in
  let! t := run_batches (ctx_telegram ctx) ctx formattedMessage totalUsers
              startTime batches
              {| successCount := 0; failureCount := 0; processedCount := 0 |} in
  let! now := Date_now in
  let completionTime := Js.round_div (now - startTime) 1000 in
  let successMsg :=
    Localized userLang "success.broadcast_sent" [("count"%string, PNum (successCount t))] in
  editMessageText ctx
    (BroadcastCompleted (successCount t) (failureCount t)
       (Js.percent (successCount t) totalUsers)
       completionTime successMsg) ;;
  logger_log (broadcast_completed (user_id user)
                (Js.or_str (user_username user) "Unknown")
                totalUsers (successCount t) (failureCount t)
                completionTime broadcastMessage).

(** The [try] block of [execute]; [allUsers] is what
    [await fileHelper.getAllUsers()] returns. *)
Definition execute_try (allUsers : list User) (ctx : Ctx) : M unit :=
  let! user := get_from ctx "language_code" in
  let userLang := userLang_of config (user_language_code user) in
  match ctx_message_text ctx with
  | None => throw (TypeError_undefined "text")
  | Some messageText =>
      let parts := Str.split " "%char messageText in
      if bool_decide (length parts < 2)%nat then
        reply ctx (Localized userLang "errors.missing_parameter"
                     [("parameter"%string, PStr "message")]) ;;
        ret tt
      else
        let broadcastMessage := Str.trim (Str.join " " (drop 1 parts)) in
        if bool_decide (broadcastMessage = ""%string) then
          reply ctx EmptyBroadcast ;;
          ret tt
        else
          logger_log (admin_command "/broadcast" (user_id user)
                        (Js.or_str (user_username user) "Unknown")
                        (Some (Z.of_nat (Str.length broadcastMessage)))) ;;
          let users := allUsers in
          let totalUsers := length users in
          if bool_decide (totalUsers = 0%nat) then
            reply ctx NoUsersFound ;;
            ret tt
          else
            dispatch ctx user userLang broadcastMessage users
  end.

Definition execute_catch (ctx : Ctx) (error : Error) : M unit :=
  logger_log (admin_command_error "/broadcast"
                (user_id <$> ctx_from ctx)
                (ctx_from ctx ≫= user_username)
                (message error)) ;;
  let userLang := userLang_of config (ctx_from ctx ≫= user_language_code) in
  let errorMsg := Localized userLang "errors.general" [] in
  reply ctx errorMsg ;;
  ret tt.

Definition execute (allUsers : list User) (ctx : Ctx) : M unit :=
  try_catch (execute_try allUsers ctx) (execute_catch ctx).

End WithConfig.
End Broadcast.

(** ** utils/logger.js *)

Module Logger.

(** One element of the JSON array in [data/logs.json]. *)
Record Entry := {
  timestamp : option string;
  data : LogRecord;
}.

(** What [fs.readJSON(LOGS_FILE)] can find. *)
Inductive LogFile :=
  | Missing                      (* no file *)
  | Corrupted                    (* not JSON *)
  | NotArray                     (* JSON, but not an array *)
  | Logs (logs : list Entry).

(** Whether the file-system calls of one [log] go through. *)
Record Disk := {
  init_ok : bool;                (* the calls of initializeLogFile *)
  read_ok : bool;                (* fs.readJSON *)
  write_ok : bool;               (* fs.writeJSON *)
}.

(** [this.maxLogsPerFile = 10000] *)
Definition maxLogsPerFile : nat := 10000.

(** [initializeLogFile]: creates an empty array when there is no file;
    its own errors are caught and leave the file as it is. *)
Definition initializeLogFile (disk : Disk) (file : LogFile) : LogFile :=
  if init_ok disk then
    match file with
    | Missing => Logs []
    | _ => file
    end
  else file.

(** The array [log] starts from: the file's, or [[]] when the file cannot
    be read or does not hold an array. *)
Definition read_logs (disk : Disk) (file : LogFile) : list Entry :=
  if read_ok disk then
    match file with
    | Logs logs => logs
    | _ => []
    end
  else [].

(** [if (!logData.timestamp) logData.timestamp = new Date().toISOString()] *)
Definition stamp (isoNow : string) (logData : Entry) : Entry :=
  match timestamp logData with
  | Some t => if bool_decide (t = ""%string)
              then {| timestamp := Some isoNow; data := data logData |}
              else logData
  | None => {| timestamp := Some isoNow; data := data logData |}
  end.

(** [logs.slice(-n)]: the last [n] elements. *)
Definition slice_last {A} (n : nat) (l : list A) : list A :=
  drop (length l - n) l.

(** [log(logData)] as a function on the file. *)
Definition log (disk : Disk) (isoNow : string) (logData : Entry)
    (file : LogFile) : LogFile :=
  let file := initializeLogFile disk file in
  let logs := read_logs disk file in
  let logs := logs ++ [stamp isoNow logData] in
  let logs :=
    if bool_decide (maxLogsPerFile < length logs)%nat
    then slice_last maxLogsPerFile logs
    else logs in
  if write_ok disk then Logs logs else file.

(** The number of entries stored in the file. *)
Definition stored (file : LogFile) : list Entry :=
  match file with
  | Logs logs => logs
  | _ => []
  end.

End Logger.

(** * Vocabulary of the properties *)

(** ** Flood control *)

Module FloodSpec.
Import FloodControl.
Section WithConfig.
Variable config : Config.

(** The identities that skip flood control: the owner and the admins. *)
Definition exempt (userId : Z) : bool :=
  is_owner config userId || in_admins config userId.

(** The stored timestamp sequence of a user, empty when the user is not
    tracked. *)
Definition stored (s : Store) (userId : Z) : list Z :=
  default [] (userRequests s !! userId).

(** The pruned history [validRequests] that a call by [userId] computes
    in store [s]. *)
Definition validRequests (s : Store) (userId : Z) : list Z :=
  prune config (wall s) (stored s userId).

Definition over_limit (s : Store) (userId : Z) : Prop :=
  Z.of_nat (length (validRequests s userId)) >= maxRequests config.

(** [if (!userRequests.has(userId)) userRequests.set(userId, [])] on the
    map. *)
Definition touch (userId : Z) (m : gmap Z (list Z)) : gmap Z (list Z) :=
  match m !! userId with
  | Some _ => m
  | None => <[userId := []]> m
  end.

(** The calls made by the rejection branch, including those of the
    [catch] block when the cooldown reply is rejected. *)
Definition rejection_events (ctx : Ctx) (user : User) (s : Store) : list Event :=
  let userId := user_id user in
  let valid := validRequests s userId in
  let remaining := remainingTime config (wall s) valid in
  [EvLog (flood_control_triggered userId
            (Js.or_str (user_username user) "Unknown")
            (Z.of_nat (length valid)) (maxRequests config) remaining);
   EvReply (SlowDown remaining (maxRequests config) (timeWindow config))]
  ++ match ctx_reply ctx (SlowDown remaining (maxRequests config)
                            (timeWindow config)) with
     | None => []
     | Some error =>
         [EvLog (middleware_error "floodControl" (Some userId)
                   (user_username user) (message error));
          EvNext]
     end.

(** *** Sequences of calls

    What happens to the [userRequests] map over time: an update reaches
    the middleware at wall-clock time [t], or the periodic clean-up runs
    at time [t]. *)
Inductive Input :=
  | Request (t : Z) (ctx : Ctx)
  | Sweep (t : Z).

Definition input_time (i : Input) : Z :=
  match i with
  | Request t _ => t
  | Sweep t => t
  end.

Definition sender (i : Input) : option Z :=
  match i with
  | Request _ ctx => user_id <$> ctx_from ctx
  | Sweep _ => None
  end.

(** Run [m] with the clock showing [t]. *)
Definition at_time {A} (t : Z) (m : M A) : M A :=
  fun s => m {| userRequests := userRequests s; wall := t |}.

Definition step (i : Input) : M unit :=
  match i with
  | Request t ctx => at_time t (floodControl config ctx)
  | Sweep t => at_time t (cleanup config)
  end.

(** The calls made for each input, and the final store. *)
Fixpoint run (inputs : list Input) (s : Store)
  : list (Input * list Event) * Store :=
  match inputs with
  | [] => ([], s)
  | i :: rest =>
      let out := step i s in
      let r := run rest (store_of out) in
      ((i, events_of out) :: r.1, r.2)
  end.

(** A request was let through when [next()] was called for it. *)
Definition forwarded (evs : list Event) : bool := bool_decide (EvNext ∈ evs).

Definition allowed_at (userId : Z) (entry : Input * list Event) : option Z :=
  if bool_decide (sender entry.1 = Some userId) && forwarded entry.2
  then Some (input_time entry.1)
  else None.

(** The timestamps of the calls of [userId] that were let through. *)
Definition allowed_times (userId : Z) (log : list (Input * list Event)) : list Z :=
  omap (allowed_at userId) log.

(** The [catch] block ran for a request: it left a [middleware_error]
    record. *)
Definition is_middleware_error (ev : Event) : bool :=
  match ev with
  | EvLog (middleware_error _ _ _ _) => true
  | _ => false
  end.

Definition failed_open (evs : list Event) : bool := existsb is_middleware_error evs.

(** A request was admitted when it was let through by the limit check
    itself, not by the [catch] block. *)
Definition admitted_at (userId : Z) (entry : Input * list Event) : option Z :=
  if bool_decide (sender entry.1 = Some userId)
     && forwarded entry.2 && negb (failed_open entry.2)
  then Some (input_time entry.1)
  else None.

(** The timestamps of the calls of [userId] that were admitted. *)
Definition admitted_times (userId : Z) (log : list (Input * list Event)) : list Z :=
  omap (admitted_at userId) log.

(** [t] lies in the trailing window of length [timeWindow] that ends at
    [T].  The window is open at its old end, as in the source's
    [now - timestamp < timeWindow]. *)
Definition in_window (T t : Z) : Prop :=
  T - timeWindow config < t ∧ t ≤ T.

Global Instance in_window_dec T t : Decision (in_window T t).
Proof. unfold in_window. apply _. Defined.

(** The invariant of a chronological run, for a user [userId]: [hist]
    are the timestamps of the calls of [userId] admitted so far and
    [now] is the time of the last input.  No window holds more than
    [maxRequests] of them, and those that a call at time [now] would
    still count are all in the stored sequence. *)
Definition window_inv (userId : Z) (now : Z) (hist : list Z) (s : Store) : Prop :=
  (∀ T, Z.of_nat (length (filter (in_window T) hist)) ≤ maxRequests config) ∧
  prune config now hist ⊆+ stored s userId.

End WithConfig.
End FloodSpec.

(** ** The admin gate in front of a command

    The command loader registers every admin command as
    [bot.command(command.name, isAdmin, command.execute)]: the handler is
    what [next()] runs when [isAdmin] calls it. *)

Module Router.
Section WithConfig.
Variable config : Config.

Definition called_next (evs : list Event) : bool := bool_decide (EvNext ∈ evs).

Definition admin_command (execute : Ctx -> M unit) (ctx : Ctx) : M unit :=
  fun s =>
    let '(r, s1, e1) := IsAdmin.isAdmin config ctx s in
    if called_next e1 then
      let '(r2, s2, e2) := execute ctx s1 in (r2, s2, e1 ++ e2)
    else (r, s1, e1).

(** The classification the gate works with. *)
Definition owner (userId : Z) : Prop := userId = OWNER_ID config.
Definition admin (userId : Z) : Prop :=
  owner userId ∨ ∃ admins, ADMINS config = Some admins ∧ userId ∈ admins.

(** An [unauthorized_access] record, whatever its fields. *)
Definition is_unauthorized_log (ev : Event) : Prop :=
  match ev with
  | EvLog (unauthorized_access _ _ _) => True
  | _ => False
  end.

Definition is_exit (ev : Event) : Prop :=
  match ev with
  | EvExit _ => True
  | _ => False
  end.

End WithConfig.
End Router.

(** ** Broadcast *)

Module BroadcastSpec.
Import Broadcast.

(** The outcome of the delivery to one recipient: [None] when the message
    is sent and accepted, the error that [sendMessageToUser] catches
    otherwise. *)
Definition outcome (bot : Bot) (msg : Text) (targetUser : User) : option Error :=
  match bot_telegram bot with
  | Some telegram => sendMessage telegram (user_id targetUser) msg
  | None => Some (TypeError_undefined "sendMessage")
  end.

Definition delivered (bot : Bot) (msg : Text) (targetUser : User) : bool :=
  bool_decide (outcome bot msg targetUser = None).


(** The failure record of a recipient, when its delivery fails. *)
Definition failure_events (bot : Bot) (msg : Text) (targetUser : User)
  : list Event :=
  match outcome bot msg targetUser with
  | None => []
  | Some error =>
      [EvLog (broadcast_delivery_failed (user_id targetUser) (message error))]
  end.

(** The order in which the deliveries of a batch come to their end: by
    the latency of the sends, and in the order of the batch when nothing
    is pending. *)
Definition settle_order (bot : Bot) (batch : list User) : list User :=
  order_by (λ targetUser,
              match bot_telegram bot with
              | Some telegram => latency telegram (user_id targetUser)
              | None => 0%nat
              end) batch.

(** The calls made for a batch.  With a client in [bot.telegram] every
    recipient gets its send, in the order of the batch, and the failure
    records follow as the sends settle.  Without one nothing is sent and
    each recipient's failure is recorded at once. *)
Definition batch_events (bot : Bot) (msg : Text) (batch : list User)
  : list Event :=
  match bot_telegram bot with
  | Some _ =>
      ((λ targetUser, EvSend (user_id targetUser) msg) <$> batch)
      ++ concat (failure_events bot msg <$> settle_order bot batch)
  | None => concat (failure_events bot msg <$> batch)
  end.

(** The counters after the recipients [users] have been processed. *)
Definition tally_after (bot : Bot) (msg : Text) (users : list User) (t : Tally)
  : Tally :=
  {| successCount :=
       successCount t + Z.of_nat (length (filter (λ u, delivered bot msg u = true) users));
     failureCount :=
       failureCount t + Z.of_nat (length (filter (λ u, delivered bot msg u = false) users));
     processedCount := processedCount t + Z.of_nat (length users) |}.

Definition zero : Tally :=
  {| successCount := 0; failureCount := 0; processedCount := 0 |}.

(** The recipients of the sends among [evs], in order. *)
Definition sends (evs : list Event) : list Z :=
  omap (λ ev, match ev with EvSend userId _ => Some userId | _ => None end) evs.

(** The recipient and reason of every delivery-failure record among
    [evs], in order. *)
Definition failure_records (evs : list Event) : list (Z * string) :=
  omap (λ ev, match ev with
              | EvLog (broadcast_delivery_failed userId error) => Some (userId, error)
              | _ => None
              end) evs.

(** The [broadcast_completed] records among [evs]. *)
Definition summaries (evs : list Event) : list LogRecord :=
  omap (λ ev, match ev with
              | EvLog (broadcast_completed a b c d e f g) =>
                  Some (broadcast_completed a b c d e f g)
              | _ => None
              end) evs.

Definition is_progress (t : Text) : Prop :=
  match t with
  | BroadcastProgress _ _ _ _ _ _ => True
  | _ => False
  end.

(** [evs] processes [batches] one after the other: the calls of a batch,
    then its progress report, then the pause that precedes the next
    batch, if there is one. *)
Fixpoint in_batch_order (bot : Bot) (msg : Text) (batches : list (list User))
    (evs : list Event) : Prop :=
  match batches with
  | [] => evs = []
  | batch :: rest =>
      ∃ progress evs',
        evs = batch_events bot msg batch
              ++ EvEdit progress
              :: (if bool_decide (rest ≠ []) then [EvSleep 1000] else [])
              ++ evs'
        ∧ is_progress progress
        ∧ in_batch_order bot msg rest evs'
  end.

(** An event of a run in which no message is sent and a final report, if
    there is one, shows no delivery and [n] failures. *)
Definition nothing_sent (n : nat) (ev : Event) : Prop :=
  match ev with
  | EvSend _ _ => False
  | EvEdit (BroadcastCompleted delivered failed _ _ _) =>
      delivered = 0 ∧ failed = Z.of_nat n
  | _ => True
  end.

(** The command carries a message: what [execute] checks before it looks
    for recipients. *)
Definition carries (messageText broadcastMessage : string) : Prop :=
  (2 ≤ length (Str.split " " messageText))%nat ∧
  broadcastMessage = Str.trim (Str.join " " (drop 1 (Str.split " " messageText))) ∧
  broadcastMessage ≠ ""%string.

(** The two announcements that precede the first batch are delivered. *)
Definition announced (ctx : Ctx) (broadcastMessage : string) (total : nat) : Prop :=
  ctx_reply ctx (BroadcastConfirmation broadcastMessage (Z.of_nat total)) = None ∧
  ctx_reply ctx StartingBroadcast = None.

(** The calls that precede the first batch. *)
Definition job_head (user : User) (broadcastMessage : string) (total : Z)
  : list Event :=
  [EvLog (admin_command "/broadcast" (user_id user)
            (Js.or_str (user_username user) "Unknown")
            (Some (Z.of_nat (Str.length broadcastMessage))));
   EvReply (BroadcastConfirmation broadcastMessage total);
   EvReply StartingBroadcast].

(** The final report shown to the admin, and the audit record. *)
Definition final_report (userLang : string) (total : Z) (t : Tally)
    (completionTime : Z) : Text :=
  BroadcastCompleted (successCount t) (failureCount t)
    (Js.percent (successCount t) total) completionTime
    (Localized userLang "success.broadcast_sent"
       [("count"%string, PNum (successCount t))]).

Definition summary_record (user : User) (broadcastMessage : string)
    (total : Z) (t : Tally) (completionTime : Z) : LogRecord :=
  broadcast_completed (user_id user)
    (Js.or_str (user_username user) "Unknown")
    total (successCount t) (failureCount t) completionTime broadcastMessage.

End BroadcastSpec.

(** * Sample data for the examples *)

Module Samples.

Definition person (n : Z) : User :=
  {| user_id := n; user_username := None; user_first_name := None;
     user_language_code := None |}.

Definition blocked : Error := {| message := "Forbidden: bot was blocked by the user" |}.
Definition expired : Error := {| message := "Bad Request: message to edit not found" |}.

(** Owner 1, admins 2 and 3, [limit] requests per 60 seconds. *)
Definition config_with (limit : Z) : Config :=
  {| OWNER_ID := 1; ADMINS := Some [2; 3];
     FLOOD_CONTROL := Some {| MAX_REQUESTS := Some limit;
                              TIME_WINDOW := Some 60000 |};
     LANGUAGE := None |}.

(** An update sent by user [n] with text [txt]; every transport call
    succeeds. *)
Definition update (n : Z) (txt : string) : Ctx :=
  {| ctx_from := Some (person n); ctx_message_text := Some txt;
     ctx_reply := fun _ => None;
     ctx_sendMessage := fun _ _ => None;
     ctx_editMessageText := fun _ => None |}.

(** The same update when the chat cannot be written to. *)
Definition update_unreachable (n : Z) (txt : string) : Ctx :=
  {| ctx_from := Some (person n); ctx_message_text := Some txt;
     ctx_reply := fun _ => Some blocked;
     ctx_sendMessage := fun _ _ => None;
     ctx_editMessageText := fun _ => None |}.

(** An update without a sender (a channel post). *)
Definition channel_post : Ctx :=
  {| ctx_from := None; ctx_message_text := Some "hello"%string;
     ctx_reply := fun _ => None;
     ctx_sendMessage := fun _ _ => None;
     ctx_editMessageText := fun _ => None |}.

Definition fresh : Store := {| userRequests := ∅; wall := 0 |}.

(** An admin's [/broadcast] update in a chat where the deliveries to the
    recipients in [unreachable] are rejected. *)
Definition broadcast_update (txt : string) (unreachable : list Z) : Ctx :=
  {| ctx_from := Some (person 2); ctx_message_text := Some txt;
     ctx_reply := fun _ => None;
     ctx_sendMessage :=
       fun userId _ => if bool_decide (userId ∈ unreachable)
                       then Some blocked else None;
     ctx_editMessageText := fun _ => None |}.

(** The same update when the status message can no longer be edited. *)
Definition broadcast_update_expired (txt : string) : Ctx :=
  {| ctx_from := Some (person 2); ctx_message_text := Some txt;
     ctx_reply := fun _ => None;
     ctx_sendMessage := fun _ _ => None;
     ctx_editMessageText := fun _ => Some expired |}.

(** The same update when only the progress reports cannot be edited. *)
Definition broadcast_update_no_progress (txt : string) : Ctx :=
  {| ctx_from := Some (person 2); ctx_message_text := Some txt;
     ctx_reply := fun _ => None;
     ctx_sendMessage := fun _ _ => None;
     ctx_editMessageText :=
       fun t => match t with
                | BroadcastProgress _ _ _ _ _ _ => Some expired
                | _ => None
                end |}.

(** The recipients 1 to [n]. *)
Definition people (n : nat) : list User :=
  (λ k, person (Z.of_nat k)) <$> seq 1 n.

(** A Telegraf instance whose client rejects the sends to the recipients in
    [unreachable]. *)
Definition telegraf (unreachable : list Z) (latency : Z -> nat) : Broadcast.Bot :=
  Broadcast.Telegraf
    {| Broadcast.sendMessage :=
         fun userId _ => if bool_decide (userId ∈ unreachable)
                         then Some blocked else None;
       Broadcast.latency := latency |}.

Definition entry (userId : Z) : Logger.Entry :=
  {| Logger.timestamp := Some "2024-01-01T00:00:00.000Z"%string;
     Logger.data := broadcast_delivery_failed userId "x" |}.

Definition disk_ok : Logger.Disk :=
  {| Logger.init_ok := true; Logger.read_ok := true; Logger.write_ok := true |}.

End Samples.


(** * Vocabulary of the further properties *)

(** ** Broadcast: progress reports, pauses, the command text *)

Module BroadcastMore.
Import Broadcast BroadcastSpec.

(** The delivered, failed and processed counts of the progress reports
    among [evs], in order. *)
Definition progress_reports (evs : list Event) : list (Z * Z * Z) :=
  omap (λ ev, match ev with
              | EvEdit (BroadcastProgress delivered failed _ processed _ _) =>
                  Some (delivered, failed, processed)
              | _ => None
              end) evs.

(** The lengths of the pauses among [evs], in order. *)
Definition pauses (evs : list Event) : list Z :=
  omap (λ ev, match ev with EvSleep ms => Some ms | _ => None end) evs.

(** The counters reported after each of [batches], starting from [t]. *)
Fixpoint reports_from (bot : Bot) (msg : Text) (t : Tally)
    (batches : list (list User)) : list (Z * Z * Z) :=
  match batches with
  | [] => []
  | batch :: rest =>
      let t1 := tally_after bot msg batch t in
      (successCount t1, failureCount t1, processedCount t1)
        :: reports_from bot msg t1 rest
  end.

(** What a broadcast does, step by step: the sends, the failure records,
    the progress reports and the pauses, without the texts and the
    times. *)
Inductive Mark :=
  | Sent (userId : Z)
  | Failed (userId : Z) (reason : string)
  | Report (delivered failed processed : Z)
  | Pause (ms : Z).

Definition mark (ev : Event) : option Mark :=
  match ev with
  | EvSend userId _ => Some (Sent userId)
  | EvLog (broadcast_delivery_failed userId reason) => Some (Failed userId reason)
  | EvEdit (BroadcastProgress delivered failed _ processed _ _) =>
      Some (Report delivered failed processed)
  | EvSleep ms => Some (Pause ms)
  | _ => None
  end.

Definition outline (evs : list Event) : list Mark := omap mark evs.

(** The progress reports and the pauses among [marks]. *)
Definition is_beat (m : Mark) : bool :=
  match m with
  | Report _ _ _ | Pause _ => true
  | _ => false
  end.

Definition rhythm (marks : list Mark) : list Mark :=
  filter (λ m, is_beat m = true) marks.

(** The number of batches of size [n] that hold [len] recipients:
    [ceil(len / n)]. *)
Definition batch_count (len n : nat) : nat := (len + n - 1) `div` n.

(** Batch number [k] (from 0) of the snapshot [users]. *)
Definition batch_at {A} (users : list A) (n k : nat) : list A :=
  take n (drop (k * n) users).

(** The steps of a broadcast to [users] in batches of [n] in which every
    delivery fails for [reason] before a message is sent. *)
Definition unsent_outline (reason : string) (users : list User) (n : nat)
  : list Mark :=
  concat
    ((λ k,
        ((λ targetUser, Failed (user_id targetUser) reason)
           <$> batch_at users n k)
        ++ [let processed := Z.of_nat (Nat.min (S k * n) (length users)) in
            Report 0 processed processed]
        ++ (if bool_decide (S k < batch_count (length users) n)%nat
            then [Pause 1000] else []))
       <$> seq 0 (batch_count (length users) n)).

(** How often the character [c] occurs in [s]. *)
Fixpoint occurrences (c : ascii) (s : string) : nat :=
  match s with
  | EmptyString => 0
  | String c' r => (if bool_decide (c' = c) then 1 else 0) + occurrences c r
  end.

(** What follows the first [c] in [s]; nothing when there is no [c]. *)
Fixpoint after_first (c : ascii) (s : string) : string :=
  match s with
  | EmptyString => EmptyString
  | String c' r => if bool_decide (c' = c) then r else after_first c r
  end.

End BroadcastMore.

Module BroadcastText.

(** A run that neither ends the process nor touches the flood-control
    map. *)
Definition harmless {A} (out : Result A * Store * list Event) (s : Store) : Prop :=
  (∀ code, result_of out ≠ Exited code) ∧
  userRequests (store_of out) = userRequests s.

End BroadcastText.

(** ** Calls of [log] that overlap

    [log] is [async] and no call site awaits it: a second call can read
    the file before the first one has written it. *)

Module LoggerMore.
Import Logger.

(** [log] up to its [await fs.writeJSON(..)]: the file as the call has
    left it so far, and the array it is about to write. *)
Definition log_prepare (disk : Disk) (isoNow : string) (logData : Entry)
    (file : LogFile) : LogFile * list Entry :=
  let file := initializeLogFile disk file in
  let logs := read_logs disk file in
  let logs := logs ++ [stamp isoNow logData] in
  let logs :=
    if bool_decide (maxLogsPerFile < length logs)%nat
    then slice_last maxLogsPerFile logs
    else logs in
  (file, logs).

(** The write that ends the call. *)
Definition log_commit (disk : Disk) (logs : list Entry) (file : LogFile)
  : LogFile :=
  if write_ok disk then Logs logs else file.


End LoggerMore.

(** ** The users file ([utils/fileHelper.js])

    [data/users.json] holds a JSON array of user records.  A record is an
    object whose properties hold JSON scalars (the bot itself stores
    numbers and strings); numbers are integers.  An array element can also
    be [null], on which reading [user.id] throws, or any other value, on
    which [user.id] is [undefined]. *)

Module FileHelper.

Inductive Val :=
  | VNum (n : Z)
  | VStr (s : string)
  | VBool (b : bool)
  | VNull.

Global Instance Val_eq_dec : EqDecision Val.
Proof. solve_decision. Defined.

(** A JavaScript object: its own properties.  An absent key reads as
    [undefined]. *)
Abbreviation Obj := (gmap string Val).

Inductive Elem :=
  | ENull                        (* null *)
  | EOther                       (* a number, a string, a boolean, an array *)
  | EObj (o : Obj).

(** What [USERS_FILE] can hold. *)
Inductive UsersFile :=
  | Missing                      (* no file *)
  | Corrupted                    (* not JSON *)
  | NotArray                     (* JSON, but not an array *)
  | Users (users : list Elem).

(** What [fs.readJSON] resolves to. *)
Inductive Json :=
  | JNotArray
  | JArray (users : list Elem).

(** Truthiness of a scalar. *)
Definition truthy (v : Val) : bool :=
  match v with
  | VNum n => bool_decide (n ≠ 0)
  | VStr s => bool_decide (s ≠ ""%string)
  | VBool b => b
  | VNull => false
  end.

(** [x || d] where [x] is a property that may be [undefined]. *)
Definition or_val (x : option Val) (d : Val) : Val :=
  match x with
  | Some v => if truthy v then v else d
  | None => d
  end.

(** [v + 1]: addition of doubles on numbers (booleans and [null] convert
    to numbers), concatenation on strings. *)
Definition plus_one (v : Val) : Val :=
  match v with
  | VNum n => VNum (Js.to_double (n + 1))
  | VStr s => VStr (s +:+ "1")
  | VBool b => VNum (if b then 2 else 1)
  | VNull => VNum 1
  end.

(** [user.id === userId] for a number [userId]; [None] when reading
    [user.id] throws a [TypeError]. *)
Definition id_is (userId : Z) (user : Elem) : option bool :=
  match user with
  | ENull => None
  | EOther => Some false
  | EObj o => Some (bool_decide (o !! "id"%string = Some (VNum userId)))
  end.

(** [users.findIndex(user => user.id === userId)]: [None] when the
    callback throws, [Some None] for [-1]. *)
Fixpoint findIndex (userId : Z) (users : list Elem) : option (option nat) :=
  match users with
  | [] => Some None
  | user :: rest =>
      match id_is userId user with
      | None => None
      | Some true => Some (Some 0%nat)
      | Some false =>
          match findIndex userId rest with
          | Some (Some i) => Some (Some (S i))
          | other => other
          end
      end
  end.

(** [users.find(user => user.id === userId)]: [None] when the callback
    throws, [Some None] for [undefined]. *)
Fixpoint find (userId : Z) (users : list Elem) : option (option Elem) :=
  match users with
  | [] => Some None
  | user :: rest =>
      match id_is userId user with
      | None => None
      | Some true => Some (Some user)
      | Some false => find userId rest
      end
  end.

(** The own properties an object spread [{...user}] copies: none from
    [null]. *)
Definition spread (user : Elem) : Obj :=
  match user with
  | EObj o => o
  | _ => ∅
  end.

(** [initializeFiles], as far as the users file goes: [init_ok] tells
    whether its calls up to [fs.writeJSON(USERS_FILE, [])] go through.  Its
    own errors are caught. *)
Definition initializeFiles (disk : Logger.Disk) (file : UsersFile) : UsersFile :=
  if Logger.init_ok disk then
    match file with
    | Missing => Users []
    | _ => file
    end
  else file.

(** [await fs.readJSON(USERS_FILE)]; [None] when it throws. *)
Definition readJSON (disk : Logger.Disk) (file : UsersFile) : option Json :=
  if Logger.read_ok disk then
    match file with
    | Users users => Some (JArray users)
    | NotArray => Some JNotArray
    | Missing | Corrupted => None
    end
  else None.

(** The record [addUser] builds for a user it does not know; [now] and
    [now'] are the two readings of the clock. *)
Definition newUser (userId : Z) (userData : Obj) (now now' : string) : Obj :=
  userData ∪
  <["id"%string := VNum userId]>
  (<["username"%string := or_val (userData !! "username"%string) (VStr "Unknown")]>
  (<["first_name"%string := or_val (userData !! "first_name"%string) (VStr "Unknown")]>
  (<["last_name"%string := or_val (userData !! "last_name"%string) (VStr "")]>
  (<["language_code"%string := or_val (userData !! "language_code"%string) (VStr "en")]>
  (<["joined_at"%string := VStr now]>
  (<["last_active"%string := VStr now']>
  (<["command_count"%string := VNum 0]> ∅))))))).

(** [addUser(userData)] for a [userData] whose [id] is the number
    [userId]; [rest] holds its other properties.  A later spread overrides
    an earlier one. *)
Definition addUser (disk : Logger.Disk) (now now' : string) (userId : Z)
    (rest : Obj) (file : UsersFile) : UsersFile :=
  let userData := <["id"%string := VNum userId]> rest in
  let file := initializeFiles disk file in
  let users :=
    match readJSON disk file with
    | Some (JArray users) => users
    | _ => []
    end in
  match findIndex userId users with
  | None => file
  | Some existingUserIndex =>
      let users :=
        match existingUserIndex with
        | Some i =>
            <[i := EObj (<["last_active"%string := VStr now]>
                           (userData ∪ spread (default ENull (users !! i))))]>
              users
        | None => users ++ [EObj (newUser userId userData now now')]
        end in
      if Logger.write_ok disk then Users users else file
  end.

(** [getUser(userId)]: the record or [null], and the file it leaves. *)
Definition getUser (disk : Logger.Disk) (userId : Z) (file : UsersFile)
    : option Elem * UsersFile :=
  let file := initializeFiles disk file in
  (match readJSON disk file with
   | Some (JArray users) =>
       match find userId users with
       | Some (Some user) => Some user
       | _ => None
       end
   | _ => None
   end, file).

(** [getAllUsers()]: the array or [[]], and the file it leaves. *)
Definition getAllUsers (disk : Logger.Disk) (file : UsersFile)
    : list Elem * UsersFile :=
  let file := initializeFiles disk file in
  (match readJSON disk file with
   | Some (JArray users) => users
   | _ => []
   end, file).

(** [updateUserActivity(userId)]. *)
Definition updateUserActivity (disk : Logger.Disk) (now : string) (userId : Z)
    (file : UsersFile) : UsersFile :=
  match readJSON disk file with
  | Some (JArray users) =>
      match findIndex userId users with
      | Some (Some userIndex) =>
          let user := spread (default ENull (users !! userIndex)) in
          let user := <["last_active"%string := VStr now]> user in
          if Logger.write_ok disk
          then Users (<[userIndex := EObj user]> users)
          else file
      | _ => file
      end
  | _ => file
  end.

(** [incrementCommandCount(userId)]. *)
Definition incrementCommandCount (disk : Logger.Disk) (now : string) (userId : Z)
    (file : UsersFile) : UsersFile :=
  match readJSON disk file with
  | Some (JArray users) =>
      match findIndex userId users with
      | Some (Some userIndex) =>
          let user := spread (default ENull (users !! userIndex)) in
          let user :=
            <["command_count"%string :=
                plus_one (or_val (user !! "command_count"%string) (VNum 0))]> user in
          let user := <["last_active"%string := VStr now]> user in
          if Logger.write_ok disk
          then Users (<[userIndex := EObj user]> users)
          else file
      | _ => file
      end
  | _ => file
  end.

(** The properties besides [id] of the object the auto-register middleware
    of [index.js] hands to [addUser]; [last_name] is [ctx.from.last_name],
    [joined] and [active] are its two readings of the clock. *)
Definition registration (from : User) (last_name : option string)
    (joined active : string) : Obj :=
  <["username"%string := VStr (Js.or_str (user_username from) "Unknown")]>
  (<["first_name"%string := VStr (Js.or_str (user_first_name from) "Unknown")]>
  (<["last_name"%string := VStr (Js.or_str last_name "")]>
  (<["language_code"%string := VStr (Js.or_str (user_language_code from) "en")]>
  (<["joined_at"%string := VStr joined]>
  (<["last_active"%string := VStr active]> ∅))))).

(** The array the file holds. *)
Definition stored (file : UsersFile) : list Elem :=
  match file with
  | Users users => users
  | _ => []
  end.

(** The records of the array that carry the id [userId]. *)
Definition records_of (userId : Z) (users : list Elem) : list Elem :=
  filter (fun user => id_is userId user = Some true) users.

(** No [null] is met before the first record of [userId], if any: the
    search for [userId] does not throw. *)
Definition searchable (userId : Z) (users : list Elem) : Prop :=
  findIndex userId users ≠ None.

(** None of [users] is [null] or a record of [userId]: a search for
    [userId] passes over all of them. *)
Definition passed_over (userId : Z) (users : list Elem) : Prop :=
  Forall (fun user => id_is userId user = Some false) users.

(** Successive calls of [incrementCommandCount], at the times [nows]. *)
Definition increments (disk : Logger.Disk) (nows : list string) (userId : Z)
    (file : UsersFile) : UsersFile :=
  foldl (fun file now => incrementCommandCount disk now userId file) file nows.

End FileHelper.

Module UserSamples.
Import FileHelper.

(** A stored record of user [userId] who has run [count] commands. *)
Definition fields (userId count : Z) : Obj :=
  <["id"%string := VNum userId]>
  (<["command_count"%string := VNum count]>
  (<["joined_at"%string := VStr "2024-01-01T00:00:00.000Z"]> ∅)).

Definition record (userId count : Z) : Elem := EObj (fields userId count).

Definition file : UsersFile := Users [record 1 4; record 2 7].

(** The same users behind a [null] element. *)
Definition file_with_null : UsersFile := Users [record 1 4; ENull; record 2 7].

Definition disk_unreadable : Logger.Disk :=
  {| Logger.init_ok := true; Logger.read_ok := false; Logger.write_ok := true |}.

End UserSamples.

(** * Theorems *)

(** ** The handler monad *)

Lemma bind_Ok {A B} (m : M A) (k : A -> M B) s a s1 e1 :
  m s = (Ok a, s1, e1) →
  bind m k s = (let '(r, s2, e2) := k a s1 in (r, s2, e1 ++ e2)).
Proof. intros Hm. unfold bind. by rewrite Hm. Qed.

Lemma bind_Throw {A B} (m : M A) (k : A -> M B) s e s1 e1 :
  m s = (Throw e, s1, e1) → bind m k s = (Throw e, s1, e1).
Proof. intros Hm. unfold bind. by rewrite Hm. Qed.

Lemma try_catch_Ok {A} (m : M A) (h : Error -> M A) s a s1 e1 :
  m s = (Ok a, s1, e1) → try_catch m h s = (Ok a, s1, e1).
Proof. intros Hm. unfold try_catch. by rewrite Hm. Qed.

Lemma try_catch_Throw {A} (m : M A) (h : Error -> M A) s e s1 e1 :
  m s = (Throw e, s1, e1) →
  try_catch m h s = (let '(r, s2, e2) := h e s1 in (r, s2, e1 ++ e2)).
Proof. intros Hm. unfold try_catch. by rewrite Hm. Qed.

(** ** Lists *)

Lemma elem_of_concat {A} (x : A) (ls : list (list A)) :
  x ∈ concat ls ↔ ∃ l, x ∈ l ∧ l ∈ ls.
Proof.
  induction ls as [|l ls IH]; cbn.
  - split; [by intros ?%elem_of_nil|]. by intros (l & _ & ?%elem_of_nil).
  - rewrite elem_of_app, IH. split.
    + intros [Hx|(l' & Hx & Hl')]; [exists l|exists l'];
        (split; [done|]); [left|by right].
    + intros (l' & Hx & [->|Hl']%elem_of_cons); [by left|right]. by exists l'.
Qed.

(** Closes a goal from [Hin : x ∈ [a; b; ...]] when [x] differs from every
    element of the list by its constructor. *)
Ltac not_in_list Hin :=
  repeat (apply elem_of_cons in Hin as [?|Hin]; [done|]);
  by apply elem_of_nil in Hin.

(** What a computation emits first is emitted first by whatever goes on
    from it. *)
Lemma bind_events {A B} (m : M A) (k : A → M B) (s : Store) :
  ∃ tail, events_of (bind m k s) = events_of (m s) ++ tail.
Proof.
  unfold bind, events_of. destruct (m s) as [[[a|e|c] s1] e1]; cbn.
  - destruct (k a s1) as [[r s2] e2]. cbn. eauto.
  - exists []. by rewrite app_nil_r.
  - exists []. by rewrite app_nil_r.
Qed.

Lemma bind_prefix {A B} (m : M A) (k : A → M B) (s : Store) (a : A)
    (s1 : Store) (e1 : list Event) :
  m s = (Ok a, s1, e1) →
  ∃ tail, events_of (bind m k s) = e1 ++ tail ∧ tail = events_of (k a s1).
Proof.
  intros Hm. unfold bind, events_of. rewrite Hm.
  destruct (k a s1) as [[r s2] e2]. cbn. eauto.
Qed.

Lemma try_catch_prefix {A} (body : M A) (handler : Error → M A) (s : Store) :
  ∃ tail, events_of (try_catch body handler s) = events_of (body s) ++ tail.
Proof.
  unfold try_catch, events_of. destruct (body s) as [[[a|e|c] s1] e1]; cbn.
  - exists []. by rewrite app_nil_r.
  - destruct (handler e s1) as [[r s2] e2]. cbn. eauto.
  - exists []. by rewrite app_nil_r.
Qed.

Lemma let_nil {A} (out : Result A * Store * list Event) :
  (let '(r, s2, e2) := out in (r, s2, [] ++ e2)) = out.
Proof. by destruct out as [[r s2] e2]. Qed.

(** ** Flood control: one call *)

Module FloodControlFacts.
Import FloodControl FloodSpec.
Section WithConfig.
Variable config : Config.

Lemma floodControl_no_from ctx s :
  ctx_from ctx = None →
  floodControl config ctx s =
    (Ok tt, s,
     [EvLog (middleware_error "floodControl" None None
               (message (TypeError_undefined "id"))); EvNext]).
Proof.
  intros Hfrom.
  unfold floodControl, try_catch, floodControl_try, floodControl_catch, get_from.
  rewrite Hfrom. reflexivity.
Qed.

Lemma floodControl_exempt ctx user s :
  ctx_from ctx = Some user →
  exempt config (user_id user) = true →
  floodControl config ctx s = (Ok tt, s, [EvNext]).
Proof.
  intros Hfrom Hex. unfold exempt in Hex.
  unfold floodControl, try_catch, floodControl_try, get_from.
  rewrite Hfrom. cbn. rewrite Hex. reflexivity.
Qed.

Lemma floodControl_under_limit ctx user s :
  ctx_from ctx = Some user →
  exempt config (user_id user) = false →
  ¬ over_limit config s (user_id user) →
  floodControl config ctx s =
    (Ok tt,
     {| userRequests :=
          <[user_id user := validRequests config s (user_id user) ++ [wall s]]>
            (userRequests s);
        wall := wall s |},
     [EvNext]).
Proof.
  intros Hfrom Hex Hlim. unfold exempt in Hex.
  unfold over_limit, validRequests, stored in *.
  unfold floodControl, try_catch, floodControl_try, get_from.
  rewrite Hfrom. cbn. rewrite Hex. cbn.
  destruct (userRequests s !! user_id user) as [requests|] eqn:Hreq; cbn.
  - rewrite Hreq. cbn. cbn in Hlim.
    rewrite bool_decide_eq_false_2 by done. cbn. reflexivity.
  - rewrite lookup_insert_eq. cbn. cbn in Hlim.
    rewrite bool_decide_eq_false_2 by done. cbn.
    rewrite insert_insert_eq. reflexivity.
Qed.

Lemma floodControl_over_limit ctx user s :
  ctx_from ctx = Some user →
  exempt config (user_id user) = false →
  over_limit config s (user_id user) →
  floodControl config ctx s =
    (Ok tt,
     {| userRequests := touch (user_id user) (userRequests s);
        wall := wall s |},
     rejection_events config ctx user s).
Proof.
  intros Hfrom Hex Hlim. unfold exempt in Hex.
  unfold rejection_events, touch.
  unfold over_limit, validRequests, stored in *.
  unfold floodControl, try_catch, floodControl_try, floodControl_catch, get_from.
  rewrite Hfrom. cbn. rewrite Hex. cbn.
  destruct (userRequests s !! user_id user) as [requests|] eqn:Hreq; cbn.
  - rewrite Hreq. cbn. cbn in Hlim.
    rewrite bool_decide_eq_true_2 by done. cbn.
    unfold reply, await_call.
    destruct (ctx_reply ctx _) as [error|]; cbn; by destruct s.
  - rewrite lookup_insert_eq. cbn. cbn in Hlim.
    rewrite bool_decide_eq_true_2 by done. cbn.
    unfold reply, await_call.
    destruct (ctx_reply ctx _) as [error|]; cbn; done.
Qed.

Lemma touch_stored userId m w :
  stored {| userRequests := touch userId m; wall := w |} userId
  = stored {| userRequests := m; wall := w |} userId.
Proof.
  unfold stored, touch; cbn.
  destruct (m !! userId) eqn:E; cbn; [by rewrite E|by rewrite lookup_insert_eq].
Qed.

Lemma touch_other userId other m :
  other ≠ userId → touch userId m !! other = m !! other.
Proof.
  intros Hne. unfold touch. destruct (m !! userId); [done|].
  by rewrite lookup_insert_ne.
Qed.

End WithConfig.
End FloodControlFacts.

(** ** Flood control: sequences of calls *)

Module FloodWindow.
Import FloodControl FloodSpec FloodControlFacts.

Lemma filter_submseteq_mono {A} (P : A → Prop) `{!∀ x, Decision (P x)}
  (l1 l2 : list A) :
l1 ⊆+ l2 → filter P l1 ⊆+ filter P l2.
Proof.
induction 1 as [|x l1 l2 _ IH|x y l|x l1 l2 _ IH|l1 l2 l3 _ IH1 _ IH2].
- done.
- rewrite !filter_cons. case_decide; [by constructor|done].
- rewrite !filter_cons. repeat case_decide; try done. by constructor.
- rewrite filter_cons. case_decide; [by constructor|done].
- by etrans.
Qed.

Section WithConfig.
Variable config : Config.
Variable u : Z.
Hypothesis u_not_exempt : exempt config u = false.
Hypothesis window_pos : 0 < timeWindow config.


(** Pruning at a later time keeps less. *)
Lemma prune_prune t t' l :
  t ≤ t' → prune config t' (prune config t l) = prune config t' l.
Proof.
  intros Hle. unfold FloodControl.prune.
  apply list_filter_filter_l. intros x. lia.
Qed.

(** What one step does to the stored sequence of [u], and whether it
    counts as an admitted call of [u]. *)
Lemma step_spec i s :
  let out := step config i s in
  let t := input_time i in
  (admitted_at u (i, events_of out) = None ∧
     (stored (store_of out) u = stored s u ∨
      stored (store_of out) u = prune config t (stored s u)))
  ∨
  (admitted_at u (i, events_of out) = Some t ∧
     stored (store_of out) u = prune config t (stored s u) ++ [t] ∧
     Z.of_nat (length (prune config t (stored s u))) < maxRequests config).
Proof.
  destruct i as [t ctx|t]; cbn.
  - unfold at_time. set (s' := {| userRequests := userRequests s; wall := t |}).
    destruct (ctx_from ctx) as [user|] eqn:Hfrom.
    + destruct (exempt config (user_id user)) eqn:Hex.
      * (* exempt sender: not [u] *)
        rewrite (floodControl_exempt _ _ _ _ Hfrom Hex).
        left. split; [|by left].
        unfold admitted_at; cbn. rewrite Hfrom; cbn.
        rewrite bool_decide_eq_false_2; [done|].
        intros [= Heq]. congruence.
      * destruct (decide (over_limit config s' (user_id user))) as [Hover|Hunder].
        -- rewrite (floodControl_over_limit _ _ _ _ Hfrom Hex Hover).
           left. unfold admitted_at, store_of, events_of; cbn. rewrite Hfrom; cbn.
           destruct (decide (user_id user = u)) as [Heq|Hne].
           ++ split; [|left; rewrite <- Heq; by rewrite touch_stored].
              rewrite bool_decide_eq_true_2 by (by rewrite Heq). cbn.
              unfold forwarded, failed_open, rejection_events.
              destruct (ctx_reply ctx _) as [error|]; cbn.
              ** (* the reply is rejected: the [catch] block passes the
                    request on *)
                 by rewrite andb_false_r.
              ** (* the reply is delivered: [next()] is not called *)
                 rewrite bool_decide_eq_false_2; [done|].
                 intros Hin. not_in_list Hin.
           ++ split.
              ** rewrite bool_decide_eq_false_2; [done|]. congruence.
              ** left. unfold FloodSpec.stored; cbn.
                 by rewrite touch_other.
        -- rewrite (floodControl_under_limit _ _ _ _ Hfrom Hex Hunder).
           unfold admitted_at, store_of, events_of; cbn. rewrite Hfrom; cbn.
           destruct (decide (user_id user = u)) as [Heq|Hne].
           ++ right. rewrite bool_decide_eq_true_2 by (by rewrite Heq).
              unfold forwarded. rewrite bool_decide_eq_true_2 by apply list_elem_of_here.
              split; [done|]. split.
              ** unfold FloodSpec.stored at 1; cbn. rewrite <- Heq.
                 rewrite lookup_insert_eq. done.
              ** unfold over_limit, validRequests in Hunder. cbn in Hunder.
                 rewrite Heq in Hunder.
                 change (FloodSpec.stored s' u) with (FloodSpec.stored s u) in Hunder.
                 lia.
           ++ left. split.
              ** rewrite bool_decide_eq_false_2; [done|]. congruence.
              ** left. unfold FloodSpec.stored; cbn.
                 by rewrite lookup_insert_ne.
    + rewrite (floodControl_no_from _ _ _ Hfrom).
      left. split; [|by left].
      unfold admitted_at; cbn. by rewrite Hfrom.
  - (* the periodic clean-up *)
    left. split; [done|]. right.
    unfold store_of, cleanup, at_time, FloodSpec.stored; cbn.
    rewrite lookup_omap.
    destruct (userRequests s !! u) as [requests|]; cbn; [|done].
    case_bool_decide as Hlen; cbn; [|done].
    by apply nil_length_inv in Hlen.
Qed.

Lemma window_inv_step now hist s i :
  now ≤ input_time i →
  window_inv config u now hist s →
  let out := step config i s in
  window_inv config u (input_time i)
    (hist ++ option_list (admitted_at u (i, events_of out)))
    (store_of out).
Proof.
  intros Hle [Hcount Hsub] out.
  set (t := input_time i) in *.
  assert (Hsub' : prune config t hist ⊆+ prune config t (stored s u)).
  { rewrite <- (prune_prune now t hist) by done.
    by apply filter_submseteq_mono. }
  destruct (step_spec i s) as [[Hnone Hst]|(Hsome & Hst & Hlen)];
    fold out t in Hnone, Hst || fold out t in Hsome, Hst, Hlen.
  - rewrite Hnone; cbn. rewrite app_nil_r. split; [done|].
    destruct Hst as [-> | ->]; [|done].
    etrans; [exact Hsub'|]. apply sublist_submseteq, sublist_filter.
  - rewrite Hsome; cbn. split.
    + intros T. rewrite filter_app, length_app.
      destruct (decide (in_window config T t)) as [Hin|Hout].
      * rewrite (filter_cons_True _ _ _ Hin); cbn.
        assert (Hincl : filter (in_window config T) hist ⊆+ prune config t hist).
        { unfold FloodControl.prune.
          rewrite <- (list_filter_filter_l
                        (in_window config T) (λ a, t - a < timeWindow config)).
          - apply sublist_submseteq, sublist_filter.
          - unfold in_window in *. intros x. lia. }
        apply submseteq_length in Hincl.
        apply submseteq_length in Hsub'. lia.
      * rewrite (filter_cons_False _ _ _ Hout); cbn.
        specialize (Hcount T). lia.
    + rewrite Hst. unfold FloodControl.prune at 1.
      rewrite filter_app. apply submseteq_app; [exact Hsub'|].
      rewrite filter_cons_True by lia. done.
Qed.

Lemma window_inv_run inputs : ∀ now hist s,
  Sorted Z.le (now :: (input_time <$> inputs)) →
  window_inv config u now hist s →
  ∀ T, Z.of_nat (length (filter (in_window config T)
                           (hist ++ admitted_times u (run config inputs s).1)))
       ≤ maxRequests config.
Proof.
  induction inputs as [|i rest IH]; intros now hist s Hsorted Hinv T.
  - cbn. rewrite app_nil_r. apply Hinv.
  - cbn [run fst]. unfold admitted_times. cbn [omap list_omap].
    fold (admitted_times u (run config rest (store_of (step config i s))).1).
    apply Sorted_inv in Hsorted as [Hsorted Hhd].
    apply HdRel_inv in Hhd. cbn in Hsorted.
    assert (Hstep := window_inv_step now hist s i Hhd Hinv).
    cbn zeta in Hstep.
    destruct (admitted_at u (i, events_of (step config i s))) as [t|] eqn:Hal.
    + replace (hist ++ t :: admitted_times u (run config rest (store_of (step config i s))).1)
        with ((hist ++ [t]) ++ admitted_times u (run config rest (store_of (step config i s))).1)
        by (by rewrite <- app_assoc).
      by eapply (IH (input_time i)).
    + eapply (IH (input_time i)); [exact Hsorted|].
      cbn in Hstep. by rewrite app_nil_r in Hstep.
Qed.

End WithConfig.
End FloodWindow.

(** ** Flood control: the retry-after value *)

Module RetryAfter.

Lemma ceil_div_spec a b :
  0 < b → b * (Js.ceil_div a b - 1) < a ∧ a ≤ b * Js.ceil_div a b.
Proof.
  intros Hb. unfold Js.ceil_div.
  pose proof (Z.div_mod (- a) b) as Hdm.
  pose proof (Z.mod_pos_bound (- a) b Hb) as Hmod.
  lia.
Qed.

Lemma Math_min_nil_inv l : Js.Math_min l = Js.Infinity → l = [].
Proof.
  destruct l as [|x r]; [done|]. cbn. by destruct (Js.Math_min r).
Qed.

(** [Math.min] of a non-empty list is its least element. *)
Lemma Math_min_spec l m :
  Js.Math_min l = Js.Fin m → m ∈ l ∧ ∀ x, x ∈ l → m ≤ x.
Proof.
  revert m. induction l as [|x r IH]; intros m; cbn; [done|].
  destruct (Js.Math_min r) as [m'|] eqn:Hr.
  - intros [= <-]. destruct (IH m' eq_refl) as [Hin Hle]. split.
    + destruct (Z.min_spec x m') as [[_ ->]|[_ ->]]; [left|by right].
    + intros y [->|Hy]%elem_of_cons; [lia|]. specialize (Hle y Hy). lia.
  - intros [= <-]. apply Math_min_nil_inv in Hr as ->. split; [left|].
    intros y [->|Hy]%elem_of_cons; [lia|]. by apply elem_of_nil in Hy.
Qed.

Lemma Math_min_is_Fin l : l ≠ [] → ∃ m, Js.Math_min l = Js.Fin m.
Proof.
  intros Hne. destruct (Js.Math_min l) as [m|] eqn:E; [by exists m|].
  by apply Math_min_nil_inv in E.
Qed.

End RetryAfter.

(** ** Flood control: the claims *)

Section FloodClaims.
Import FloodControl FloodSpec FloodControlFacts.

(** A run never starts tracking an exempt identity. *)
Lemma step_untracked config u i s :
  exempt config u = true →
  userRequests s !! u = None →
  userRequests (store_of (step config i s)) !! u = None.
Proof.
  intros Hex Hnone. destruct i as [t ctx|t]; cbn.
  - unfold at_time. set (s' := {| userRequests := userRequests s; wall := t |}).
    destruct (ctx_from ctx) as [user|] eqn:Hfrom;
      [|by rewrite (floodControl_no_from _ _ _ Hfrom)].
    destruct (exempt config (user_id user)) eqn:Hex';
      [by rewrite (floodControl_exempt _ _ _ _ Hfrom Hex')|].
    assert (u ≠ user_id user) by congruence.
    destruct (decide (over_limit config s' (user_id user))) as [Hover|Hunder].
    + rewrite (floodControl_over_limit _ _ _ _ Hfrom Hex' Hover).
      unfold store_of; cbn. by rewrite touch_other.
    + rewrite (floodControl_under_limit _ _ _ _ Hfrom Hex' Hunder).
      unfold store_of; cbn. by rewrite lookup_insert_ne.
  - unfold store_of, cleanup, at_time; cbn.
    rewrite lookup_omap. by rewrite Hnone.
Qed.

(** When the [try] block throws, it has not called [next()]. *)
Lemma floodControl_try_throws config ctx s error s' evs :
  floodControl_try config ctx s = (Throw error, s', evs) →
  EvNext ∉ evs.
Proof.
  unfold floodControl_try, get_from.
  destruct (ctx_from ctx) as [user|]; cbn.
  - destruct (is_owner config (user_id user) || in_admins config (user_id user));
      [cbn; congruence|].
    cbn. destruct (userRequests s !! user_id user) as [requests|] eqn:Hreq; cbn;
      rewrite ?Hreq, ?lookup_insert_eq; cbn;
      case_bool_decide; cbn; try congruence;
      unfold reply, await_call;
      (destruct (ctx_reply ctx _); cbn; [|congruence]);
      intros [= _ _ <-] Hin;
      not_in_list Hin.
  - intros [= _ _ <-]. apply not_elem_of_nil.
Qed.

(** [floodControl] itself never throws and never ends the process. *)
Lemma floodControl_returns config ctx s :
  result_of (floodControl config ctx s) = Ok tt.
Proof.
  destruct (ctx_from ctx) as [user|] eqn:Hfrom;
    [|by rewrite (floodControl_no_from _ _ _ Hfrom)].
  destruct (exempt config (user_id user)) eqn:Hex;
    [by rewrite (floodControl_exempt _ _ _ _ Hfrom Hex)|].
  destruct (decide (over_limit config s (user_id user))) as [Hover|Hunder].
  - by rewrite (floodControl_over_limit _ _ _ _ Hfrom Hex Hover).
  - by rewrite (floodControl_under_limit _ _ _ _ Hfrom Hex Hunder).
Qed.

End FloodClaims.

(** C3 (as amended).  Take any chronological sequence of requests and
    clean-up runs, from any store, and a user who is neither owner nor
    admin.  With [maxRequests > 0] and [timeWindow > 0], the calls of that
    user that the limit check admits (those passed on by [next()] outside
    the [catch] block) and whose timestamps lie in a trailing window
    [(T - timeWindow, T]] are at most [maxRequests], for every [T]. *)
Theorem flood_window_bound (config : Config) (u : Z)
    (inputs : list FloodSpec.Input) (s : Store) (T : Z) :
  0 < FloodControl.maxRequests config →
  0 < FloodControl.timeWindow config →
  FloodSpec.exempt config u = false →
  Sorted Z.le (FloodSpec.input_time <$> inputs) →
  Z.of_nat (length (filter (FloodSpec.in_window config T)
                      (FloodSpec.admitted_times u
                         (FloodSpec.run config inputs s).1)))
  ≤ FloodControl.maxRequests config.
Proof.
  intros Hmax Hwin Hex Hsorted.
  destruct inputs as [|i rest].
  - cbn. lia.
  - apply (FloodWindow.window_inv_run config u Hex Hwin (i :: rest)
             (FloodSpec.input_time i) [] s).
    + constructor; [exact Hsorted|]. constructor. cbn. lia.
    + split; [intros T'; cbn; lia|]. cbn. apply submseteq_nil_l.
Qed.

Lemma flood_window_bound_witness :
  Z.of_nat (length (filter (FloodSpec.in_window (Samples.config_with 2) 61000)
                      (FloodSpec.admitted_times 7
                         (FloodSpec.run (Samples.config_with 2)
                            [FloodSpec.Request 1000 (Samples.update 7 "a");
                             FloodSpec.Request 2000 (Samples.update 7 "b");
                             FloodSpec.Request 3000 (Samples.update 7 "c");
                             FloodSpec.Request 3500 (Samples.update_unreachable 7 "d");
                             FloodSpec.Request 4000 (Samples.update 8 "e");
                             FloodSpec.Sweep 60000;
                             FloodSpec.Request 61000 (Samples.update 7 "f")]
                            Samples.fresh).1)))
  ≤ FloodControl.maxRequests (Samples.config_with 2).
Proof.
  apply flood_window_bound.
  - reflexivity.
  - reflexivity.
  - reflexivity.
  - cbn. repeat constructor; lia.
Defined.

(** The run of the witness.  The calls at 1000 and 2000 are admitted, those
    at 3000 and 3500 are over the limit, and the call at 61000 is admitted
    again: two admitted calls lie in the window that ends at 61000, so the
    bound is attained.  The call at 3500 is passed on all the same, by the
    [catch] block, because its cooldown reply is rejected. *)
Example flood_window_trace :
  let log :=
    (FloodSpec.run (Samples.config_with 2)
       [FloodSpec.Request 1000 (Samples.update 7 "a");
        FloodSpec.Request 2000 (Samples.update 7 "b");
        FloodSpec.Request 3000 (Samples.update 7 "c");
        FloodSpec.Request 3500 (Samples.update_unreachable 7 "d");
        FloodSpec.Request 4000 (Samples.update 8 "e");
        FloodSpec.Sweep 60000;
        FloodSpec.Request 61000 (Samples.update 7 "f")]
       Samples.fresh).1 in
  FloodSpec.admitted_times 7 log = [1000; 2000; 61000] ∧
  FloodSpec.allowed_times 7 log = [1000; 2000; 3500; 61000].
Proof. vm_compute. split; reflexivity. Qed.

(** C3 as stated fails: a request over the limit whose cooldown reply is
    rejected by the transport falls into the [catch] block, which calls
    [next()].  With a limit of one request per minute, the calls at 0 and
    1000 both go through. *)
Lemma flood_window_bound_fails_open :
  ¬ (∀ (config : Config) (u : Z) (inputs : list FloodSpec.Input)
       (s : Store) (T : Z),
        0 < FloodControl.maxRequests config →
        0 < FloodControl.timeWindow config →
        FloodSpec.exempt config u = false →
        Sorted Z.le (FloodSpec.input_time <$> inputs) →
        Z.of_nat (length (filter (FloodSpec.in_window config T)
                            (FloodSpec.allowed_times u
                               (FloodSpec.run config inputs s).1)))
        ≤ FloodControl.maxRequests config).
Proof.
  intros Hclaim.
  specialize (Hclaim (Samples.config_with 1) 7
                [FloodSpec.Request 0 (Samples.update 7 "a");
                 FloodSpec.Request 1000 (Samples.update_unreachable 7 "b")]
                Samples.fresh 1000).
  assert (Hrun :
    FloodSpec.allowed_times 7
      (FloodSpec.run (Samples.config_with 1)
         [FloodSpec.Request 0 (Samples.update 7 "a");
          FloodSpec.Request 1000 (Samples.update_unreachable 7 "b")]
         Samples.fresh).1 = [0; 1000]) by (vm_compute; reflexivity).
  rewrite Hrun in Hclaim.
  assert (Hbad : ¬ (2 ≤ 1)) by lia.
  apply Hbad. apply Hclaim.
  - reflexivity.
  - reflexivity.
  - reflexivity.
  - cbn. repeat constructor; lia.
Qed.

(** The order of the timestamps matters as well: when the clock steps
    back, calls that were pruned at a later reading are no longer seen, and
    three calls are admitted within two seconds under a limit of two. *)
Example flood_window_bound_needs_chronology :
  filter (FloodSpec.in_window (Samples.config_with 2) 2000)
    (FloodSpec.admitted_times 7
       (FloodSpec.run (Samples.config_with 2)
          [FloodSpec.Request 0 (Samples.update 7 "a");
           FloodSpec.Request 1000 (Samples.update 7 "b");
           FloodSpec.Request 70000 (Samples.update 7 "c");
           FloodSpec.Request 2000 (Samples.update 7 "d")]
          Samples.fresh).1)
  = [0; 1000; 2000].
Proof. vm_compute. reflexivity. Qed.

(** C5.  When a call of a non-exempt user finds [maxRequests] or more
    timestamps left after pruning (with [maxRequests > 0]), the value it
    reports, in the log record and in the reply, is
    [ceil((timeWindow - (now - oldest)) / 1000)], where [oldest] is the
    least stored timestamp that is still inside the window; the store is
    left exactly as it was, so the rejected attempt is not recorded. *)
Theorem rejection_reports_retry_after (config : Config) (ctx : Ctx)
    (user : User) (s : Store) :
  ctx_from ctx = Some user →
  FloodSpec.exempt config (user_id user) = false →
  0 < FloodControl.maxRequests config →
  FloodSpec.over_limit config s (user_id user) →
  let now := wall s in
  let timeWindow := FloodControl.timeWindow config in
  let out := FloodControl.floodControl config ctx s in
  ∃ oldest retryAfter : Z,
    (oldest ∈ FloodSpec.stored s (user_id user) ∧
     now - oldest < timeWindow ∧
     ∀ ts, ts ∈ FloodSpec.stored s (user_id user) →
           now - ts < timeWindow → oldest ≤ ts) ∧
    (1000 * (retryAfter - 1) < timeWindow - (now - oldest) ∧
     timeWindow - (now - oldest) ≤ 1000 * retryAfter) ∧
    EvLog (flood_control_triggered (user_id user)
             (Js.or_str (user_username user) "Unknown")
             (Z.of_nat (length (FloodSpec.validRequests config s (user_id user))))
             (FloodControl.maxRequests config) (Js.Fin retryAfter))
      ∈ events_of out ∧
    EvReply (SlowDown (Js.Fin retryAfter) (FloodControl.maxRequests config)
               timeWindow)
      ∈ events_of out ∧
    store_of out = s.
Proof.
  intros Hfrom Hex Hmax Hover now timeWindow out.
  assert (Hne : FloodSpec.validRequests config s (user_id user) ≠ []).
  { unfold FloodSpec.over_limit in Hover. intros E. rewrite E in Hover.
    cbn in Hover. lia. }
  destruct (RetryAfter.Math_min_is_Fin _ Hne) as [oldest Hmin].
  destruct (RetryAfter.Math_min_spec _ _ Hmin) as [Hin Hleast].
  exists oldest, (Js.ceil_div (timeWindow - (now - oldest)) 1000).
  unfold FloodSpec.validRequests, FloodControl.prune in Hin, Hleast.
  split; [|split; [apply RetryAfter.ceil_div_spec; lia|]].
  { apply list_elem_of_filter in Hin as [Hin1 Hin2]. repeat split; [done..|].
    intros ts Hts Hw. apply Hleast. by apply list_elem_of_filter. }
  subst out.
  rewrite (FloodControlFacts.floodControl_over_limit _ _ _ _ Hfrom Hex Hover).
  unfold events_of, store_of, FloodSpec.rejection_events,
    FloodControl.remainingTime; cbn.
  rewrite Hmin. fold now timeWindow.
  split; [apply list_elem_of_here|].
  split; [apply list_elem_of_further, list_elem_of_here|].
  unfold FloodSpec.touch.
  apply list_elem_of_filter in Hin as [_ Hin].
  unfold FloodSpec.stored in Hin.
  destruct (userRequests s !! user_id user) eqn:Hlook; [by destruct s|].
  cbn in Hin. by apply elem_of_nil in Hin.
Qed.

Lemma rejection_reports_retry_after_witness :
  let s := {| userRequests := {[ 7 := [100; 200] ]}; wall := 5000 |} in
  ∃ oldest retryAfter : Z,
    (oldest ∈ [100; 200] ∧ 5000 - oldest < 60000 ∧
     ∀ ts, ts ∈ [100; 200] → 5000 - ts < 60000 → oldest ≤ ts) ∧
    (1000 * (retryAfter - 1) < 60000 - (5000 - oldest) ∧
     60000 - (5000 - oldest) ≤ 1000 * retryAfter) ∧
    EvLog (flood_control_triggered 7 "Unknown" 2 2 (Js.Fin retryAfter))
      ∈ events_of (FloodControl.floodControl (Samples.config_with 2)
                     (Samples.update 7 "x") s) ∧
    EvReply (SlowDown (Js.Fin retryAfter) 2 60000)
      ∈ events_of (FloodControl.floodControl (Samples.config_with 2)
                     (Samples.update 7 "x") s) ∧
    store_of (FloodControl.floodControl (Samples.config_with 2)
                (Samples.update 7 "x") s) = s.
Proof.
  intros s.
  apply (rejection_reports_retry_after (Samples.config_with 2)
           (Samples.update 7 "x") (Samples.person 7) s).
  - reflexivity.
  - reflexivity.
  - reflexivity.
  - vm_compute. discriminate.
Defined.

(** The value reported in the sample above is 56 seconds. *)
Example rejection_sample :
  FloodControl.floodControl (Samples.config_with 2) (Samples.update 7 "x")
    {| userRequests := {[ 7 := [100; 200] ]}; wall := 5000 |}
  = (Ok tt, {| userRequests := {[ 7 := [100; 200] ]}; wall := 5000 |},
     [EvLog (flood_control_triggered 7 "Unknown" 2 2 (Js.Fin 56));
      EvReply (SlowDown (Js.Fin 56) 2 60000)]).
Proof. vm_compute. reflexivity. Qed.

(** C6.  A caller who is the owner or one of the admins is always passed
    on, whatever the store holds: the call does nothing but [next()], and
    leaves the store as it is.  Over any sequence of requests and clean-up
    runs, every request of such a caller is passed on and the caller never
    gets an entry in [userRequests]. *)
Theorem exempt_bypasses_flood_control (config : Config) (u : Z) :
  FloodSpec.exempt config u = true →
  (∀ ctx user s,
     ctx_from ctx = Some user → user_id user = u →
     FloodControl.floodControl config ctx s = (Ok tt, s, [EvNext])) ∧
  (∀ inputs s,
     userRequests s !! u = None →
     (∀ entry, entry ∈ (FloodSpec.run config inputs s).1 →
               FloodSpec.sender entry.1 = Some u → entry.2 = [EvNext]) ∧
     userRequests (FloodSpec.run config inputs s).2 !! u = None).
Proof.
  intros Hex. split.
  - intros ctx user s Hfrom <-.
    exact (FloodControlFacts.floodControl_exempt config ctx user s Hfrom Hex).
  - intros inputs. induction inputs as [|i rest IH]; intros s Hnone.
    + split; [|done]. intros entry Hin. by apply elem_of_nil in Hin.
    + cbn [FloodSpec.run fst snd].
      destruct (IH (store_of (FloodSpec.step config i s))) as [IH1 IH2].
      { by apply step_untracked. }
      split; [|exact IH2].
      intros entry [->|Hin]%elem_of_cons; [|by apply IH1].
      cbn. destruct i as [t ctx|t]; cbn; [|done].
      destruct (ctx_from ctx) as [user|] eqn:Hfrom; cbn; [|done].
      intros [= Hu]. unfold FloodSpec.at_time.
      rewrite (FloodControlFacts.floodControl_exempt config ctx user); [done..|].
      by rewrite Hu.
Qed.

Lemma exempt_bypasses_flood_control_witness :
  (∀ ctx user s,
     ctx_from ctx = Some user → user_id user = 2 →
     FloodControl.floodControl (Samples.config_with 1) ctx s
     = (Ok tt, s, [EvNext])) ∧
  (∀ inputs s,
     userRequests s !! 2 = None →
     (∀ entry, entry ∈ (FloodSpec.run (Samples.config_with 1) inputs s).1 →
               FloodSpec.sender entry.1 = Some 2 → entry.2 = [EvNext]) ∧
     userRequests (FloodSpec.run (Samples.config_with 1) inputs s).2 !! 2 = None).
Proof.
  apply (exempt_bypasses_flood_control (Samples.config_with 1) 2).
  reflexivity.
Defined.

(** An admin may call ten times in the same millisecond. *)
Example exempt_burst :
  let inputs := replicate 10 (FloodSpec.Request 5 (Samples.update 3 "/help")) in
  let r := FloodSpec.run (Samples.config_with 1) inputs Samples.fresh in
  FloodSpec.allowed_times 3 r.1 = replicate 10 5 ∧ userRequests r.2 = ∅.
Proof. vm_compute. split; reflexivity. Qed.

(** C7.  When the body of [floodControl] throws, the middleware logs a
    [middleware_error] record with the error message and then calls
    [next()]: the request is passed on, once, and [floodControl] returns
    normally. *)
Theorem floodControl_fails_open (config : Config) (ctx : Ctx) (s s' : Store)
    (error : Error) (evs : list Event) :
  FloodControl.floodControl_try config ctx s = (Throw error, s', evs) →
  FloodControl.floodControl config ctx s =
    (Ok tt, s',
     evs ++ [EvLog (middleware_error "floodControl"
                      (user_id <$> ctx_from ctx)
                      (ctx_from ctx ≫= user_username)
                      (message error));
             EvNext]) ∧
  EvNext ∉ evs.
Proof.
  intros Hthrow. split; [|by eapply floodControl_try_throws].
  unfold FloodControl.floodControl, try_catch. rewrite Hthrow. reflexivity.
Qed.

Lemma floodControl_fails_open_witness :
  FloodControl.floodControl (Samples.config_with 5) Samples.channel_post
    Samples.fresh
  = (Ok tt, Samples.fresh,
     [] ++ [EvLog (middleware_error "floodControl" None None
                     "Cannot read properties of undefined (reading 'id')");
            EvNext]) ∧
  EvNext ∉ [].
Proof.
  apply (floodControl_fails_open (Samples.config_with 5) Samples.channel_post
           Samples.fresh Samples.fresh (TypeError_undefined "id") []).
  reflexivity.
Defined.

(** The other way for the body to throw: the cooldown reply is rejected. *)
Example floodControl_fails_open_on_reply :
  FloodControl.floodControl (Samples.config_with 1)
    (Samples.update_unreachable 7 "x")
    {| userRequests := {[ 7 := [100] ]}; wall := 5000 |}
  = (Ok tt, {| userRequests := {[ 7 := [100] ]}; wall := 5000 |},
     [EvLog (flood_control_triggered 7 "Unknown" 1 1 (Js.Fin 56));
      EvReply (SlowDown (Js.Fin 56) 1 60000);
      EvLog (middleware_error "floodControl" (Some 7) None
               "Forbidden: bot was blocked by the user");
      EvNext]).
Proof. vm_compute. reflexivity. Qed.

(** ** The admin gate and the owner-only command *)

Section GateFacts.
Variable config : Config.

Lemma admin_iff userId :
  Router.admin config userId ↔
  is_owner config userId || in_admins config userId = true.
Proof.
  unfold Router.admin, Router.owner, is_owner, in_admins.
  rewrite orb_true_iff, bool_decide_eq_true. split.
  - intros [?|(admins & -> & Hin)]; [by left|right].
    by apply bool_decide_eq_true.
  - intros [?|Hin]; [by left|right].
    destruct (ADMINS config) as [admins|]; [|done].
    exists admins. split; [done|]. by apply bool_decide_eq_true in Hin.
Qed.

Lemma isAdmin_owner ctx user s :
  ctx_from ctx = Some user → user_id user = OWNER_ID config →
  IsAdmin.isAdmin config ctx s = (Ok tt, s, [EvSetIsOwner; EvSetIsAdmin; EvNext]).
Proof.
  intros Hfrom Hid.
  unfold IsAdmin.isAdmin, try_catch, IsAdmin.isAdmin_try, get_from, is_owner.
  rewrite Hfrom; cbn. rewrite bool_decide_eq_true_2 by done. reflexivity.
Qed.

Lemma isAdmin_admin ctx user s :
  ctx_from ctx = Some user → user_id user ≠ OWNER_ID config →
  in_admins config (user_id user) = true →
  IsAdmin.isAdmin config ctx s = (Ok tt, s, [EvSetIsAdmin; EvNext]).
Proof.
  intros Hfrom Hid Hadm.
  unfold IsAdmin.isAdmin, try_catch, IsAdmin.isAdmin_try, get_from, is_owner.
  rewrite Hfrom; cbn. rewrite bool_decide_eq_false_2 by done.
  rewrite Hadm. reflexivity.
Qed.

(** The calls of the denial path; [rest] are those of the [catch] block
    when the denial itself cannot be delivered. *)
Lemma isAdmin_denied ctx user s :
  ctx_from ctx = Some user → user_id user ≠ OWNER_ID config →
  in_admins config (user_id user) = false →
  ∃ r rest,
    IsAdmin.isAdmin config ctx s =
      (r, s,
       [EvLog (unauthorized_access (user_id user)
                 (Js.or_str (user_username user) "Unknown")
                 (Js.or_str (ctx_message_text ctx) "Unknown"));
        EvReply AdminAccessDenied] ++ rest) ∧
    (EvNext ∉ rest) ∧ (EvSetIsOwner ∉ rest) ∧ (EvSetIsAdmin ∉ rest).
Proof.
  intros Hfrom Hid Hadm.
  unfold IsAdmin.isAdmin, try_catch, IsAdmin.isAdmin_try, IsAdmin.isAdmin_catch,
    get_from, is_owner.
  rewrite Hfrom; cbn. rewrite bool_decide_eq_false_2 by done.
  rewrite Hadm. cbn. unfold reply, await_call.
  destruct (ctx_reply ctx AdminAccessDenied) as [error|]; cbn.
  - destruct (ctx_reply ctx PermissionSystemError) as [error'|]; cbn;
      eexists _, _; (split; [reflexivity|]);
      repeat split; intros Hin;
      not_in_list Hin.
  - exists (Ok tt), []. split; [reflexivity|].
    repeat split; apply not_elem_of_nil.
Qed.

Lemma isAdmin_no_from ctx s :
  ctx_from ctx = None →
  ∃ r rest,
    IsAdmin.isAdmin config ctx s = (r, s, rest) ∧
    (EvNext ∉ rest) ∧ (EvSetIsOwner ∉ rest) ∧ (EvSetIsAdmin ∉ rest).
Proof.
  intros Hfrom.
  unfold IsAdmin.isAdmin, try_catch, IsAdmin.isAdmin_try, IsAdmin.isAdmin_catch,
    get_from.
  rewrite Hfrom; cbn. unfold reply, await_call.
  destruct (ctx_reply ctx PermissionSystemError) as [error'|]; cbn;
    eexists _, _; (split; [reflexivity|]);
    repeat split; intros Hin;
    not_in_list Hin.
Qed.

End GateFacts.

(** C8.  For a caller with id [uid], the gate marks the context as owner
    exactly when [uid] is the configured owner id, and as admin exactly
    when the caller is the owner or a member of [ADMINS].  For an admin it
    calls [next()] once, so the guarded handler runs; for anyone else it
    logs an [unauthorized_access] record, answers with the fixed denial
    text, and the handler does not run: the outcome of the gated command is
    that of the gate alone, whatever the handler is. *)
Theorem admin_gate (config : Config) (execute : Ctx -> M unit) (ctx : Ctx)
    (user : User) (s : Store) :
  ctx_from ctx = Some user →
  let uid := user_id user in
  let gate := IsAdmin.isAdmin config ctx s in
  (EvSetIsOwner ∈ events_of gate ↔ Router.owner config uid) ∧
  (EvSetIsAdmin ∈ events_of gate ↔ Router.admin config uid) ∧
  (Router.admin config uid →
     ∃ flags,
       gate = (Ok tt, s, flags ++ [EvNext]) ∧ (EvNext ∉ flags) ∧
       Router.admin_command config execute ctx s =
         (let '(r, s', evs) := execute ctx s in (r, s', (flags ++ [EvNext]) ++ evs))) ∧
  (¬ Router.admin config uid →
     ∃ rest,
       events_of gate =
         [EvLog (unauthorized_access uid
                   (Js.or_str (user_username user) "Unknown")
                   (Js.or_str (ctx_message_text ctx) "Unknown"));
          EvReply AdminAccessDenied] ++ rest ∧
       (EvNext ∉ events_of gate) ∧
       Router.admin_command config execute ctx s = gate).
Proof.
  intros Hfrom uid gate. subst gate.
  destruct (decide (uid = OWNER_ID config)) as [Hown|Hown].
  - (* the owner *)
    rewrite (isAdmin_owner config ctx user s Hfrom Hown).
    unfold events_of; cbn.
    assert (Hadm : Router.admin config uid) by (by left).
    split; [split; [done|intros _; apply list_elem_of_here]|].
    split; [split; [done|intros _; apply list_elem_of_further, list_elem_of_here]|].
    split; [|done].
    intros _. exists [EvSetIsOwner; EvSetIsAdmin]. split; [done|]. split.
    + intros Hin. not_in_list Hin.
    + unfold Router.admin_command.
      rewrite (isAdmin_owner config ctx user s Hfrom Hown). reflexivity.
  - destruct (in_admins config uid) eqn:Hin_admins.
    + (* an admin who is not the owner *)
      rewrite (isAdmin_admin config ctx user s Hfrom Hown Hin_admins).
      unfold events_of; cbn.
      assert (Hadm : Router.admin config uid).
      { apply admin_iff. by rewrite Hin_admins, orb_true_r. }
      split.
      { split; [|done]. intros Hin.
        not_in_list Hin. }
      split; [split; [done|intros _; apply list_elem_of_here]|].
      split; [|done].
      intros _. exists [EvSetIsAdmin]. split; [done|]. split.
      * intros Hin. not_in_list Hin.
      * unfold Router.admin_command.
        rewrite (isAdmin_admin config ctx user s Hfrom Hown Hin_admins).
        reflexivity.
    + (* neither: denied *)
      destruct (isAdmin_denied config ctx user s Hfrom Hown Hin_admins)
        as (r & rest & Hgate & Hnext & Hso & Hsa).
      assert (Hadm : ¬ Router.admin config uid).
      { rewrite admin_iff. unfold is_owner.
        rewrite bool_decide_eq_false_2 by done. by rewrite Hin_admins. }
      assert (Hnot : ∀ ev, ev ∉ rest → ev ≠ EvLog (unauthorized_access uid
                   (Js.or_str (user_username user) "Unknown")
                   (Js.or_str (ctx_message_text ctx) "Unknown")) →
                   ev ≠ EvReply AdminAccessDenied →
                   ev ∉ events_of (IsAdmin.isAdmin config ctx s)).
      { intros ev Hrest H1 H2. rewrite Hgate. unfold events_of; cbn.
        intros Hin. repeat (apply elem_of_cons in Hin as [?|Hin]; [done|]).
        done. }
      split; [split; [intros Hin; exfalso; by apply (Hnot EvSetIsOwner)|done]|].
      split; [split; [intros Hin; exfalso; by apply (Hnot EvSetIsAdmin)|done]|].
      split; [done|].
      intros _. exists rest. split; [by rewrite Hgate|].
      split; [by apply Hnot|].
      unfold Router.admin_command. rewrite Hgate.
      unfold Router.called_next. rewrite bool_decide_eq_false_2; [done|].
      intros Hin. cbn in Hin.
      repeat (apply elem_of_cons in Hin as [?|Hin]; [done|]). done.
Qed.

Lemma admin_gate_witness :
  let config := Samples.config_with 5 in
  let ctx := Samples.update 9 "/broadcast hi" in
  let gate := IsAdmin.isAdmin config ctx Samples.fresh in
  (EvSetIsOwner ∈ events_of gate ↔ Router.owner config 9) ∧
  (EvSetIsAdmin ∈ events_of gate ↔ Router.admin config 9) ∧
  (Router.admin config 9 →
     ∃ flags,
       gate = (Ok tt, Samples.fresh, flags ++ [EvNext]) ∧ (EvNext ∉ flags) ∧
       Router.admin_command config (Shutdown.execute config) ctx Samples.fresh =
         (let '(r, s', evs) := Shutdown.execute config ctx Samples.fresh in
          (r, s', (flags ++ [EvNext]) ++ evs))) ∧
  (¬ Router.admin config 9 →
     ∃ rest,
       events_of gate =
         [EvLog (unauthorized_access 9 "Unknown" "/broadcast hi");
          EvReply AdminAccessDenied] ++ rest ∧
       (EvNext ∉ events_of gate) ∧
       Router.admin_command config (Shutdown.execute config) ctx Samples.fresh
       = gate).
Proof.
  intros config ctx.
  apply (admin_gate config (Shutdown.execute config) ctx (Samples.person 9)
           Samples.fresh).
  reflexivity.
Defined.

(** The three kinds of callers of the sample configuration. *)
Example admin_gate_samples :
  let config := Samples.config_with 5 in
  events_of (IsAdmin.isAdmin config (Samples.update 1 "/shutdown") Samples.fresh)
  = [EvSetIsOwner; EvSetIsAdmin; EvNext] ∧
  events_of (IsAdmin.isAdmin config (Samples.update 2 "/shutdown") Samples.fresh)
  = [EvSetIsAdmin; EvNext] ∧
  events_of (IsAdmin.isAdmin config (Samples.update 9 "/shutdown") Samples.fresh)
  = [EvLog (unauthorized_access 9 "Unknown" "/shutdown");
     EvReply AdminAccessDenied].
Proof. vm_compute. repeat split. Qed.

(** What [/shutdown] does for a caller who is not the owner: it answers
    with the fixed denial text; the process is not ended; and no
    [unauthorized_access] record is handed to the logger, neither when the
    denial is delivered nor when it is not. *)
Lemma shutdown_denied config ctx user s :
  ctx_from ctx = Some user → user_id user ≠ OWNER_ID config →
  let out := Shutdown.execute config ctx s in
  (∃ rest, events_of out = EvReply OwnerAccessDenied :: rest) ∧
  (∀ code, result_of out ≠ Exited code) ∧
  Forall (λ ev, ¬ Router.is_exit ev ∧ ¬ Router.is_unauthorized_log ev)
    (events_of out).
Proof.
  intros Hfrom Hid.
  unfold Shutdown.execute, try_catch, Shutdown.execute_try,
    Shutdown.execute_catch, get_from.
  rewrite Hfrom; cbn. rewrite bool_decide_eq_true_2 by done.
  unfold reply, await_call; cbn.
  destruct (ctx_reply ctx OwnerAccessDenied) as [error|]; cbn.
  - destruct (ctx_reply ctx (ShutdownError _ _)) as [error'|]; cbn;
      (split; [by eexists|]); (split; [done|]);
      repeat constructor; cbn; tauto.
  - split; [by eexists|]. split; [done|].
    repeat constructor; cbn; tauto.
Qed.

(** The same behind the admin gate, for every admin who is not the
    owner: the gate passes the request on, the command denies it, and
    nothing on the way is an [unauthorized_access] record. *)
Lemma gated_shutdown_denied config ctx user s :
  ctx_from ctx = Some user → user_id user ≠ OWNER_ID config →
  in_admins config (user_id user) = true →
  let out := Router.admin_command config (Shutdown.execute config) ctx s in
  (∃ rest, events_of out = [EvSetIsAdmin; EvNext; EvReply OwnerAccessDenied] ++ rest) ∧
  (∀ code, result_of out ≠ Exited code) ∧
  Forall (λ ev, ¬ Router.is_exit ev ∧ ¬ Router.is_unauthorized_log ev)
    (events_of out).
Proof.
  intros Hfrom Hid Hadm.
  destruct (shutdown_denied config ctx user s Hfrom Hid)
    as ((rest & Hevs) & Hres & Hall).
  unfold Router.admin_command.
  rewrite (isAdmin_admin config ctx user s Hfrom Hid Hadm).
  unfold Router.called_next.
  rewrite bool_decide_eq_true_2
    by apply list_elem_of_further, list_elem_of_here.
  destruct (Shutdown.execute config ctx s) as [[r s'] evs] eqn:Hout.
  unfold events_of, result_of in *; cbn [fst snd] in *.
  split; [exists rest; by rewrite Hevs|]. split; [exact Hres|].
  apply Forall_app. split; [|exact Hall].
  repeat constructor; cbn; tauto.
Qed.

(** C9, evaluated on the code.  User 2 is an admin of the sample
    configuration and not its owner.  Sending [/shutdown], this user passes
    the admin gate and gets the fixed denial of the command; the process
    goes on; but the calls made are these three only, and none of them is
    a [logger.log]: the denial leaves no [unauthorized_access] record. *)
Theorem shutdown_denial_not_logged :
  Router.admin_command (Samples.config_with 5)
    (Shutdown.execute (Samples.config_with 5))
    (Samples.update 2 "/shutdown") Samples.fresh
  = (Ok tt, Samples.fresh,
     [EvSetIsAdmin; EvNext; EvReply OwnerAccessDenied]).
Proof. vm_compute. reflexivity. Qed.

(** ** Broadcast: batches *)

Module BatchFacts.
Import Broadcast.

Lemma slice_take_drop {A} (l : list A) i n :
  slice l i (i + n) = take n (drop i l).
Proof. unfold slice. f_equal. lia. Qed.

(** With enough fuel the loop cuts the rest of the list into its
    consecutive slices. *)
Lemma batches_from_concat {A} (users : list A) n : ∀ fuel i,
  (0 < n)%nat → (length users - i ≤ fuel)%nat →
  concat (batches_from fuel users n i) = drop i users.
Proof.
  induction fuel as [|fuel IH]; intros i Hn Hfuel; cbn.
  - symmetry. apply drop_ge. lia.
  - case_bool_decide as Hi; cbn.
    + rewrite IH by lia. rewrite slice_take_drop.
      rewrite <- (take_drop n (drop i users)) at 2.
      by rewrite drop_drop.
    + symmetry. apply drop_ge. lia.
Qed.

Lemma batches_from_lookup {A} (users : list A) n : ∀ fuel i k b,
  (0 < n)%nat → (length users - i ≤ fuel)%nat →
  batches_from fuel users n i !! k = Some b →
  b = take n (drop (i + k * n) users) ∧ (i + k * n < length users)%nat.
Proof.
  induction fuel as [|fuel IH]; intros i k b Hn Hfuel; cbn; [done|].
  case_bool_decide as Hi; [|done].
  destruct k as [|k]; cbn.
  - intros [= <-]. rewrite slice_take_drop. by rewrite Nat.add_0_r.
  - intros Hk. apply IH in Hk as [-> Hlt]; [|lia..].
    split; [do 2 f_equal; lia | lia].
Qed.

(** The number of batches: [ceil(users.length / batchSize)]. *)
Lemma batches_from_length {A} (users : list A) n : ∀ fuel i,
  (0 < n)%nat → (length users - i ≤ fuel)%nat →
  (length (batches_from fuel users n i) * n < length users - i + n)%nat ∧
  (length users - i ≤ length (batches_from fuel users n i) * n)%nat.
Proof.
  induction fuel as [|fuel IH]; intros i Hn Hfuel; cbn; [lia|].
  case_bool_decide as Hi; cbn; [|lia].
  destruct (IH (i + n)%nat Hn ltac:(lia)) as [IH1 IH2].
  set (L := length (batches_from fuel users n (i + n))) in *.
  destruct L as [|L]; cbn in *; lia.
Qed.

End BatchFacts.

(** ** Broadcast: the order in which pending sends settle *)

Module OrderFacts.
Import Broadcast.

Lemma insert_by_Permutation {A} (rank : A → nat) x l :
  insert_by rank x l ≡ₚ x :: l.
Proof.
  induction l as [|y l IH]; cbn; [done|].
  case_bool_decide; [done|]. rewrite IH. apply Permutation_swap.
Qed.

Lemma order_by_cons {A} (rank : A → nat) x l :
  order_by rank (x :: l) = insert_by rank x (order_by rank l).
Proof. done. Qed.

Lemma order_by_Permutation {A} (rank : A → nat) l : order_by rank l ≡ₚ l.
Proof.
  induction l as [|x l IH]; [done|].
  rewrite order_by_cons, insert_by_Permutation. by rewrite IH.
Qed.

(** Elements of one rank keep their order. *)
Lemma order_by_same_rank {A} (rank : A → nat) l :
  (∀ x y, rank x = rank y) → order_by rank l = l.
Proof.
  intros Hrank. induction l as [|x l IH]; [done|].
  rewrite order_by_cons, IH. destruct l as [|y l]; cbn; [done|].
  rewrite bool_decide_eq_true_2; [done|]. by rewrite (Hrank x y).
Qed.

Lemma insert_by_fmap {A B} (f : A → B) (rank : B → nat) x l :
  f <$> insert_by (rank ∘ f) x l = insert_by rank (f x) (f <$> l).
Proof.
  induction l as [|y l IH]; cbn; [done|].
  case_bool_decide; cbn; [done|]. by rewrite IH.
Qed.

Lemma order_by_fmap {A B} (f : A → B) (rank : B → nat) l :
  f <$> order_by (rank ∘ f) l = order_by rank (f <$> l).
Proof.
  induction l as [|x l IH]; [done|].
  rewrite fmap_cons, !order_by_cons, insert_by_fmap. by rewrite IH.
Qed.

End OrderFacts.

(** ** Broadcast: deliveries *)

Module DeliveryFacts.
Import Broadcast BroadcastSpec.


Lemma tally_after_nil bot msg t : tally_after bot msg [] t = t.
Proof.
  unfold tally_after; cbn. destruct t; cbn. f_equal; lia.
Qed.

Lemma tally_after_cons bot msg u users t :
  tally_after bot msg (u :: users) t
  = tally_after bot msg users (count (delivered bot msg u) t).
Proof.
  unfold tally_after, count. rewrite !filter_cons.
  destruct (delivered bot msg u); repeat case_decide; try done;
    cbn; f_equal; lia.
Qed.

Lemma tally_after_app bot msg us1 us2 t :
  tally_after bot msg (us1 ++ us2) t
  = tally_after bot msg us2 (tally_after bot msg us1 t).
Proof.
  revert t. induction us1 as [|u us1 IH]; intros t; cbn.
  - by rewrite tally_after_nil.
  - by rewrite !tally_after_cons, IH.
Qed.

(** Every recipient is counted once, as delivered or as failed. *)
Lemma tally_after_total bot msg users t :
  successCount (tally_after bot msg users t)
  + failureCount (tally_after bot msg users t)
  = successCount t + failureCount t + Z.of_nat (length users).
Proof.
  revert t. induction users as [|u users IH]; intros t.
  - rewrite tally_after_nil. cbn. lia.
  - rewrite tally_after_cons, IH. unfold count; cbn.
    destruct (delivered bot msg u); cbn; lia.
Qed.

(** The counters do not depend on the order in which the callbacks
    resume. *)
Lemma tally_after_Permutation bot msg users users' t :
  users ≡ₚ users' → tally_after bot msg users t = tally_after bot msg users' t.
Proof.
  intros Hperm. unfold tally_after. by rewrite Hperm.
Qed.

(** Without a client nobody is served. *)
Lemma tally_after_client msg users t :
  tally_after TelegramClient msg users t
  = {| successCount := successCount t;
       failureCount := failureCount t + Z.of_nat (length users);
       processedCount := processedCount t + Z.of_nat (length users) |}.
Proof.
  revert t. induction users as [|u users IH]; intros t.
  - rewrite tally_after_nil. destruct t; cbn. f_equal; lia.
  - rewrite tally_after_cons, IH. unfold count, delivered, outcome; cbn.
    f_equal; lia.
Qed.



(** [batch.map] without a client: every call has returned when its
    callback suspends, and has left its record. *)
Lemma start_batch_client msg batch s :
  start_batch TelegramClient msg batch s
  = (Ok ((λ _, Returned false) <$> batch), s,
     concat (failure_events TelegramClient msg <$> batch)).
Proof.
  induction batch as [|u batch IH]; [done|].
  cbn [start_batch]. unfold bind at 1.
  unfold sendMessageToUser_call at 1. cbn [bot_telegram].
  unfold sendMessageToUser_catch, logger_log, emit. cbn [bind ret].
  unfold bind at 1. rewrite IH. cbn. by rewrite app_nil_r.
Qed.

(** [batch.map] with a client: every recipient gets its send, and every
    callback waits for it. *)
Lemma start_batch_telegraf telegram msg batch s :
  start_batch (Telegraf telegram) msg batch s
  = (Ok ((λ u, Pending (user_id u) (sendMessage telegram (user_id u) msg))
           <$> batch), s,
     (λ u, EvSend (user_id u) msg) <$> batch).
Proof.
  induction batch as [|u batch IH]; [done|].
  cbn [start_batch]. unfold bind at 1.
  unfold sendMessageToUser_call at 1. cbn [bot_telegram].
  unfold emit. cbn [bind ret].
  unfold bind at 1. rewrite IH. cbn. by rewrite app_nil_r.
Qed.

Lemma finish_batch_client msg batch : ∀ t s,
  finish_batch ((λ _, Returned false) <$> batch) t s
  = (Ok (tally_after TelegramClient msg batch t), s, []).
Proof.
  induction batch as [|u batch IH]; intros t s; cbn.
  - by rewrite tally_after_nil.
  - unfold bind, ret. rewrite IH. by rewrite tally_after_cons.
Qed.

Lemma finish_batch_telegraf telegram msg users : ∀ t s,
  finish_batch ((λ u, Pending (user_id u) (sendMessage telegram (user_id u) msg))
                  <$> users) t s
  = (Ok (tally_after (Telegraf telegram) msg users t), s,
     concat (failure_events (Telegraf telegram) msg <$> users)).
Proof.
  induction users as [|u users IH]; intros t s; cbn [fmap list_fmap finish_batch].
  - by rewrite tally_after_nil.
  - rewrite tally_after_cons. unfold delivered, failure_events, outcome.
    cbn [bot_telegram concat].
    unfold bind at 1. unfold sendMessageToUser_resume, sendMessageToUser_catch.
    destruct (sendMessage telegram (user_id u) msg) as [error|]; cbn.
    + unfold logger_log, emit; cbn. by rewrite IH.
    + by rewrite IH.
Qed.

(** A batch never throws: the counters move by one per recipient, and the
    calls made are those of the batch. *)
Lemma send_batch_spec bot msg batch t s :
  send_batch bot msg batch t s
  = (Ok (tally_after bot msg batch t), s, batch_events bot msg batch).
Proof.
  unfold send_batch, batch_events. destruct bot as [telegram|]; cbn [bot_telegram].
  - unfold bind at 1. rewrite start_batch_telegraf.
    change (resumes_at (Telegraf telegram))
      with ((λ call, match call with
                     | Pending userId _ => latency telegram userId
                     | Returned _ => 0%nat
                     end)).
    rewrite <- (OrderFacts.order_by_fmap
                  (λ u, Pending (user_id u) (sendMessage telegram (user_id u) msg))).
    rewrite finish_batch_telegraf.
    rewrite (tally_after_Permutation _ _ _ batch)
      by apply OrderFacts.order_by_Permutation.
    reflexivity.
  - unfold bind at 1. rewrite start_batch_client.
    rewrite OrderFacts.order_by_same_rank
      by (intros [] []; reflexivity).
    rewrite (finish_batch_client msg). by rewrite app_nil_r.
Qed.

(** All batches are processed, whatever the sends and the progress
    reports do. *)
Lemma run_batches_spec bot ctx msg total start batches : ∀ t s,
  ∃ s' evs,
    run_batches bot ctx msg total start batches t s
    = (Ok (tally_after bot msg (concat batches) t), s', evs) ∧
    in_batch_order bot msg batches evs ∧
    userRequests s' = userRequests s.
Proof.
  induction batches as [|batch rest IH]; intros t s; cbn [run_batches].
  - exists s, []. cbn. by rewrite tally_after_nil.
  - set (t1 := tally_after bot msg batch t).
    set (progress :=
           BroadcastProgress (successCount t1) (failureCount t1)
             (Js.percent (processedCount t1) total)
             (processedCount t1) total
             (Js.round_div (wall s - start) 1000)).
    set (pause_events := if bool_decide (rest ≠ []) then [EvSleep 1000] else []).
    assert (Hedit : try_catch (editMessageText ctx progress)
                      (λ _ : Error, ret ()) s
                    = (Ok tt, s, [EvEdit progress])).
    { unfold try_catch, editMessageText, await_call; cbn.
      by destruct (ctx_editMessageText ctx progress). }
    assert (Hpause : ∃ s1,
               (if bool_decide (rest ≠ []) then sleep 1000 else ret ()) s
               = (Ok tt, s1, pause_events)
               ∧ userRequests s1 = userRequests s).
    { subst pause_events. case_bool_decide; eexists; split; reflexivity. }
    destruct Hpause as (s1 & Hpause & Hs1).
    destruct (IH t1 s1) as (s' & evs' & Hrest & Horder & Hs').
    exists s', (batch_events bot msg batch
                ++ EvEdit progress :: pause_events ++ evs').
    split; [|split].
    + rewrite (bind_Ok _ _ _ _ _ _ (send_batch_spec bot msg batch t s)).
      fold t1.
      rewrite (bind_Ok Date_now _ s (wall s) s []) by reflexivity.
      fold progress.
      rewrite (bind_Ok _ _ _ _ _ _ Hedit).
      rewrite (bind_Ok _ _ _ _ _ _ Hpause).
      rewrite Hrest. cbn [concat app].
      by rewrite tally_after_app.
    + exists progress, evs'. done.
    + congruence.
Qed.

Lemma sends_app evs1 evs2 : sends (evs1 ++ evs2) = sends evs1 ++ sends evs2.
Proof. apply omap_app. Qed.


Lemma summaries_app evs1 evs2 :
  summaries (evs1 ++ evs2) = summaries evs1 ++ summaries evs2.
Proof. apply omap_app. Qed.

Lemma sends_failure_events bot msg users :
  sends (concat (failure_events bot msg <$> users)) = [].
Proof.
  induction users as [|u users IH]; [done|].
  cbn [fmap list_fmap concat]. rewrite sends_app, IH.
  unfold failure_events. by destruct (outcome bot msg u).
Qed.


Lemma summaries_failure_events bot msg users :
  summaries (concat (failure_events bot msg <$> users)) = [].
Proof.
  induction users as [|u users IH]; [done|].
  cbn [fmap list_fmap concat]. rewrite summaries_app, IH.
  unfold failure_events. by destruct (outcome bot msg u).
Qed.

Lemma sends_send_events msg (users : list User) :
  sends ((λ u, EvSend (user_id u) msg) <$> users) = user_id <$> users.
Proof. induction users as [|u users IH]; [done|]. cbn. by f_equal. Qed.


Lemma summaries_send_events msg (users : list User) :
  summaries ((λ u, EvSend (user_id u) msg) <$> users) = [].
Proof. induction users as [|u users IH]; [done|]. done. Qed.

(** The sends of a batch: one to each recipient, in the order of the
    batch, when the bot has a client; none when it has not. *)
Lemma sends_batch_events bot msg batch :
  sends (batch_events bot msg batch)
  = match bot_telegram bot with
    | Some _ => user_id <$> batch
    | None => []
    end.
Proof.
  unfold batch_events. destruct (bot_telegram bot).
  - by rewrite sends_app, sends_send_events, sends_failure_events, app_nil_r.
  - apply sends_failure_events.
Qed.


Lemma summaries_batch_events bot msg batch :
  summaries (batch_events bot msg batch) = [].
Proof.
  unfold batch_events. destruct (bot_telegram bot).
  - by rewrite summaries_app, summaries_send_events, summaries_failure_events.
  - apply summaries_failure_events.
Qed.

(** A batch makes sends and failure records, nothing else. *)
Lemma batch_events_inv bot msg batch ev :
  ev ∈ batch_events bot msg batch →
  (∃ userId, ev = EvSend userId msg ∧ is_Some (bot_telegram bot)) ∨
  (∃ userId reason, ev = EvLog (broadcast_delivery_failed userId reason)).
Proof.
  assert (Hfail : ∀ users,
            ev ∈ concat (failure_events bot msg <$> users) →
            ∃ userId reason, ev = EvLog (broadcast_delivery_failed userId reason)).
  { intros users Hin. apply elem_of_concat in Hin as (l & Hin & Hl).
    apply list_elem_of_fmap in Hl as (u & -> & _).
    unfold failure_events in Hin. destruct (outcome bot msg u) as [error|].
    - apply list_elem_of_singleton in Hin. eauto.
    - by apply elem_of_nil in Hin. }
  unfold batch_events. destruct (bot_telegram bot) as [telegram|].
  - rewrite elem_of_app. intros [Hin|Hin]; [left|right; eauto].
    apply list_elem_of_fmap in Hin as (u & -> & _). eauto.
  - intros Hin. right. eauto.
Qed.

Lemma in_batch_order_sends bot msg batches : ∀ evs,
  in_batch_order bot msg batches evs →
  sends evs = match bot_telegram bot with
              | Some _ => user_id <$> concat batches
              | None => []
              end.
Proof.
  induction batches as [|batch rest IH]; intros evs; cbn.
  - intros ->. by destruct (bot_telegram bot).
  - intros (progress & evs' & -> & _ & Hrest).
    rewrite sends_app, sends_batch_events.
    cbn. rewrite sends_app, (IH _ Hrest).
    destruct (bot_telegram bot); case_bool_decide; cbn;
      by rewrite ?fmap_app.
Qed.


Lemma in_batch_order_summaries bot msg batches : ∀ evs,
  in_batch_order bot msg batches evs → summaries evs = [].
Proof.
  induction batches as [|batch rest IH]; intros evs; cbn.
  - by intros ->.
  - intros (progress & evs' & -> & _ & Hrest).
    rewrite summaries_app, summaries_batch_events.
    cbn. rewrite summaries_app, (IH _ Hrest). by case_bool_decide.
Qed.

(** What the batches do: sends (with a client only), failure records,
    progress reports and pauses. *)
Lemma in_batch_order_inv bot msg batches : ∀ evs ev,
  in_batch_order bot msg batches evs → ev ∈ evs →
  (∃ userId, ev = EvSend userId msg ∧ is_Some (bot_telegram bot)) ∨
  (∃ userId reason, ev = EvLog (broadcast_delivery_failed userId reason)) ∨
  (∃ progress, ev = EvEdit progress ∧ is_progress progress) ∨
  ev = EvSleep 1000.
Proof.
  induction batches as [|batch rest IH]; intros evs ev; cbn.
  - intros -> Hin. by apply elem_of_nil in Hin.
  - intros (progress & evs' & -> & Hprog & Hrest).
    rewrite elem_of_app, elem_of_cons, elem_of_app.
    intros [Hin|[->|[Hin|Hin]]].
    + apply batch_events_inv in Hin as [?|?]; eauto.
    + right. right. left. eauto.
    + case_bool_decide.
      * apply list_elem_of_singleton in Hin. eauto.
      * by apply elem_of_nil in Hin.
    + by apply (IH evs').
Qed.

(** The batches make progress reports only, never the final one. *)
Lemma in_batch_order_no_report bot msg batches evs :
  in_batch_order bot msg batches evs →
  ∀ d f r tm tx, EvEdit (BroadcastCompleted d f r tm tx) ∉ evs.
Proof.
  intros Horder d f r tm tx Hin.
  destruct (in_batch_order_inv _ _ _ _ _ Horder Hin)
    as [(? & ? & _)|[(? & ? & ?)|[(progress & Heq & Hprog)|?]]]; try done.
  injection Heq as <-. done.
Qed.

End DeliveryFacts.

(** ** Broadcast: the command *)

Module ExecuteFacts.
Import Broadcast BroadcastSpec DeliveryFacts.
Section WithConfig.
Variable config : Config.

(** The [catch] block: an error record and the generic error reply. *)
Lemma execute_catch_spec ctx error s :
  execute_catch config ctx error s
  = (match ctx_reply ctx (Localized
                            (userLang_of config (ctx_from ctx ≫= user_language_code))
                            "errors.general" []) with
     | None => Ok tt
     | Some e => Throw e
     end, s,
     [EvLog (admin_command_error "/broadcast" (user_id <$> ctx_from ctx)
               (ctx_from ctx ≫= user_username) (message error));
      EvReply (Localized
                 (userLang_of config (ctx_from ctx ≫= user_language_code))
                 "errors.general" [])]).
Proof.
  unfold execute_catch, reply, await_call, logger_log, emit. cbn [bind ret].
  by destruct (ctx_reply ctx _).
Qed.

(** The whole run of a command that carries a message and has
    recipients, once the two announcements are out: all batches, then the
    final report; the audit record follows when the final report is
    delivered, the [catch] block runs when it is not. *)
Lemma execute_job allUsers ctx user messageText broadcastMessage s :
  ctx_from ctx = Some user →
  ctx_message_text ctx = Some messageText →
  carries messageText broadcastMessage →
  allUsers ≠ [] →
  announced ctx broadcastMessage (length allUsers) →
  let bot := ctx_telegram ctx in
  let msg := BroadcastMessage broadcastMessage in
  let total := Z.of_nat (length allUsers) in
  let userLang := userLang_of config (user_language_code user) in
  let t := tally_after bot msg allUsers zero in
  ∃ s' mid completionTime,
    run_batches bot ctx msg total (wall s) (make_batches allUsers batchSize) zero s
      = (Ok t, s', mid) ∧
    in_batch_order bot msg (make_batches allUsers batchSize) mid ∧
    userRequests s' = userRequests s ∧
    execute config allUsers ctx s =
      match ctx_editMessageText ctx (final_report userLang total t completionTime) with
      | None =>
          (Ok tt, s',
           job_head user broadcastMessage total ++ mid ++
           [EvEdit (final_report userLang total t completionTime);
            EvLog (summary_record user broadcastMessage total t completionTime)])
      | Some error =>
          let '(r, s2, e2) := execute_catch config ctx error s' in
          (r, s2,
           (job_head user broadcastMessage total ++ mid ++
            [EvEdit (final_report userLang total t completionTime)]) ++ e2)
      end.
Proof.
  intros Hfrom Htext (Hparts & Hmsg & Hnonempty) Husers [Hconf Hstart]
    bot msg total userLang t.
  destruct (run_batches_spec bot ctx msg total (wall s)
              (make_batches allUsers batchSize) zero s)
    as (s' & mid & Hrun & Horder & Hreq).
  assert (Hconcat : concat (make_batches allUsers batchSize) = allUsers).
  { unfold make_batches. rewrite BatchFacts.batches_from_concat; [done| |lia].
    unfold batchSize. lia. }
  rewrite Hconcat in Hrun. fold t in Hrun.
  exists s', mid, (Js.round_div (wall s' - wall s) 1000).
  split; [exact Hrun|]. split; [exact Horder|]. split; [exact Hreq|].
  set (final := final_report userLang total t _).
  assert (Htry :
    execute_try config allUsers ctx s =
      match ctx_editMessageText ctx final with
      | None =>
          (Ok tt, s',
           job_head user broadcastMessage total ++ mid ++
           [EvEdit final;
            EvLog (summary_record user broadcastMessage total t
                     (Js.round_div (wall s' - wall s) 1000))])
      | Some error =>
          (Throw error, s',
           job_head user broadcastMessage total ++ mid ++ [EvEdit final])
      end).
  { unfold execute_try, get_from. rewrite Hfrom, Htext. cbn [bind ret].
    rewrite bool_decide_eq_false_2 by lia.
    rewrite <- Hmsg.
    rewrite bool_decide_eq_false_2 by done.
    rewrite (bool_decide_eq_false_2 (length allUsers = 0%nat))
      by (by destruct allUsers).
    fold userLang.
    rewrite (bind_Ok (logger_log _) _ s tt s _ eq_refl).
    unfold dispatch. fold total msg bot. fold total in Hconf.
    unfold reply, await_call. rewrite Hconf, Hstart.
    cbn [bind emit ret Date_now app].
    change {| successCount := 0; failureCount := 0; processedCount := 0 |}
      with zero.
    rewrite (bind_Ok _ _ _ _ _ _ Hrun).
    rewrite (bind_Ok Date_now _ s' (wall s') s' [] eq_refl).
    change (BroadcastCompleted _ _ _ _ _) with final.
    change (broadcast_completed _ _ _ _ _ _ _)
      with (summary_record user broadcastMessage total t
              (Js.round_div (wall s' - wall s) 1000)).
    unfold editMessageText, await_call, job_head, logger_log, emit.
    destruct (ctx_editMessageText ctx final) as [error|]; cbn.
    - done.
    - done. }
  unfold execute.
  destruct (ctx_editMessageText ctx final) as [error|].
  - by rewrite (try_catch_Throw _ _ _ _ _ _ Htry).
  - by rewrite (try_catch_Ok _ _ _ _ _ _ Htry).
Qed.

End WithConfig.
End ExecuteFacts.

(** ** Broadcast: what the command never does *)

Module TraceFacts.

Lemma Forall_bind {A B} (P : Event → Prop) (m : M A) (k : A → M B) s :
  Forall P (events_of (m s)) →
  (∀ a, result_of (m s) = Ok a →
        Forall P (events_of (k a (store_of (m s))))) →
  Forall P (events_of (bind m k s)).
Proof.
  unfold bind, events_of, result_of, store_of. intros Hm Hk.
  destruct (m s) as [[[a|e|c] s1] e1]; cbn [fst snd] in *; try done.
  specialize (Hk a eq_refl).
  destruct (k a s1) as [[r s2] e2]; cbn [fst snd] in *.
  by apply Forall_app.
Qed.

Lemma Forall_try_catch {A} (P : Event → Prop) (body : M A)
    (handler : Error → M A) s :
  Forall P (events_of (body s)) →
  (∀ e, result_of (body s) = Throw e →
        Forall P (events_of (handler e (store_of (body s))))) →
  Forall P (events_of (try_catch body handler s)).
Proof.
  unfold try_catch, events_of, result_of, store_of. intros Hm Hk.
  destruct (body s) as [[[a|e|c] s1] e1]; cbn [fst snd] in *; try done.
  specialize (Hk e eq_refl).
  destruct (handler e s1) as [[r s2] e2]; cbn [fst snd] in *.
  by apply Forall_app.
Qed.

Lemma Forall_await_call (P : Event → Prop) ev outcome s :
  P ev → Forall P (events_of (await_call ev outcome s)).
Proof.
  intros Hev. unfold await_call, emit, events_of.
  destruct outcome; cbn; by apply Forall_singleton.
Qed.

End TraceFacts.

Module UnsentFacts.
Import Broadcast BroadcastSpec.
Section WithConfig.
Variable config : Config.

Lemma reply_unsent n ctx t s :
  Forall (nothing_sent n) (events_of (reply ctx t s)).
Proof. by apply TraceFacts.Forall_await_call. Qed.

Lemma logger_log_unsent n r s :
  Forall (nothing_sent n) (events_of (logger_log r s)).
Proof. by apply Forall_singleton. Qed.

(** The batches of the command: [bot] is [ctx.telegram], nothing is sent
    and nobody is served. *)
Lemma run_batches_unsent n ctx msg total start batches t s :
  Forall (nothing_sent n)
    (events_of (run_batches (ctx_telegram ctx) ctx msg total start batches t s)).
Proof.
  destruct (DeliveryFacts.run_batches_spec (ctx_telegram ctx) ctx msg total
              start batches t s) as (s' & evs & Hrun & Horder & _).
  rewrite Hrun. unfold events_of; cbn [snd]. apply Forall_forall.
  intros ev Hin.
  destruct (DeliveryFacts.in_batch_order_inv _ _ _ _ _ Horder Hin)
    as [(u & _ & Hsome)|[(u & reason & Hev)|[(progress & Hev & Hprog)|Hev]]];
    try (by rewrite Hev).
  - by destruct Hsome.
  - rewrite Hev. by destruct progress.
Qed.

Lemma dispatch_unsent ctx user userLang broadcastMessage users s :
  Forall (nothing_sent (length users))
    (events_of (dispatch ctx user userLang broadcastMessage users s)).
Proof.
  unfold dispatch.
  apply TraceFacts.Forall_bind; [apply reply_unsent|intros _ _].
  apply TraceFacts.Forall_bind; [apply reply_unsent|intros _ _].
  apply TraceFacts.Forall_bind; [apply Forall_nil_2|intros startTime _].
  apply TraceFacts.Forall_bind; [apply run_batches_unsent|intros t Hres].
  apply TraceFacts.Forall_bind; [apply Forall_nil_2|intros now _].
  assert (Ht : successCount t = 0 ∧
               failureCount t = Z.of_nat (length users)).
  { match type of Hres with
    | result_of (run_batches ?bot ?ctx ?msg ?total ?start ?batches ?t0 ?s0) = _ =>
        destruct (DeliveryFacts.run_batches_spec bot ctx msg total start
                    batches t0 s0) as (s' & evs & Hrun & _ & _)
    end.
    rewrite Hrun in Hres. injection Hres as <-.
    unfold ctx_telegram. rewrite DeliveryFacts.tally_after_client. cbn.
    unfold make_batches.
    rewrite BatchFacts.batches_from_concat; [|unfold batchSize; lia|lia].
    rewrite drop_0. cbn. lia. }
  apply TraceFacts.Forall_bind; [|intros _ _; apply logger_log_unsent].
  apply TraceFacts.Forall_await_call. exact Ht.
Qed.

Lemma execute_try_unsent allUsers ctx s :
  Forall (nothing_sent (length allUsers))
    (events_of (execute_try config allUsers ctx s)).
Proof.
  unfold execute_try.
  apply TraceFacts.Forall_bind.
  { unfold get_from. destruct (ctx_from ctx); apply Forall_nil_2. }
  intros user _.
  destruct (ctx_message_text ctx) as [messageText|]; [|apply Forall_nil_2].
  case_bool_decide.
  { apply TraceFacts.Forall_bind; [apply reply_unsent|intros; apply Forall_nil_2]. }
  case_bool_decide.
  { apply TraceFacts.Forall_bind; [apply reply_unsent|intros; apply Forall_nil_2]. }
  apply TraceFacts.Forall_bind; [apply logger_log_unsent|intros _ _].
  case_bool_decide.
  { apply TraceFacts.Forall_bind; [apply reply_unsent|intros; apply Forall_nil_2]. }
  apply dispatch_unsent.
Qed.

Lemma execute_unsent allUsers ctx s :
  Forall (nothing_sent (length allUsers))
    (events_of (execute config allUsers ctx s)).
Proof.
  unfold execute. apply TraceFacts.Forall_try_catch.
  - apply execute_try_unsent.
  - intros e _. unfold execute_catch.
    apply TraceFacts.Forall_bind; [apply logger_log_unsent|intros _ _].
    apply TraceFacts.Forall_bind; [apply reply_unsent|intros; apply Forall_nil_2].
Qed.

Lemma unsent_sends n evs : Forall (nothing_sent n) evs → sends evs = [].
Proof.
  induction 1 as [|ev evs Hev _ IH]; [done|].
  cbn. destruct ev; try done.
Qed.

End WithConfig.
End UnsentFacts.
(** ** Broadcast: the claims *)


(** C1.  The command never calls the transport.  [execute] hands
    [ctx.telegram] to [sendMessageToUser] as [bot]; that function reads
    [bot.telegram.sendMessage], and a Telegram client has no property
    [telegram].  So, for every configuration, snapshot, update and store,
    the run of the command contains no send at all, and a final report, if
    one is made, shows no delivery and as many failures as there are
    recipients.  On the input of the specification (recipients 1, 2 and 3)
    each recipient is recorded as failed with the [TypeError], the report
    says 0 delivered and 3 failed.  With 31 recipients the batches are
    still those of the claim: 30 recipients, their report, the pause, then
    the last recipient and the last report. *)
Theorem broadcast_makes_no_send :
  (∀ (config : Config) (allUsers : list User) (ctx : Ctx) (s : Store),
     let evs := events_of (Broadcast.execute config allUsers ctx s) in
     BroadcastSpec.sends evs = [] ∧
     ∀ delivered failed rate time text,
       EvEdit (BroadcastCompleted delivered failed rate time text) ∈ evs →
       delivered = 0 ∧ failed = Z.of_nat (length allUsers)) ∧
  Broadcast.execute (Samples.config_with 5) (Samples.people 3)
    (Samples.broadcast_update "/broadcast hello" []) Samples.fresh
  = (Ok tt, Samples.fresh,
     [EvLog (admin_command "/broadcast" 2 "Unknown" (Some 5));
      EvReply (BroadcastConfirmation "hello" 3);
      EvReply StartingBroadcast;
      EvLog (broadcast_delivery_failed 1
               "Cannot read properties of undefined (reading 'sendMessage')");
      EvLog (broadcast_delivery_failed 2
               "Cannot read properties of undefined (reading 'sendMessage')");
      EvLog (broadcast_delivery_failed 3
               "Cannot read properties of undefined (reading 'sendMessage')");
      EvEdit (BroadcastProgress 0 3 100 3 3 0);
      EvEdit (BroadcastCompleted 0 3 0 0
                (Localized "en" "success.broadcast_sent" [("count"%string, PNum 0)]));
      EvLog (broadcast_completed 2 "Unknown" 3 0 3 0 "hello")]) ∧
  BroadcastMore.outline
    (events_of
       (Broadcast.execute (Samples.config_with 5) (Samples.people 31)
          (Samples.broadcast_update "/broadcast hello" []) Samples.fresh))
  = ((λ k, BroadcastMore.Failed (Z.of_nat k)
             "Cannot read properties of undefined (reading 'sendMessage')")
       <$> seq 1 30)
    ++ [BroadcastMore.Report 0 30 30;
        BroadcastMore.Pause 1000;
        BroadcastMore.Failed 31
          "Cannot read properties of undefined (reading 'sendMessage')";
        BroadcastMore.Report 0 31 31].
Proof.
  split; [|split].
  - intros config allUsers ctx s evs. subst evs.
    pose proof (UnsentFacts.execute_unsent config allUsers ctx s) as Hunsent.
    split; [by eapply UnsentFacts.unsent_sends|].
    intros delivered failed rate time text Hin.
    rewrite Forall_forall in Hunsent. exact (Hunsent _ Hin).
  - vm_compute. reflexivity.
  - vm_compute. reflexivity.
Qed.

(** The batches of the specification's example, run with a bot that has
    a client: recipients 1, 2, 3 in batches of two.  Batch [[1; 2]] is
    sent and reported, then comes the pause, then batch [[3]]. *)
Example broadcast_batches_of_two :
  let users := Samples.people 3 in
  let bot := Samples.telegraf [] (λ _, 0%nat) in
  let ctx := Samples.broadcast_update "/broadcast hello" [] in
  let msg := BroadcastMessage "hello" in
  Broadcast.make_batches users 2
  = [[Samples.person 1; Samples.person 2]; [Samples.person 3]] ∧
  Broadcast.run_batches bot ctx msg 3 0 (Broadcast.make_batches users 2)
    BroadcastSpec.zero Samples.fresh
  = (Ok {| Broadcast.successCount := 3; Broadcast.failureCount := 0;
           Broadcast.processedCount := 3 |},
     {| userRequests := ∅; wall := 1000 |},
     [EvSend 1 msg; EvSend 2 msg; EvEdit (BroadcastProgress 2 0 67 2 3 0);
      EvSleep 1000;
      EvSend 3 msg; EvEdit (BroadcastProgress 3 0 100 3 3 1)]).
Proof. vm_compute. split; reflexivity. Qed.

(** No recipients: the command answers that there are none. *)
Example broadcast_no_recipients :
  Broadcast.execute (Samples.config_with 5) []
    (Samples.broadcast_update "/broadcast hello" []) Samples.fresh
  = (Ok tt, Samples.fresh,
     [EvLog (admin_command "/broadcast" 2 "Unknown" (Some 5));
      EvReply NoUsersFound]).
Proof. vm_compute. reflexivity. Qed.

Module IsolationFacts.
Import Broadcast BroadcastSpec.






End IsolationFacts.



(** The example of the specification, for a bot that has a client: the
    delivery to recipient 2 fails, those to 1 and 3 go through.  The tally
    is 2 delivered and 1 failed, and the only failure record is that of
    recipient 2. *)
Example broadcast_one_failure :
  Broadcast.run_batches (Samples.telegraf [2] (λ _, 0%nat))
    (Samples.broadcast_update "/broadcast hello" []) (BroadcastMessage "hello")
    3 0 (Broadcast.make_batches (Samples.people 3) Broadcast.batchSize)
    BroadcastSpec.zero Samples.fresh
  = (Ok {| Broadcast.successCount := 2; Broadcast.failureCount := 1;
           Broadcast.processedCount := 3 |},
     Samples.fresh,
     [EvSend 1 (BroadcastMessage "hello");
      EvSend 2 (BroadcastMessage "hello");
      EvSend 3 (BroadcastMessage "hello");
      EvLog (broadcast_delivery_failed 2 "Forbidden: bot was blocked by the user");
      EvEdit (BroadcastProgress 2 1 100 3 3 0)]).
Proof. vm_compute. reflexivity. Qed.

(** Failures are recorded as the sends settle: here the send to
    recipient 3 is rejected before the send to recipient 1. *)
Example broadcast_failures_in_settling_order :
  BroadcastSpec.failure_records
    (events_of
       (Broadcast.run_batches
          (Samples.telegraf [1; 3] (λ userId, Z.to_nat (10 - userId)))
          (Samples.broadcast_update "/broadcast hello" [])
          (BroadcastMessage "hello")
          3 0 (Broadcast.make_batches (Samples.people 3) Broadcast.batchSize)
          BroadcastSpec.zero Samples.fresh))
  = [(3, "Forbidden: bot was blocked by the user"%string);
     (1, "Forbidden: bot was blocked by the user"%string)].
Proof. vm_compute. reflexivity. Qed.

(** What the code does keep of the summary.  In a broadcast that has
    started, no failure of a progress report is ever seen by the job: all
    batches are worked through, and when the final report is delivered
    exactly one [broadcast_completed] record is logged, with the number of
    recipients, the two counts, the elapsed time and the message. *)
Lemma broadcast_summary_once (config : Config) (allUsers : list User)
    (ctx : Ctx) (user : User) (messageText broadcastMessage : string)
    (s : Store) :
  ctx_from ctx = Some user →
  ctx_message_text ctx = Some messageText →
  BroadcastSpec.carries messageText broadcastMessage →
  allUsers ≠ [] →
  BroadcastSpec.announced ctx broadcastMessage (length allUsers) →
  (∀ delivered failed rate time text,
     ctx_editMessageText ctx (BroadcastCompleted delivered failed rate time text)
     = None) →
  let out := Broadcast.execute config allUsers ctx s in
  result_of out = Ok tt ∧
  ∃ completionTime,
    BroadcastSpec.summaries (events_of out)
    = [broadcast_completed (user_id user)
         (Js.or_str (user_username user) "Unknown")
         (Z.of_nat (length allUsers))
         0 (Z.of_nat (length allUsers))
         completionTime broadcastMessage].
Proof.
  intros Hfrom Htext Hcarries Hne Hann Hfinal out.
  destruct (ExecuteFacts.execute_job config allUsers ctx user messageText
              broadcastMessage s Hfrom Htext Hcarries Hne Hann)
    as (s' & mid & completionTime & Hrun & Horder & _ & Hexec).
  cbn zeta in Hexec.
  unfold BroadcastSpec.final_report in Hexec at 1. rewrite Hfinal in Hexec.
  subst out. rewrite Hexec. unfold result_of, events_of; cbn [fst snd].
  split; [done|].
  exists completionTime.
  rewrite !DeliveryFacts.summaries_app.
  rewrite (DeliveryFacts.in_batch_order_summaries _ _ _ _ Horder).
  unfold Broadcast.ctx_telegram. unfold BroadcastSpec.summary_record.
  rewrite DeliveryFacts.tally_after_client. cbn.
  repeat f_equal; lia.
Qed.

(** Progress reports that all fail change nothing else: the three
    recipients are worked through and the record is written. *)
Example broadcast_progress_failures_swallowed :
  Broadcast.execute (Samples.config_with 5) (Samples.people 3)
    (Samples.broadcast_update_no_progress "/broadcast hello") Samples.fresh
  = (Ok tt, Samples.fresh,
     [EvLog (admin_command "/broadcast" 2 "Unknown" (Some 5));
      EvReply (BroadcastConfirmation "hello" 3);
      EvReply StartingBroadcast;
      EvLog (broadcast_delivery_failed 1
               "Cannot read properties of undefined (reading 'sendMessage')");
      EvLog (broadcast_delivery_failed 2
               "Cannot read properties of undefined (reading 'sendMessage')");
      EvLog (broadcast_delivery_failed 3
               "Cannot read properties of undefined (reading 'sendMessage')");
      EvEdit (BroadcastProgress 0 3 100 3 3 0);
      EvEdit (BroadcastCompleted 0 3 0 0
                (Localized "en" "success.broadcast_sent" [("count"%string, PNum 0)]));
      EvLog (broadcast_completed 2 "Unknown" 3 0 3 0 "hello")]).
Proof. vm_compute. reflexivity. Qed.

(** C4, evaluated on the code.  The status message can no longer be
    edited.  The failed progress report is swallowed and the three
    recipients are worked through; but the final report is an edit of the
    same message, outside any [try], so it throws: the [catch] block of the
    command logs an [admin_command_error] and answers with the generic
    error text, and the [broadcast_completed] record is never written. *)
Theorem broadcast_summary_lost_on_final_edit :
  Broadcast.execute (Samples.config_with 5)
    [Samples.person 1; Samples.person 2; Samples.person 3]
    (Samples.broadcast_update_expired "/broadcast hello") Samples.fresh
  = (Ok tt, Samples.fresh,
     [EvLog (admin_command "/broadcast" 2 "Unknown" (Some 5));
      EvReply (BroadcastConfirmation "hello" 3);
      EvReply StartingBroadcast;
      EvLog (broadcast_delivery_failed 1
               "Cannot read properties of undefined (reading 'sendMessage')");
      EvLog (broadcast_delivery_failed 2
               "Cannot read properties of undefined (reading 'sendMessage')");
      EvLog (broadcast_delivery_failed 3
               "Cannot read properties of undefined (reading 'sendMessage')");
      EvEdit (BroadcastProgress 0 3 100 3 3 0);
      EvEdit (BroadcastCompleted 0 3 0 0
                (Localized "en" "success.broadcast_sent" [("count"%string, PNum 0)]));
      EvLog (admin_command_error "/broadcast" (Some 2) None
               "Bad Request: message to edit not found");
      EvReply (Localized "en" "errors.general" [])]) ∧
  BroadcastSpec.summaries
    (events_of
       (Broadcast.execute (Samples.config_with 5)
          [Samples.person 1; Samples.person 2; Samples.person 3]
          (Samples.broadcast_update_expired "/broadcast hello") Samples.fresh))
  = [].
Proof. vm_compute. split; reflexivity. Qed.

(** ** The log file *)

Module LoggerFacts.
Import Logger.

Lemma maxLogsPerFile_pos : (0 < maxLogsPerFile)%nat.
Proof. apply Nat.ltb_lt. vm_compute. reflexivity. Qed.

Lemma slice_last_length {A} n (l : list A) :
  length (slice_last n l) = Nat.min n (length l).
Proof. unfold slice_last. rewrite length_drop. lia. Qed.

Lemma slice_last_all {A} n (l : list A) :
  (length l ≤ n)%nat → slice_last n l = l.
Proof.
  intros Hle. unfold slice_last.
  replace (length l - n)%nat with 0%nat by lia. done.
Qed.

(** What [log] writes when the write goes through. *)
Lemma log_written disk isoNow logData file :
  write_ok disk = true →
  log disk isoNow logData file
  = Logs (slice_last maxLogsPerFile
            (read_logs disk (initializeLogFile disk file)
             ++ [stamp isoNow logData])).
Proof.
  intros Hw. unfold log. rewrite Hw. f_equal.
  case_bool_decide as Hlen; [done|].
  symmetry. apply slice_last_all. lia.
Qed.

Lemma log_not_written disk isoNow logData file :
  write_ok disk = false →
  stored (log disk isoNow logData file) = stored file.
Proof.
  intros Hw. unfold log. rewrite Hw. unfold initializeLogFile.
  destruct (init_ok disk); [|done]. by destruct file.
Qed.

(** With a file that can be read, [log] starts from the array the file
    holds. *)
Lemma read_stored disk file :
  read_ok disk = true →
  read_logs disk (initializeLogFile disk file) = stored file.
Proof.
  intros Hr. unfold read_logs, initializeLogFile. rewrite Hr.
  destruct (init_ok disk); by destruct file.
Qed.

End LoggerFacts.

(** C10.  After a call of [log] the file holds at most 10000 entries,
    provided it did before or the call's write goes through; the record
    just logged is then the last one.  When the file can be read and the
    write goes through, the file holds exactly the last 10000 entries of
    what it held followed by the new record: all of them while there is
    room, and once it holds 10000 entries or more, its oldest entries are
    dropped to make room.  Entries once written can thus disappear
    later. *)
Theorem log_keeps_last_10000 (disk : Logger.Disk) (isoNow : string)
    (logData : Logger.Entry) (file : Logger.LogFile) :
  let before := Logger.stored file in
  let entry := Logger.stamp isoNow logData in
  let after := Logger.stored (Logger.log disk isoNow logData file) in
  Logger.maxLogsPerFile = 10000%nat ∧
  ((length before ≤ Logger.maxLogsPerFile)%nat →
   (length after ≤ Logger.maxLogsPerFile)%nat) ∧
  (Logger.write_ok disk = true →
   (length after ≤ Logger.maxLogsPerFile)%nat ∧ last after = Some entry) ∧
  (Logger.read_ok disk = true → Logger.write_ok disk = true →
   after = Logger.slice_last Logger.maxLogsPerFile (before ++ [entry]) ∧
   ((length before < Logger.maxLogsPerFile)%nat → after = before ++ [entry]) ∧
   ((Logger.maxLogsPerFile ≤ length before)%nat →
    after = drop (length before + 1 - Logger.maxLogsPerFile) before ++ [entry] ∧
    length after = Logger.maxLogsPerFile)).
Proof.
  intros before entry after.
  pose proof LoggerFacts.maxLogsPerFile_pos as Hpos.
  split; [reflexivity|].
  assert (Hwritten : Logger.write_ok disk = true →
            after = Logger.slice_last Logger.maxLogsPerFile
                      (Logger.read_logs disk (Logger.initializeLogFile disk file)
                       ++ [entry])).
  { intros Hw. subst after. by rewrite LoggerFacts.log_written. }
  assert (Hbound : Logger.write_ok disk = true →
            (length after ≤ Logger.maxLogsPerFile)%nat).
  { intros Hw. rewrite (Hwritten Hw), LoggerFacts.slice_last_length. lia. }
  assert (Hkept : Logger.write_ok disk = false → after = before).
  { intros Hw. subst after before. by rewrite LoggerFacts.log_not_written. }
  assert (Hread : Logger.read_ok disk = true → Logger.write_ok disk = true →
            after = Logger.slice_last Logger.maxLogsPerFile (before ++ [entry])).
  { intros Hr Hw. rewrite (Hwritten Hw). subst before.
    by rewrite LoggerFacts.read_stored. }
  clearbody after before entry.
  split; [|split].
  - intros Hold. destruct (Logger.write_ok disk) eqn:Hw; [by apply Hbound|].
    by rewrite Hkept.
  - intros Hw. split; [by apply Hbound|].
    rewrite (Hwritten Hw). unfold Logger.slice_last.
    set (logs := Logger.read_logs _ _).
    rewrite length_app. cbn [length].
    rewrite drop_app_le by lia. apply last_snoc.
  - intros Hr Hw. split; [by apply Hread|]. split.
    + intros Hroom. rewrite (Hread Hr Hw).
      apply LoggerFacts.slice_last_all. rewrite length_app. cbn [length]. lia.
    + intros Hfull. rewrite (Hread Hr Hw). unfold Logger.slice_last.
      rewrite length_app. cbn [length].
      rewrite drop_app_le by lia. split; [done|].
      rewrite length_app, length_drop. cbn [length]. lia.
Qed.

Lemma log_keeps_last_10000_witness :
  let file := Logger.Logs (Samples.entry 0 :: replicate 9999 (Samples.entry 1)) in
  let before := Logger.stored file in
  let entry := Logger.stamp "now" (Samples.entry 2) in
  let after := Logger.stored (Logger.log Samples.disk_ok "now" (Samples.entry 2) file) in
  after = drop (length before + 1 - Logger.maxLogsPerFile) before ++ [entry] ∧
  length after = Logger.maxLogsPerFile.
Proof.
  intros file before entry after.
  destruct (log_keeps_last_10000 Samples.disk_ok "now" (Samples.entry 2) file)
    as (_ & _ & _ & Hfull).
  destruct (Hfull eq_refl eq_refl) as (_ & _ & Hcap).
  apply Hcap. apply Nat.leb_le. vm_compute. reflexivity.
Defined.

(** A full file: the record logged first is gone after one more call. *)
Example log_drops_oldest :
  let file := Logger.Logs (Samples.entry 0 :: replicate 9999 (Samples.entry 1)) in
  let after := Logger.stored (Logger.log Samples.disk_ok "now" (Samples.entry 2) file) in
  length after = 10000%nat ∧
  head after = Some (Samples.entry 1) ∧
  last after = Some (Samples.entry 2) ∧
  Samples.entry 0 ∉ after.
Proof.
  intros file after.
  assert (Hafter : after = replicate 9999 (Samples.entry 1) ++ [Samples.entry 2]).
  { vm_compute. reflexivity. }
  rewrite Hafter. split; [|split; [|split]].
  - rewrite length_app, length_replicate. reflexivity.
  - reflexivity.
  - by rewrite last_snoc.
  - rewrite elem_of_app, elem_of_replicate, list_elem_of_singleton.
    intros [[? _]|?]; discriminate.
Qed.

(** * Further properties *)

(** ** Flood control: the stored sequences *)

Module FloodStoreFacts.
Import FloodControl FloodSpec FloodControlFacts.
Section WithConfig.
Variable config : Config.

(** What one input does to the stored sequence of any user: nothing, a
    pruning at the time of the input, or a pruning followed by the time of
    the input when fewer than [maxRequests] timestamps were left. *)
Lemma step_stored i s u :
  let s' := store_of (step config i s) in
  let t := input_time i in
  stored s' u = stored s u ∨
  stored s' u = prune config t (stored s u) ∨
  (stored s' u = prune config t (stored s u) ++ [t] ∧
   Z.of_nat (length (prune config t (stored s u))) < maxRequests config ∧
   sender i = Some u).
Proof.
  destruct i as [t ctx|t]; cbn.
  - unfold at_time. set (s1 := {| userRequests := userRequests s; wall := t |}).
    destruct (ctx_from ctx) as [user|] eqn:Hfrom;
      [|rewrite (floodControl_no_from _ _ _ Hfrom); by left].
    destruct (exempt config (user_id user)) eqn:Hex;
      [rewrite (floodControl_exempt _ _ _ _ Hfrom Hex); by left|].
    destruct (decide (over_limit config s1 (user_id user))) as [Hover|Hunder].
    + rewrite (floodControl_over_limit _ _ _ _ Hfrom Hex Hover). left.
      unfold store_of; cbn. destruct (decide (u = user_id user)) as [->|Hne].
      * by rewrite touch_stored.
      * unfold stored; cbn. by rewrite touch_other.
    + rewrite (floodControl_under_limit _ _ _ _ Hfrom Hex Hunder).
      unfold store_of; cbn. destruct (decide (u = user_id user)) as [->|Hne].
      * right. right. unfold stored at 1; cbn. rewrite lookup_insert_eq; cbn.
        split; [done|]. split; [|done].
        unfold over_limit, validRequests in Hunder. cbn in Hunder.
        change (stored s1 (user_id user)) with (stored s (user_id user)) in Hunder.
        lia.
      * left. unfold stored; cbn. by rewrite lookup_insert_ne.
  - right. left.
    unfold store_of, cleanup, at_time, stored; cbn.
    rewrite lookup_omap.
    destruct (userRequests s !! u) as [requests|]; cbn; [|done].
    case_bool_decide as Hlen; cbn; [|done].
    by apply nil_length_inv in Hlen.
Qed.

Lemma prune_length now l : (length (prune config now l) ≤ length l)%nat.
Proof. apply length_filter. Qed.

(** The entry of a user after a clean-up run at time [t]. *)
Lemma cleanup_lookup t s u :
  userRequests (store_of (at_time t (cleanup config) s)) !! u
  = userRequests s !! u ≫= λ requests,
      let validRequests := prune config t requests in
      if bool_decide (length validRequests = 0%nat) then None
      else Some validRequests.
Proof.
  unfold store_of, at_time, cleanup; cbn. by rewrite lookup_omap.
Qed.

Lemma cleanup_stored t s u :
  stored (store_of (at_time t (cleanup config) s)) u
  = prune config t (stored s u).
Proof.
  unfold stored. rewrite cleanup_lookup.
  destruct (userRequests s !! u) as [requests|]; cbn; [|done].
  case_bool_decide as Hlen; cbn; [|done].
  by apply nil_length_inv in Hlen.
Qed.

End WithConfig.
End FloodStoreFacts.

(** X1.  The map never holds more than [maxRequests] timestamps for a
    user (none when [maxRequests] is negative): if that is so in a store,
    it is still so after any sequence of requests and clean-up runs, in
    any order of time and whatever the transport does. *)
Theorem stored_sequences_bounded (config : Config)
    (inputs : list FloodSpec.Input) (s : Store) :
  (∀ u, Z.of_nat (length (FloodSpec.stored s u))
        ≤ Z.max 0 (FloodControl.maxRequests config)) →
  ∀ u, Z.of_nat (length (FloodSpec.stored (FloodSpec.run config inputs s).2 u))
       ≤ Z.max 0 (FloodControl.maxRequests config).
Proof.
  revert s. induction inputs as [|i rest IH]; intros s Hbound u; cbn.
  - apply Hbound.
  - apply IH. clear u. intros u.
    destruct (FloodStoreFacts.step_stored config i s u)
      as [-> | [-> | (-> & Hlen & _)]].
    + apply Hbound.
    + pose proof (FloodStoreFacts.prune_length config (FloodSpec.input_time i)
                    (FloodSpec.stored s u)).
      specialize (Hbound u). lia.
    + rewrite length_app. cbn. lia.
Qed.

Lemma stored_sequences_bounded_witness :
  Z.of_nat (length (FloodSpec.stored
                      (FloodSpec.run (Samples.config_with 2)
                         [FloodSpec.Request 1000 (Samples.update 7 "a");
                          FloodSpec.Request 900 (Samples.update 7 "b");
                          FloodSpec.Request 950 (Samples.update_unreachable 7 "c");
                          FloodSpec.Sweep 2000]
                         Samples.fresh).2 7))
  ≤ Z.max 0 (FloodControl.maxRequests (Samples.config_with 2)).
Proof.
  apply (stored_sequences_bounded (Samples.config_with 2)
           [FloodSpec.Request 1000 (Samples.update 7 "a");
            FloodSpec.Request 900 (Samples.update 7 "b");
            FloodSpec.Request 950 (Samples.update_unreachable 7 "c");
            FloodSpec.Sweep 2000]
           Samples.fresh).
  intros u. unfold FloodSpec.stored. cbn. rewrite lookup_empty. cbn. lia.
Defined.

(** X2.  After a clean-up run at time [t], the entry of every user is the
    pruning at [t] of what was stored: a user all of whose timestamps have
    left the window is deleted, and a user who stays has a non-empty
    sequence of timestamps that are all inside the window. *)
Theorem cleanup_keeps_live_entries (config : Config) (t : Z) (s : Store) (u : Z) :
  let s' := store_of (FloodSpec.at_time t (FloodControl.cleanup config) s) in
  FloodSpec.stored s' u = FloodControl.prune config t (FloodSpec.stored s u) ∧
  (userRequests s' !! u = None ↔
   FloodControl.prune config t (FloodSpec.stored s u) = []) ∧
  Forall (λ ts, t - ts < FloodControl.timeWindow config) (FloodSpec.stored s' u).
Proof.
  intros s'.
  pose proof (FloodStoreFacts.cleanup_lookup config t s u) as Hlook.
  pose proof (FloodStoreFacts.cleanup_stored config t s u) as Hstored.
  fold s' in Hlook, Hstored.
  split; [exact Hstored|]. split.
  - rewrite Hlook. unfold FloodSpec.stored.
    destruct (userRequests s !! u) as [requests|]; cbn; [|done].
    case_bool_decide as Hlen; cbn.
    + split; [intros _; by apply nil_length_inv|done].
    + split; [done|]. intros Hnil. exfalso. apply Hlen.
      by apply (f_equal length) in Hnil.
  - rewrite Hstored. unfold FloodControl.prune.
    apply Forall_forall. intros ts Hts.
    by apply list_elem_of_filter in Hts as [? _].
Qed.

(** The sample store of the next example: user 7 has one old and one
    recent timestamp, user 8 only an old one. *)
Example cleanup_sample :
  userRequests
    (store_of (FloodSpec.at_time 70000 (FloodControl.cleanup (Samples.config_with 2))
                 {| userRequests := {[ 7 := [1000; 20000]; 8 := [500] ]};
                    wall := 0 |}))
  = {[ 7 := [20000] ]}.
Proof. vm_compute. reflexivity. Qed.

(** X3.  A clean-up run changes no later decision: a request handled at
    time [t'] makes the same calls, with the same arguments, and ends in
    the same way whether or not the clean-up has run at an earlier time
    [t]. *)
Theorem cleanup_is_transparent (config : Config) (ctx : Ctx) (s : Store)
    (t t' : Z) :
  t ≤ t' →
  let swept := store_of (FloodSpec.at_time t (FloodControl.cleanup config) s) in
  events_of (FloodSpec.at_time t' (FloodControl.floodControl config ctx) swept)
  = events_of (FloodSpec.at_time t' (FloodControl.floodControl config ctx) s) ∧
  result_of (FloodSpec.at_time t' (FloodControl.floodControl config ctx) swept)
  = result_of (FloodSpec.at_time t' (FloodControl.floodControl config ctx) s).
Proof.
  intros Hle swept. unfold FloodSpec.at_time.
  set (a := {| userRequests := userRequests swept; wall := t' |}).
  set (b := {| userRequests := userRequests s; wall := t' |}).
  destruct (ctx_from ctx) as [user|] eqn:Hfrom;
    [|by rewrite !(FloodControlFacts.floodControl_no_from _ _ _ Hfrom)].
  destruct (FloodSpec.exempt config (user_id user)) eqn:Hex;
    [by rewrite !(FloodControlFacts.floodControl_exempt _ _ _ _ Hfrom Hex)|].
  assert (Hvalid : FloodSpec.validRequests config a (user_id user)
                   = FloodSpec.validRequests config b (user_id user)).
  { unfold FloodSpec.validRequests. cbn [wall a b].
    change (FloodSpec.stored a (user_id user))
      with (FloodSpec.stored swept (user_id user)).
    change (FloodSpec.stored b (user_id user))
      with (FloodSpec.stored s (user_id user)).
    pose proof (FloodStoreFacts.cleanup_stored config t s (user_id user)) as Hst.
    fold swept in Hst. rewrite Hst.
    by apply FloodWindow.prune_prune. }
  destruct (decide (FloodSpec.over_limit config b (user_id user))) as [Hover|Hunder].
  - assert (Hover' : FloodSpec.over_limit config a (user_id user)).
    { unfold FloodSpec.over_limit in *. by rewrite Hvalid. }
    rewrite (FloodControlFacts.floodControl_over_limit _ _ _ _ Hfrom Hex Hover).
    rewrite (FloodControlFacts.floodControl_over_limit _ _ _ _ Hfrom Hex Hover').
    unfold events_of, result_of, FloodSpec.rejection_events; cbn [fst snd].
    rewrite Hvalid. done.
  - assert (Hunder' : ¬ FloodSpec.over_limit config a (user_id user)).
    { unfold FloodSpec.over_limit in *. by rewrite Hvalid. }
    rewrite (FloodControlFacts.floodControl_under_limit _ _ _ _ Hfrom Hex Hunder).
    rewrite (FloodControlFacts.floodControl_under_limit _ _ _ _ Hfrom Hex Hunder').
    done.
Qed.

Lemma cleanup_is_transparent_witness :
  let s := {| userRequests := {[ 7 := [1000; 20000]; 8 := [500] ]}; wall := 0 |} in
  let config := Samples.config_with 2 in
  let swept := store_of (FloodSpec.at_time 70000 (FloodControl.cleanup config) s) in
  events_of (FloodSpec.at_time 75000
               (FloodControl.floodControl config (Samples.update 7 "x")) swept)
  = events_of (FloodSpec.at_time 75000
                 (FloodControl.floodControl config (Samples.update 7 "x")) s) ∧
  result_of (FloodSpec.at_time 75000
               (FloodControl.floodControl config (Samples.update 7 "x")) swept)
  = result_of (FloodSpec.at_time 75000
                 (FloodControl.floodControl config (Samples.update 7 "x")) s).
Proof.
  intros s config.
  apply (cleanup_is_transparent config (Samples.update 7 "x") s 70000 75000).
  lia.
Defined.

(** X4.  A rejected caller is never told to wait zero seconds.  When the
    limit is reached (with [maxRequests > 0]) the cooldown is a number of
    seconds that is at least 1; and when no stored timestamp lies in the
    future it is at most the window length in seconds, rounded up. *)
Theorem cooldown_at_least_one_second (config : Config) (s : Store) (u : Z) :
  0 < FloodControl.maxRequests config →
  FloodSpec.over_limit config s u →
  ∃ seconds,
    FloodControl.remainingTime config (wall s) (FloodSpec.validRequests config s u)
    = Js.Fin seconds ∧
    1 ≤ seconds ∧
    ((∀ ts, ts ∈ FloodSpec.stored s u → ts ≤ wall s) →
     seconds ≤ Js.ceil_div (FloodControl.timeWindow config) 1000).
Proof.
  intros Hmax Hover.
  assert (Hne : FloodSpec.validRequests config s u ≠ []).
  { unfold FloodSpec.over_limit in Hover. intros E. rewrite E in Hover.
    cbn in Hover. lia. }
  destruct (RetryAfter.Math_min_is_Fin _ Hne) as [oldest Hmin].
  destruct (RetryAfter.Math_min_spec _ _ Hmin) as [Hin _].
  unfold FloodSpec.validRequests, FloodControl.prune in Hin.
  apply list_elem_of_filter in Hin as [Hwin Hin].
  unfold FloodControl.remainingTime. rewrite Hmin.
  eexists. split; [reflexivity|].
  set (W := FloodControl.timeWindow config) in *.
  pose proof (RetryAfter.ceil_div_spec (W - (wall s - oldest)) 1000 ltac:(lia))
    as [Hlo Hhi].
  pose proof (RetryAfter.ceil_div_spec W 1000 ltac:(lia)) as [Hlo' Hhi'].
  split; [lia|]. intros Hpast. specialize (Hpast oldest Hin). lia.
Qed.

Lemma cooldown_at_least_one_second_witness :
  let s := {| userRequests := {[ 7 := [100; 200] ]}; wall := 60099 |} in
  ∃ seconds,
    FloodControl.remainingTime (Samples.config_with 1) (wall s)
      (FloodSpec.validRequests (Samples.config_with 1) s 7)
    = Js.Fin seconds ∧
    1 ≤ seconds ∧
    ((∀ ts, ts ∈ FloodSpec.stored s 7 → ts ≤ wall s) →
     seconds ≤ Js.ceil_div (FloodControl.timeWindow (Samples.config_with 1)) 1000).
Proof.
  intros s. apply (cooldown_at_least_one_second (Samples.config_with 1) s 7).
  - reflexivity.
  - vm_compute. discriminate.
Defined.

(** One millisecond before the oldest timestamp leaves the window, the
    caller is still told to wait one second. *)
Example cooldown_last_millisecond :
  events_of (FloodControl.floodControl (Samples.config_with 1) (Samples.update 7 "x")
               {| userRequests := {[ 7 := [100] ]}; wall := 60099 |})
  = [EvLog (flood_control_triggered 7 "Unknown" 1 1 (Js.Fin 1));
     EvReply (SlowDown (Js.Fin 1) 1 60000)].
Proof. vm_compute. reflexivity. Qed.

(** ** Flood control: bursts *)

Module FloodBurstFacts.
Import FloodControl FloodSpec FloodControlFacts.
Section WithConfig.
Variable config : Config.
Variable u : Z.
Hypothesis u_not_exempt : exempt config u = false.

Lemma prune_all now l :
  Forall (λ ts, now - ts < timeWindow config) l → prune config now l = l.
Proof.
  intros Hall. unfold prune.
  induction Hall as [|x l Hx _ IH]; [done|].
  by rewrite filter_cons_True, IH.
Qed.

(** Requests of [u] that all fall in one window, with [h] already stored
    and still counted: the first ones are admitted until the sequence has
    [maxRequests] entries. *)
Lemma burst_from inputs : ∀ s,
  Forall (λ i, sender i = Some u) inputs →
  Forall (λ i, Forall (λ ts, input_time i - ts < timeWindow config) (stored s u))
    inputs →
  StronglySorted (λ ti tk, tk - ti < timeWindow config) (input_time <$> inputs) →
  admitted_times u (run config inputs s).1
  = take (Z.to_nat (maxRequests config) - length (stored s u))
      (input_time <$> inputs).
Proof.
  induction inputs as [|i rest IH]; intros s Hsender Hold Hpair.
  - cbn. by rewrite take_nil.
  - apply Forall_cons in Hsender as [Hi Hsender].
    apply Forall_cons in Hold as [Hold_i Hold].
    cbn [fmap list_fmap] in Hpair.
    apply StronglySorted_inv in Hpair as [Hpair Hlater].
    cbn [run fst]. unfold admitted_times. cbn [omap list_omap].
    fold (admitted_times u (run config rest (store_of (step config i s))).1).
    destruct i as [t ctx|t]; [|done].
    cbn in Hi. destruct (ctx_from ctx) as [user|] eqn:Hfrom; [|done].
    cbn in Hi. injection Hi as Hid.
    assert (Hex : exempt config (user_id user) = false) by (by rewrite Hid).
    cbn [step input_time] in *. unfold at_time.
    set (s1 := {| userRequests := userRequests s; wall := t |}).
    assert (Hvalid : validRequests config s1 (user_id user) = stored s u).
    { unfold validRequests. cbn [wall s1]. rewrite Hid.
      change (stored s1 u) with (stored s u). by apply prune_all. }
    destruct (decide (over_limit config s1 (user_id user))) as [Hover|Hunder].
    + (* the sequence is full: rejected, whatever happens to the reply *)
      rewrite (floodControl_over_limit _ _ _ _ Hfrom Hex Hover).
      unfold over_limit in Hover. rewrite Hvalid in Hover.
      assert (Hnone : admitted_at u
                (Request t ctx, events_of
                   (Ok tt, {| userRequests := touch (user_id user) (userRequests s1);
                              wall := wall s1 |},
                    rejection_events config ctx user s1)) = None).
      { unfold admitted_at, events_of, forwarded, failed_open, rejection_events.
        cbn [fst snd sender]. rewrite Hfrom. cbn [fmap option_fmap option_map].
        destruct (ctx_reply ctx _) as [error|]; cbn.
        - by rewrite andb_false_r.
        - rewrite (bool_decide_eq_false_2 (EvNext ∈ _)); [by rewrite andb_false_r|].
          intros Hin. not_in_list Hin. }
      rewrite Hnone.
      rewrite IH; [| done | | done].
      * unfold store_of; cbn [fst snd]. rewrite <- Hid at 1 2.
        rewrite touch_stored. rewrite Hid.
        change (stored {| userRequests := userRequests s1; wall := wall s1 |} u)
          with (stored s u).
        replace (Z.to_nat (maxRequests config) - length (stored s u))%nat
          with 0%nat by lia.
        done.
      * unfold store_of; cbn [fst snd]. rewrite <- Hid.
        eapply Forall_impl; [exact Hold|]. intros i' Hi'. cbn beta in Hi'.
        rewrite touch_stored. rewrite Hid. exact Hi'.
    + (* room left: admitted and recorded *)
      rewrite (floodControl_under_limit _ _ _ _ Hfrom Hex Hunder).
      unfold over_limit in Hunder. rewrite Hvalid in Hunder.
      assert (Hsome : admitted_at u
                (Request t ctx, events_of
                   (Ok tt, {| userRequests :=
                                <[user_id user := validRequests config s1 (user_id user)
                                                  ++ [wall s1]]> (userRequests s1);
                              wall := wall s1 |}, [EvNext])) = Some t).
      { unfold admitted_at, events_of, forwarded, failed_open.
        cbn [fst snd sender input_time]. rewrite Hfrom.
        cbn [fmap option_fmap option_map]. rewrite Hid.
        rewrite bool_decide_eq_true_2 by done.
        rewrite bool_decide_eq_true_2 by apply list_elem_of_here. done. }
      rewrite Hsome.
      assert (Hst : stored
                (store_of
                   (Ok tt, {| userRequests :=
                                <[user_id user := validRequests config s1 (user_id user)
                                                  ++ [wall s1]]> (userRequests s1);
                              wall := wall s1 |}, [EvNext])) u
              = stored s u ++ [t]).
      { unfold store_of, stored at 1; cbn [fst snd userRequests].
        rewrite <- Hid at 1. rewrite lookup_insert_eq. cbn. by rewrite Hvalid. }
      rewrite IH; [| done | | done].
      * rewrite Hst, length_app. cbn [length].
        destruct (Z.to_nat (maxRequests config) - length (stored s u))%nat
          as [|k] eqn:Hk; [lia|].
        rewrite fmap_cons. cbn [take input_time]. do 2 f_equal. lia.
      * rewrite Hst.
        apply Forall_forall. intros i' Hi'.
        apply Forall_app. split.
        -- by eapply (proj1 (Forall_forall _ _) Hold).
        -- constructor; [|done].
           apply (proj1 (Forall_forall _ _) Hlater (input_time i')).
           by apply list_elem_of_fmap_2.
Qed.

End WithConfig.
End FloodBurstFacts.

(** X5.  The limit is tight.  When a user who is neither owner nor admin,
    and for whom nothing is stored, sends requests any two of which are
    less than a window apart, exactly the first [maxRequests] of them are
    admitted (none when [maxRequests] is negative). *)
Theorem burst_admits_first_requests (config : Config) (u : Z)
    (inputs : list FloodSpec.Input) (s : Store) :
  FloodSpec.exempt config u = false →
  FloodSpec.stored s u = [] →
  Forall (λ i, FloodSpec.sender i = Some u) inputs →
  StronglySorted (λ ti tk, tk - ti < FloodControl.timeWindow config)
    (FloodSpec.input_time <$> inputs) →
  FloodSpec.admitted_times u (FloodSpec.run config inputs s).1
  = take (Z.to_nat (FloodControl.maxRequests config))
      (FloodSpec.input_time <$> inputs).
Proof.
  intros Hex Hempty Hsender Hpair.
  rewrite (FloodBurstFacts.burst_from config u Hex inputs s Hsender); [| |done].
  - rewrite Hempty. cbn. by rewrite Nat.sub_0_r.
  - rewrite Hempty. apply Forall_forall. intros i _. constructor.
Qed.

Lemma burst_admits_first_requests_witness :
  FloodSpec.admitted_times 7
    (FloodSpec.run (Samples.config_with 2)
       [FloodSpec.Request 1000 (Samples.update 7 "a");
        FloodSpec.Request 1000 (Samples.update 7 "b");
        FloodSpec.Request 1001 (Samples.update_unreachable 7 "c");
        FloodSpec.Request 50000 (Samples.update 7 "d")]
       Samples.fresh).1
  = take (Z.to_nat (FloodControl.maxRequests (Samples.config_with 2)))
      (FloodSpec.input_time <$>
         [FloodSpec.Request 1000 (Samples.update 7 "a");
          FloodSpec.Request 1000 (Samples.update 7 "b");
          FloodSpec.Request 1001 (Samples.update_unreachable 7 "c");
          FloodSpec.Request 50000 (Samples.update 7 "d")]).
Proof.
  apply burst_admits_first_requests.
  - reflexivity.
  - reflexivity.
  - repeat constructor.
  - cbn. repeat constructor; lia.
Defined.

(** X6.  A request changes the entry of its sender only: for every other
    user the map holds exactly what it held before, and the clock is not
    touched.  A request without a sender changes nothing. *)
Theorem request_changes_only_sender (config : Config) (ctx : Ctx) (s : Store)
    (u : Z) :
  user_id <$> ctx_from ctx ≠ Some u →
  let s' := store_of (FloodControl.floodControl config ctx s) in
  userRequests s' !! u = userRequests s !! u ∧ wall s' = wall s.
Proof.
  intros Hother s'. subst s'.
  destruct (ctx_from ctx) as [user|] eqn:Hfrom;
    [|by rewrite (FloodControlFacts.floodControl_no_from _ _ _ Hfrom)].
  assert (Hne : u ≠ user_id user) by (intros ->; by apply Hother).
  destruct (FloodSpec.exempt config (user_id user)) eqn:Hex;
    [by rewrite (FloodControlFacts.floodControl_exempt _ _ _ _ Hfrom Hex)|].
  destruct (decide (FloodSpec.over_limit config s (user_id user))) as [Hover|Hunder].
  - rewrite (FloodControlFacts.floodControl_over_limit _ _ _ _ Hfrom Hex Hover).
    unfold store_of; cbn. by rewrite FloodControlFacts.touch_other.
  - rewrite (FloodControlFacts.floodControl_under_limit _ _ _ _ Hfrom Hex Hunder).
    unfold store_of; cbn. by rewrite lookup_insert_ne.
Qed.

Lemma request_changes_only_sender_witness :
  let s := {| userRequests := {[ 8 := [500] ]}; wall := 1000 |} in
  let s' := store_of (FloodControl.floodControl (Samples.config_with 2)
                        (Samples.update 7 "x") s) in
  userRequests s' !! 8 = userRequests s !! 8 ∧ wall s' = wall s.
Proof.
  intros s.
  apply (request_changes_only_sender (Samples.config_with 2)
           (Samples.update 7 "x") s 8).
  cbn. discriminate.
Defined.

(** X7.  A negative [MAX_REQUESTS] locks every non-exempt user out: each
    of their requests takes the rejection branch, so it is passed on only
    if the [catch] block runs, and it is never recorded.  A user with no
    timestamp left in the window is then told to wait [Infinity] seconds. *)
Theorem negative_limit_rejects_everyone (config : Config) (ctx : Ctx)
    (user : User) (s : Store) :
  ctx_from ctx = Some user →
  FloodSpec.exempt config (user_id user) = false →
  FloodControl.maxRequests config < 0 →
  let out := FloodControl.floodControl config ctx s in
  events_of out = FloodSpec.rejection_events config ctx user s ∧
  (FloodSpec.forwarded (events_of out) = true →
   FloodSpec.failed_open (events_of out) = true) ∧
  FloodSpec.stored (store_of out) (user_id user)
  = FloodSpec.stored s (user_id user) ∧
  (FloodSpec.validRequests config s (user_id user) = [] →
   EvReply (SlowDown Js.Infinity (FloodControl.maxRequests config)
              (FloodControl.timeWindow config)) ∈ events_of out).
Proof.
  intros Hfrom Hex Hneg out.
  assert (Hover : FloodSpec.over_limit config s (user_id user)).
  { unfold FloodSpec.over_limit. lia. }
  subst out.
  rewrite (FloodControlFacts.floodControl_over_limit _ _ _ _ Hfrom Hex Hover).
  unfold events_of, store_of; cbn [fst snd].
  split; [done|]. split; [|split].
  - unfold FloodSpec.rejection_events, FloodSpec.forwarded, FloodSpec.failed_open.
    destruct (ctx_reply ctx _) as [error|]; cbn; [done|].
    intros Hfw. apply bool_decide_eq_true in Hfw. not_in_list Hfw.
  - destruct s as [m w]. apply FloodControlFacts.touch_stored.
  - intros Hempty. unfold FloodSpec.rejection_events, FloodControl.remainingTime.
    rewrite Hempty. cbn. apply list_elem_of_further, list_elem_of_here.
Qed.

Lemma negative_limit_rejects_everyone_witness :
  let config := Samples.config_with (-1) in
  let out := FloodControl.floodControl config (Samples.update 7 "x") Samples.fresh in
  events_of out
  = FloodSpec.rejection_events config (Samples.update 7 "x") (Samples.person 7)
      Samples.fresh ∧
  (FloodSpec.forwarded (events_of out) = true →
   FloodSpec.failed_open (events_of out) = true) ∧
  FloodSpec.stored (store_of out) 7 = FloodSpec.stored Samples.fresh 7 ∧
  (FloodSpec.validRequests config Samples.fresh 7 = [] →
   EvReply (SlowDown Js.Infinity (FloodControl.maxRequests config)
              (FloodControl.timeWindow config)) ∈ events_of out).
Proof.
  intros config.
  apply (negative_limit_rejects_everyone config (Samples.update 7 "x")
           (Samples.person 7) Samples.fresh); reflexivity.
Defined.

(** The first request of a user under such a configuration. *)
Example negative_limit_sample :
  events_of (FloodControl.floodControl (Samples.config_with (-1))
               (Samples.update 7 "x") Samples.fresh)
  = [EvLog (flood_control_triggered 7 "Unknown" 0 (-1) Js.Infinity);
     EvReply (SlowDown Js.Infinity (-1) 60000)].
Proof. vm_compute. reflexivity. Qed.

(** ** The admin gate and the shutdown command: errors *)

(** X8.  The admin gate fails closed.  Whatever the context and the
    transport, [next()] is called only for a caller who has an id and is
    owner or admin.  An update without a sender is answered with the
    system-error text, after a [middleware_error] record, and goes no
    further.  The gate never changes the store, never ends the process,
    and rejects only when that system-error reply is itself rejected. *)
Theorem isAdmin_fails_closed (config : Config) (ctx : Ctx) (s : Store) :
  let out := IsAdmin.isAdmin config ctx s in
  (EvNext ∈ events_of out →
   ∃ user, ctx_from ctx = Some user ∧ Router.admin config (user_id user)) ∧
  (ctx_from ctx = None →
   events_of out =
     [EvLog (middleware_error "isAdmin" None None
              (message (TypeError_undefined "id")));
      EvReply PermissionSystemError]) ∧
  store_of out = s ∧
  (∀ code, result_of out ≠ Exited code) ∧
  (∀ error, result_of out = Throw error →
            ctx_reply ctx PermissionSystemError = Some error).
Proof.
  intros out. subst out.
  destruct (ctx_from ctx) as [user|] eqn:Hfrom.
  - destruct (decide (user_id user = OWNER_ID config)) as [Hown|Hown].
    { rewrite (isAdmin_owner config ctx user s Hfrom Hown).
      unfold events_of, store_of, result_of; cbn.
      split; [intros _; exists user; split; [done|by left]|].
      repeat split; done. }
    destruct (in_admins config (user_id user)) eqn:Hadm.
    { rewrite (isAdmin_admin config ctx user s Hfrom Hown Hadm).
      unfold events_of, store_of, result_of; cbn.
      split.
      - intros _. exists user. split; [done|]. apply admin_iff.
        by rewrite Hadm, orb_true_r.
      - repeat split; done. }
    unfold IsAdmin.isAdmin, try_catch, IsAdmin.isAdmin_try, IsAdmin.isAdmin_catch,
      get_from, is_owner.
    rewrite Hfrom; cbn. rewrite bool_decide_eq_false_2 by done.
    rewrite Hadm. cbn. unfold reply, await_call.
    destruct (ctx_reply ctx AdminAccessDenied) as [error|]; cbn.
    + destruct (ctx_reply ctx PermissionSystemError) as [error'|] eqn:Hsys; cbn;
        unfold events_of, store_of, result_of; cbn;
        (split; [intros Hin; not_in_list Hin|]);
        repeat split; try done; congruence.
    + unfold events_of, store_of, result_of; cbn.
      split; [intros Hin; not_in_list Hin|]. repeat split; done.
  - unfold IsAdmin.isAdmin, try_catch, IsAdmin.isAdmin_try, IsAdmin.isAdmin_catch,
      get_from.
    rewrite Hfrom; cbn. unfold reply, await_call.
    destruct (ctx_reply ctx PermissionSystemError) as [error'|] eqn:Hsys; cbn;
      unfold events_of, store_of, result_of; cbn;
      (split; [intros Hin; not_in_list Hin|]);
      repeat split; try done; congruence.
Qed.

(** An update without a sender at the two middlewares: flood control
    passes it on, the admin gate stops it. *)
Example no_sender_at_the_middlewares :
  events_of (FloodControl.floodControl (Samples.config_with 5)
               Samples.channel_post Samples.fresh)
  = [EvLog (middleware_error "floodControl" None None
              "Cannot read properties of undefined (reading 'id')");
     EvNext] ∧
  events_of (IsAdmin.isAdmin (Samples.config_with 5) Samples.channel_post
               Samples.fresh)
  = [EvLog (middleware_error "isAdmin" None None
              "Cannot read properties of undefined (reading 'id')");
     EvReply PermissionSystemError].
Proof. vm_compute. split; reflexivity. Qed.

(** What the shutdown command does for the owner, by the outcome of its
    two replies. *)
Lemma shutdown_owner config ctx user s :
  ctx_from ctx = Some user → user_id user = OWNER_ID config →
  let userLang := userLang_of config (user_language_code user) in
  let name := Js.or_str (user_username user) "Unknown" in
  let final :=
    ShuttingDown (Localized userLang "success.shutdown_initiated" [])
      (Js.or_str (user_first_name user) name) (user_id user) in
  let error_reply e :=
    EvReply (ShutdownError (Localized userLang "errors.general" []) (message e)) in
  let error_log e :=
    EvLog (admin_command_error "/shutdown" (Some (user_id user))
             (user_username user) (message e)) in
  let ended e := match ctx_reply ctx (ShutdownError
                                        (Localized userLang "errors.general" [])
                                        (message e)) with
                 | None => Ok tt
                 | Some e' => Throw e'
                 end in
  Shutdown.execute config ctx s =
    match ctx_reply ctx ShutdownConfirmation with
    | Some e =>
        (ended e, s,
         [EvLog (admin_command "/shutdown" (user_id user) name None);
          EvReply ShutdownConfirmation; error_log e; error_reply e])
    | None =>
        match ctx_reply ctx final with
        | Some e =>
            (ended e, s,
             [EvLog (admin_command "/shutdown" (user_id user) name None);
              EvReply ShutdownConfirmation; EvReply final;
              error_log e; error_reply e])
        | None =>
            (Exited 0, {| userRequests := userRequests s; wall := wall s + 2000 |},
             [EvLog (admin_command "/shutdown" (user_id user) name None);
              EvReply ShutdownConfirmation; EvReply final;
              EvLog (bot_shutdown_initiated (user_id user) name);
              EvSleep 2000; EvExit 0])
        end
    end.
Proof.
  intros Hfrom Hown userLang name final error_reply error_log ended.
  unfold Shutdown.execute, try_catch, Shutdown.execute_try,
    Shutdown.execute_catch, get_from.
  rewrite Hfrom; cbn. rewrite bool_decide_eq_false_2 by (by intros ?).
  fold userLang name. unfold reply, await_call; cbn.
  destruct (ctx_reply ctx ShutdownConfirmation) as [e|]; cbn.
  - subst ended error_reply error_log. cbn.
    by destruct (ctx_reply ctx (ShutdownError _ _)).
  - fold final. destruct (ctx_reply ctx final) as [e|]; cbn.
    + subst ended error_reply error_log. cbn.
      by destruct (ctx_reply ctx (ShutdownError _ _)).
    + reflexivity.
Qed.

(** X9.  The shutdown command ends the process exactly when the caller is
    the owner and both announcements are delivered.  The exit code is then
    0 and the last calls are the [bot_shutdown_initiated] record, the
    two-second pause and the exit.  In every other case (another caller,
    no caller, a rejected announcement) the process goes on. *)
Theorem shutdown_exits_only_for_owner (config : Config) (ctx : Ctx) (s : Store) :
  let out := Shutdown.execute config ctx s in
  (∀ code, result_of out = Exited code ↔
     code = 0 ∧
     ∃ user, ctx_from ctx = Some user ∧ user_id user = OWNER_ID config ∧
       ctx_reply ctx ShutdownConfirmation = None ∧
       ctx_reply ctx
         (ShuttingDown
            (Localized (userLang_of config (user_language_code user))
               "success.shutdown_initiated" [])
            (Js.or_str (user_first_name user)
               (Js.or_str (user_username user) "Unknown"))
            (user_id user)) = None) ∧
  (∀ code, result_of out = Exited code →
     ∃ pre user,
       ctx_from ctx = Some user ∧
       events_of out =
         pre ++ [EvLog (bot_shutdown_initiated (user_id user)
                          (Js.or_str (user_username user) "Unknown"));
                 EvSleep 2000; EvExit 0] ∧
       wall (store_of out) = wall s + 2000) ∧
  ((∀ code, result_of out ≠ Exited code) →
   Forall (λ ev, ¬ Router.is_exit ev) (events_of out)).
Proof.
  intros out. subst out.
  destruct (ctx_from ctx) as [user|] eqn:Hfrom.
  - destruct (decide (user_id user = OWNER_ID config)) as [Hown|Hown].
    + rewrite (shutdown_owner config ctx user s Hfrom Hown). cbn zeta.
      set (final := ShuttingDown _ _ _).
      destruct (ctx_reply ctx ShutdownConfirmation) as [e|] eqn:Hconf.
      * unfold result_of, events_of; cbn [fst snd].
        split; [|split].
        -- intros code. split.
           ++ by destruct (ctx_reply ctx (ShutdownError _ _)).
           ++ intros (_ & user' & [= <-] & _ & ? & _). done.
        -- intros code. by destruct (ctx_reply ctx (ShutdownError _ _)).
        -- intros _. repeat constructor; cbn; tauto.
      * destruct (ctx_reply ctx final) as [e|] eqn:Hfinal.
        -- unfold result_of, events_of; cbn [fst snd].
           split; [|split].
           ++ intros code. split.
              ** by destruct (ctx_reply ctx (ShutdownError _ _)).
              ** intros (_ & user' & [= <-] & _ & _ & Hf).
                 fold final in Hf. congruence.
           ++ intros code. by destruct (ctx_reply ctx (ShutdownError _ _)).
           ++ intros _. repeat constructor; cbn; tauto.
        -- unfold result_of, events_of, store_of; cbn [fst snd wall].
           split; [|split].
           ++ intros code. split.
              ** intros [= <-]. split; [done|]. by exists user.
              ** by intros [-> _].
           ++ intros code _.
              exists [EvLog (admin_command "/shutdown" (user_id user)
                               (Js.or_str (user_username user) "Unknown") None);
                      EvReply ShutdownConfirmation; EvReply final], user.
              done.
           ++ intros Hno. by destruct (Hno 0).
    + destruct (shutdown_denied config ctx user s Hfrom Hown)
        as (_ & Hres & Hall).
      split; [|split].
      * intros code. split; [by intros ?%Hres|].
        intros (_ & user' & [= <-] & ? & _). done.
      * intros code Hex. by apply Hres in Hex.
      * intros _. eapply Forall_impl; [exact Hall|]. by intros ev [? _].
  - unfold Shutdown.execute, try_catch, Shutdown.execute_try,
      Shutdown.execute_catch, get_from.
    rewrite Hfrom; cbn. unfold reply, await_call; cbn.
    destruct (ctx_reply ctx (ShutdownError _ _)) as [e|];
      unfold result_of, events_of; cbn [fst snd];
      (split; [|split]);
      [ intros code; split; [done|by intros (_ & user' & ? & _)]
      | by intros code
      | intros _; repeat constructor; cbn; tauto
      | intros code; split; [done|by intros (_ & user' & ? & _)]
      | by intros code
      | intros _; repeat constructor; cbn; tauto ].
Qed.

(** The owner's shutdown when the chat accepts both announcements, and
    when it accepts none. *)
Example shutdown_by_owner :
  Shutdown.execute (Samples.config_with 5) (Samples.update 1 "/shutdown")
    Samples.fresh
  = (Exited 0, {| userRequests := ∅; wall := 2000 |},
     [EvLog (admin_command "/shutdown" 1 "Unknown" None);
      EvReply ShutdownConfirmation;
      EvReply (ShuttingDown (Localized "en" "success.shutdown_initiated" [])
                 "Unknown" 1);
      EvLog (bot_shutdown_initiated 1 "Unknown");
      EvSleep 2000; EvExit 0]) ∧
  Shutdown.execute (Samples.config_with 5)
    (Samples.update_unreachable 1 "/shutdown") Samples.fresh
  = (Throw Samples.blocked, Samples.fresh,
     [EvLog (admin_command "/shutdown" 1 "Unknown" None);
      EvReply ShutdownConfirmation;
      EvLog (admin_command_error "/shutdown" (Some 1) None
               "Forbidden: bot was blocked by the user");
      EvReply (ShutdownError (Localized "en" "errors.general" [])
                 "Forbidden: bot was blocked by the user")]).
Proof. vm_compute. split; reflexivity. Qed.
(** ** Broadcast: progress reports and pauses *)

Module ProgressFacts.
Import Broadcast BroadcastSpec BroadcastMore DeliveryFacts.

Lemma progress_reports_app evs1 evs2 :
  progress_reports (evs1 ++ evs2) = progress_reports evs1 ++ progress_reports evs2.
Proof. apply omap_app. Qed.

Lemma pauses_app evs1 evs2 : pauses (evs1 ++ evs2) = pauses evs1 ++ pauses evs2.
Proof. apply omap_app. Qed.

Lemma outline_app evs1 evs2 : outline (evs1 ++ evs2) = outline evs1 ++ outline evs2.
Proof. apply omap_app. Qed.

Lemma omap_none {A B} (f : A → option B) (l : list A) :
  (∀ x, x ∈ l → f x = None) → omap f l = [].
Proof.
  induction l as [|x l IH]; intros Hnone; [done|].
  cbn. rewrite (Hnone x) by left. apply IH. intros y Hy. apply Hnone. by right.
Qed.

Lemma progress_reports_batch_events bot msg batch :
  progress_reports (batch_events bot msg batch) = [].
Proof.
  apply omap_none. intros ev Hin.
  by destruct (batch_events_inv bot msg batch ev Hin)
    as [(? & -> & _)|(? & ? & ->)].
Qed.

Lemma pauses_batch_events bot msg batch :
  pauses (batch_events bot msg batch) = [].
Proof.
  apply omap_none. intros ev Hin.
  by destruct (batch_events_inv bot msg batch ev Hin)
    as [(? & -> & _)|(? & ? & ->)].
Qed.

(** One turn of the loop: the calls of the batch, its report, the pause
    when another batch follows, then the remaining batches. *)
Lemma run_batches_cons bot ctx msg total start batch rest t s :
  let t1 := tally_after bot msg batch t in
  let s1 := if bool_decide (rest ≠ [])
            then {| userRequests := userRequests s; wall := wall s + 1000 |}
            else s in
  let out := run_batches bot ctx msg total start rest t1 s1 in
  run_batches bot ctx msg total start (batch :: rest) t s
  = (result_of out, store_of out,
     batch_events bot msg batch
     ++ EvEdit (BroadcastProgress (successCount t1) (failureCount t1)
                  (Js.percent (processedCount t1) total)
                  (processedCount t1) total
                  (Js.round_div (wall s - start) 1000))
     :: (if bool_decide (rest ≠ []) then [EvSleep 1000] else [])
     ++ events_of out).
Proof.
  intros t1 s1 out. cbn [run_batches].
  set (progress := BroadcastProgress _ _ _ _ _ _).
  assert (Hedit : try_catch (editMessageText ctx progress)
                    (λ _ : Error, ret ()) s
                  = (Ok tt, s, [EvEdit progress])).
  { unfold try_catch, editMessageText, await_call; cbn.
    by destruct (ctx_editMessageText ctx progress). }
  rewrite (bind_Ok _ _ _ _ _ _ (send_batch_spec bot msg batch t s)).
  fold t1.
  rewrite (bind_Ok Date_now _ s (wall s) s [] eq_refl).
  fold progress.
  rewrite (bind_Ok _ _ _ _ _ _ Hedit).
  assert (Hpause : (if bool_decide (rest ≠ []) then sleep 1000 else ret ()) s
                   = (Ok tt, s1,
                      if bool_decide (rest ≠ []) then [EvSleep 1000] else [])).
  { subst s1. by case_bool_decide. }
  rewrite (bind_Ok _ _ _ _ _ _ Hpause).
  subst out. unfold result_of, store_of, events_of.
  by destruct (run_batches bot ctx msg total start rest t1 s1) as [[r s'] evs'].
Qed.

(** The run of the batches in full: the result, the reports and the
    pauses. *)
Lemma run_batches_events bot ctx msg total start batches : ∀ t s,
  let out := run_batches bot ctx msg total start batches t s in
  result_of out = Ok (tally_after bot msg (concat batches) t) ∧
  progress_reports (events_of out) = reports_from bot msg t batches ∧
  pauses (events_of out) = replicate (length batches - 1) 1000 ∧
  userRequests (store_of out) = userRequests s.
Proof.
  induction batches as [|batch rest IH]; intros t s.
  - cbn [run_batches]. unfold result_of, events_of, store_of, ret; cbn.
    by rewrite tally_after_nil.
  - cbn zeta. rewrite run_batches_cons. cbn zeta.
    set (t1 := tally_after bot msg batch t).
    set (s1 := if bool_decide (rest ≠ []) then _ else s).
    pose proof (IH t1 s1) as IH1. cbn zeta in IH1.
    assert (Hs1 : userRequests s1 = userRequests s).
    { subst s1. by case_bool_decide. }
    destruct (run_batches bot ctx msg total start rest t1 s1) as [[r s'] evs'].
    unfold result_of, store_of, events_of in *. cbn [fst snd] in *.
    destruct IH1 as (Hres & Hrep & Hpause & Hreq). subst r.
    rewrite Hreq, Hs1.
    rewrite progress_reports_app, progress_reports_batch_events.
    rewrite pauses_app, pauses_batch_events.
    cbn [app concat reports_from]. fold t1.
    split; [by rewrite tally_after_app|].
    destruct rest as [|batch' rest'].
    + rewrite bool_decide_eq_false_2 by (by intros ?).
      cbn [app]. cbn in Hrep, Hpause.
      change (progress_reports (EvEdit ?p :: ?l))
        with ((successCount t1, failureCount t1, processedCount t1)
                :: progress_reports l).
      change (pauses (EvEdit ?p :: ?l)) with (pauses l).
      by rewrite Hrep, Hpause.
    + rewrite bool_decide_eq_true_2 by done.
      cbn [app].
      change (progress_reports (EvEdit ?p :: EvSleep 1000 :: ?l))
        with ((successCount t1, failureCount t1, processedCount t1)
                :: progress_reports l).
      change (pauses (EvEdit ?p :: EvSleep 1000 :: ?l)) with (1000 :: pauses l).
      rewrite Hrep, Hpause. cbn. by rewrite !Nat.sub_0_r.
Qed.

(** The [k]-th report carries the counters after the first [k + 1]
    batches. *)
Lemma reports_from_lookup bot msg batches : ∀ t k r,
  reports_from bot msg t batches !! k = Some r →
  let t' := tally_after bot msg (concat (take (S k) batches)) t in
  r = (successCount t', failureCount t', processedCount t').
Proof.
  induction batches as [|batch rest IH]; intros t k r; [done|].
  destruct k as [|k]; cbn [reports_from lookup list_lookup].
  - intros [= <-]. cbn. by rewrite app_nil_r.
  - intros Hk. apply IH in Hk. cbn zeta in Hk.
    cbn [take concat]. by rewrite tally_after_app.
Qed.

Lemma reports_from_length bot msg batches : ∀ t,
  length (reports_from bot msg t batches) = length batches.
Proof.
  induction batches as [|batch rest IH]; intros t; [done|].
  cbn. by rewrite IH.
Qed.

(** The first [k] batches put end to end are the first [k * n]
    recipients. *)
Lemma batches_from_take {A} (users : list A) n : ∀ fuel i k,
  (0 < n)%nat → (length users - i ≤ fuel)%nat →
  concat (take k (batches_from fuel users n i)) = take (k * n) (drop i users).
Proof.
  induction fuel as [|fuel IH]; intros i k Hn Hfuel; cbn [batches_from].
  - rewrite take_nil. cbn. rewrite drop_ge by lia. by rewrite take_nil.
  - case_bool_decide as Hi.
    + destruct k as [|k]; [done|].
      cbn [take concat]. rewrite IH by lia.
      rewrite BatchFacts.slice_take_drop.
      rewrite <- (drop_drop users n i).
      by rewrite take_take_drop.
    + rewrite take_nil. cbn. rewrite drop_ge by lia. by rewrite take_nil.
Qed.

End ProgressFacts.

(** X10.  Progress is reported once per batch, in batch order, and only
    grows.  For batches of size [n > 0], the report after batch [k] (from
    0) shows [min ((k + 1) * n) (number of recipients)] processed
    recipients, its delivered and failed counts add up to that number, and
    the last report shows all recipients; this does not depend on the bot,
    nor on which deliveries or which earlier reports fail. *)
Theorem progress_reports_follow_batches (bot : Broadcast.Bot) (ctx : Ctx)
    (msg : Text) (total start : Z) (users : list User) (n : nat) (s : Store) :
  (0 < n)%nat →
  let batches := Broadcast.make_batches users n in
  let reports :=
    BroadcastMore.progress_reports
      (events_of (Broadcast.run_batches bot ctx msg total start batches
                    BroadcastSpec.zero s)) in
  length reports = length batches ∧
  ∀ k delivered failed processed,
    reports !! k = Some (delivered, failed, processed) →
    processed = Z.of_nat (Nat.min (S k * n) (length users)) ∧
    delivered + failed = processed ∧ 0 ≤ delivered ∧ 0 ≤ failed ∧
    (S k = length batches → processed = Z.of_nat (length users)).
Proof.
  intros Hn batches reports.
  destruct (ProgressFacts.run_batches_events bot ctx msg total start batches
              BroadcastSpec.zero s) as (_ & Hrep & _).
  fold reports in Hrep. rewrite Hrep.
  split; [apply ProgressFacts.reports_from_length|].
  intros k delivered failed processed Hk.
  assert (Hlt : (k < length batches)%nat).
  { apply lookup_lt_Some in Hk. by rewrite ProgressFacts.reports_from_length in Hk. }
  apply ProgressFacts.reports_from_lookup in Hk. cbn zeta in Hk.
  assert (Hfirst : concat (take (S k) batches) = take (S k * n) users).
  { subst batches. unfold Broadcast.make_batches.
    rewrite ProgressFacts.batches_from_take by lia. done. }
  rewrite Hfirst in Hk.
  remember (S k * n)%nat as m eqn:Hm in *.
  pose proof (DeliveryFacts.tally_after_total bot msg (take m users)
                BroadcastSpec.zero) as Htotal.
  injection Hk as -> -> ->.
  unfold BroadcastSpec.tally_after, BroadcastSpec.zero in *.
  cbn [Broadcast.successCount Broadcast.failureCount Broadcast.processedCount] in *.
  rewrite length_take in *.
  split; [lia|]. split; [lia|]. split; [lia|]. split; [lia|].
  intros Hlast. subst m.
  pose proof (BatchFacts.batches_from_length users n (length users) 0 Hn
                ltac:(lia)) as [_ Hup].
  fold (Broadcast.make_batches users n) in Hup. fold batches in Hup.
  rewrite <- Hlast in Hup. lia.
Qed.

Lemma progress_reports_follow_batches_witness :
  let users := Samples.person <$> [1; 2; 3; 4; 5] in
  let bot := Samples.telegraf [2] (λ _, 0%nat) in
  let ctx := Samples.broadcast_update_no_progress "/broadcast hello" in
  let batches := Broadcast.make_batches users 2 in
  let reports :=
    BroadcastMore.progress_reports
      (events_of (Broadcast.run_batches bot ctx (BroadcastMessage "hello") 5 0
                    batches BroadcastSpec.zero Samples.fresh)) in
  length reports = length batches ∧
  ∀ k delivered failed processed,
    reports !! k = Some (delivered, failed, processed) →
    processed = Z.of_nat (Nat.min (S k * 2) (length users)) ∧
    delivered + failed = processed ∧ 0 ≤ delivered ∧ 0 ≤ failed ∧
    (S k = length batches → processed = Z.of_nat (length users)).
Proof.
  intros users bot ctx.
  apply (progress_reports_follow_batches bot ctx (BroadcastMessage "hello") 5 0
           users 2 Samples.fresh).
  lia.
Defined.

(** Five recipients in batches of two, the second recipient unreachable:
    the three reports, with a bot that has a client and with the bot of
    the command. *)
Example progress_reports_sample :
  BroadcastMore.progress_reports
    (events_of (Broadcast.run_batches
                  (Samples.telegraf [2] (λ _, 0%nat))
                  (Samples.broadcast_update "/broadcast hello" [])
                  (BroadcastMessage "hello") 5 0
                  (Broadcast.make_batches (Samples.person <$> [1; 2; 3; 4; 5]) 2)
                  BroadcastSpec.zero Samples.fresh))
  = [(1, 1, 2); (3, 1, 4); (4, 1, 5)] ∧
  BroadcastMore.progress_reports
    (events_of (Broadcast.run_batches
                  Broadcast.TelegramClient
                  (Samples.broadcast_update "/broadcast hello" [])
                  (BroadcastMessage "hello") 5 0
                  (Broadcast.make_batches (Samples.person <$> [1; 2; 3; 4; 5]) 2)
                  BroadcastSpec.zero Samples.fresh))
  = [(0, 2, 2); (0, 4, 4); (0, 5, 5)].
Proof. vm_compute. split; reflexivity. Qed.

Module OutlineFacts.
Import Broadcast BroadcastSpec BroadcastMore DeliveryFacts.

(** The number of batches the loop builds. *)
Lemma make_batches_length {A} (users : list A) n :
  (0 < n)%nat →
  length (make_batches users n) = batch_count (length users) n.
Proof.
  intros Hn.
  destruct (BatchFacts.batches_from_length users n (length users) 0 Hn
              ltac:(lia)) as [Hlo Hup].
  fold (make_batches users n) in Hlo, Hup.
  unfold batch_count.
  apply (Nat.div_unique _ _ _
           (length users + n - 1 - n * length (make_batches users n))); lia.
Qed.

(** The batches are the consecutive slices of the snapshot. *)
Lemma make_batches_seq {A} (users : list A) n :
  (0 < n)%nat →
  make_batches users n
  = batch_at users n <$> seq 0 (batch_count (length users) n).
Proof.
  intros Hn. apply list_eq. intros k.
  rewrite list_lookup_fmap.
  destruct (decide (k < batch_count (length users) n)%nat) as [Hk|Hk].
  - rewrite lookup_seq_lt by done. cbn.
    destruct (lookup_lt_is_Some_2 (make_batches users n) k) as [b Hb].
    { by rewrite make_batches_length. }
    rewrite Hb. unfold make_batches in Hb.
    by apply BatchFacts.batches_from_lookup in Hb as [-> _]; [|lia..].
  - rewrite lookup_seq_ge by lia. cbn.
    apply lookup_ge_None_2. rewrite make_batches_length by done. lia.
Qed.

Lemma batch_at_length {A} (users : list A) n k :
  length (batch_at users n k) = Nat.min n (length users - k * n).
Proof. unfold batch_at. by rewrite length_take, length_drop. Qed.

(** Without a client a batch leaves one failure record per recipient, in
    the order of the batch. *)
Lemma outline_batch_events_client msg batch :
  outline (batch_events TelegramClient msg batch)
  = (λ u, Failed (user_id u) (message (TypeError_undefined "sendMessage")))
      <$> batch.
Proof.
  unfold batch_events. cbn [bot_telegram].
  induction batch as [|u batch IH]; [done|].
  cbn [fmap list_fmap concat]. rewrite ProgressFacts.outline_app, IH. done.
Qed.

(** The steps of the batches from number [j] on, for the bot of the
    command. *)
Lemma run_batches_unsent_outline ctx msg total start (users : list User) n :
  (0 < n)%nat →
  ∀ m j t s,
    (j + m = batch_count (length users) n)%nat →
    successCount t = 0 →
    failureCount t = Z.of_nat (Nat.min (j * n) (length users)) →
    processedCount t = Z.of_nat (Nat.min (j * n) (length users)) →
    outline (events_of (run_batches TelegramClient ctx msg total start
                          (batch_at users n <$> seq j m) t s))
    = concat
        ((λ k,
            ((λ u, Failed (user_id u) (message (TypeError_undefined "sendMessage")))
               <$> batch_at users n k)
            ++ [let processed := Z.of_nat (Nat.min (S k * n) (length users)) in
                Report 0 processed processed]
            ++ (if bool_decide (S k < batch_count (length users) n)%nat
                then [Pause 1000] else []))
           <$> seq j m).
Proof.
  intros Hn. induction m as [|m IH]; intros j t s Hjm Hok Hfailed Hprocessed.
  - done.
  - cbn [seq fmap list_fmap concat]. rewrite ProgressFacts.run_batches_cons.
    cbn zeta. unfold events_of at 1. cbn [snd].
    rewrite ProgressFacts.outline_app, outline_batch_events_client.
    rewrite <- app_assoc. f_equal.
    set (t1 := tally_after TelegramClient msg (batch_at users n j) t).
    assert (Ht1 : successCount t1 = 0 ∧
                  failureCount t1 = Z.of_nat (Nat.min (S j * n) (length users)) ∧
                  processedCount t1 = Z.of_nat (Nat.min (S j * n) (length users))).
    { subst t1. rewrite tally_after_client.
      cbn [successCount failureCount processedCount].
      rewrite batch_at_length, Hfailed, Hprocessed.
      rewrite Nat.mul_succ_l. lia. }
    destruct Ht1 as (Hok1 & Hfailed1 & Hprocessed1).
    change (outline (EvEdit ?p :: ?l))
      with (Report (successCount t1) (failureCount t1) (processedCount t1)
              :: outline l).
    rewrite Hok1, Hfailed1, Hprocessed1. cbn [app]. f_equal.
    rewrite ProgressFacts.outline_app.
    assert (Hrest : (batch_at users n <$> seq (S j) m ≠ []) ↔
                    (S j < batch_count (length users) n)%nat).
    { destruct m as [|m]; cbn; split; try done; lia. }
    f_equal.
    + case_bool_decide as H1; case_bool_decide as H2; try done.
      * by apply Hrest in H1.
      * by apply Hrest in H2.
    + apply IH; [lia|done..].
Qed.

End OutlineFacts.

(** X11.  The command works through the snapshot in consecutive batches
    of 30, one batch after the other, and pauses for 1000 ms between two
    batches and nowhere else.  Once the broadcast has started, its steps
    are, for batch [k] (from 0) of the [ceil(recipients / 30)] batches: the
    failure records of recipients [30 k] to [30 k + 29] of the snapshot,
    in order and one each; then the report, which shows
    [min (30 (k + 1)) recipients] processed and failed; then, unless the
    batch is the last one, the pause. *)
Theorem pauses_between_batches (config : Config) (allUsers : list User)
    (ctx : Ctx) (user : User) (messageText broadcastMessage : string)
    (s : Store) :
  ctx_from ctx = Some user →
  ctx_message_text ctx = Some messageText →
  BroadcastSpec.carries messageText broadcastMessage →
  allUsers ≠ [] →
  BroadcastSpec.announced ctx broadcastMessage (length allUsers) →
  Broadcast.batchSize = 30%nat ∧
  BroadcastMore.outline (events_of (Broadcast.execute config allUsers ctx s))
  = BroadcastMore.unsent_outline
      (message (TypeError_undefined "sendMessage")) allUsers 30.
Proof.
  intros Hfrom Htext Hcarries Hne Hann. split; [reflexivity|].
  destruct (ExecuteFacts.execute_job config allUsers ctx user messageText
              broadcastMessage s Hfrom Htext Hcarries Hne Hann)
    as (s' & mid & completionTime & Hrun & _ & _ & Hexec).
  cbn zeta in Hexec, Hrun.
  assert (Hmid : BroadcastMore.outline mid
                 = BroadcastMore.unsent_outline
                     (message (TypeError_undefined "sendMessage")) allUsers 30).
  { pose proof (OutlineFacts.run_batches_unsent_outline ctx
                  (BroadcastMessage broadcastMessage)
                  (Z.of_nat (length allUsers)) (wall s) allUsers 30 ltac:(lia)
                  (BroadcastMore.batch_count (length allUsers) 30) 0%nat
                  BroadcastSpec.zero s) as Houtline.
    rewrite <- OutlineFacts.make_batches_seq in Houtline by lia.
    unfold Broadcast.ctx_telegram in Hrun.
    change Broadcast.batchSize with 30%nat in Hrun.
    rewrite Hrun in Houtline.
    apply Houtline; done. }
  assert (Hhead : ∀ u m t,
            BroadcastMore.outline (BroadcastSpec.job_head u m t) = [])
    by done.
  assert (Hfinal : ∀ l t n c tail,
            BroadcastMore.outline (EvEdit (BroadcastSpec.final_report l t n c) :: tail)
            = BroadcastMore.outline tail) by done.
  rewrite Hexec.
  destruct (ctx_editMessageText ctx _) as [error|].
  - rewrite ExecuteFacts.execute_catch_spec. unfold events_of; cbn [snd].
    rewrite !ProgressFacts.outline_app, Hhead, Hmid, Hfinal.
    cbn [app]. by rewrite !app_nil_r.
  - unfold events_of; cbn [snd].
    rewrite !ProgressFacts.outline_app, Hhead, Hmid, Hfinal.
    cbn [app]. by rewrite app_nil_r.
Qed.

Lemma pauses_between_batches_witness :
  Broadcast.batchSize = 30%nat ∧
  BroadcastMore.outline
    (events_of
       (Broadcast.execute (Samples.config_with 5) (Samples.people 61)
          (Samples.broadcast_update "/broadcast hello" []) Samples.fresh))
  = BroadcastMore.unsent_outline
      (message (TypeError_undefined "sendMessage")) (Samples.people 61) 30.
Proof.
  apply (pauses_between_batches (Samples.config_with 5) (Samples.people 61)
           (Samples.broadcast_update "/broadcast hello" []) (Samples.person 2)
           "/broadcast hello"%string "hello"%string Samples.fresh).
  - reflexivity.
  - reflexivity.
  - unfold BroadcastSpec.carries. vm_compute. repeat split; [lia|discriminate].
  - discriminate.
  - split; reflexivity.
Defined.

(** 61 recipients make three batches and two pauses. *)
Example pauses_of_the_command :
  BroadcastMore.pauses
    (events_of (Broadcast.execute (Samples.config_with 5) (Samples.people 61)
                  (Samples.broadcast_update "/broadcast hello" []) Samples.fresh))
  = [1000; 1000] ∧
  BroadcastMore.rhythm
    (BroadcastMore.unsent_outline "x" (Samples.people 61) 30)
  = [BroadcastMore.Report 0 30 30; BroadcastMore.Pause 1000;
     BroadcastMore.Report 0 60 60; BroadcastMore.Pause 1000;
     BroadcastMore.Report 0 61 61].
Proof. vm_compute. split; reflexivity. Qed.

(** ** Broadcast: the text of the command *)

Module StrFacts.
Import BroadcastMore.

Lemma split_nonempty c s : Str.split c s ≠ [].
Proof.
  destruct s as [|a r]; cbn; [done|].
  case_bool_decide; [done|]. by destruct (Str.split c r).
Qed.

(** [split] gives one part more than there are separators. *)
Lemma split_length c s : length (Str.split c s) = S (occurrences c s).
Proof.
  induction s as [|a r IH]; cbn; [done|].
  case_bool_decide; cbn; [by rewrite IH|].
  destruct (Str.split c r) as [|w ws] eqn:E; [by apply split_nonempty in E|].
  cbn in *. lia.
Qed.

Lemma join_cons_char sep a w ws :
  Str.join sep (String a w :: ws) = String a (Str.join sep (w :: ws)).
Proof. by destruct ws. Qed.

(** Joining the parts with the separator gives the string back. *)
Lemma join_split c s : Str.join (String c EmptyString) (Str.split c s) = s.
Proof.
  induction s as [|a r IH]; cbn [Str.split]; [done|].
  case_bool_decide as Hc.
  - destruct (Str.split c r) as [|w ws] eqn:E; [by apply split_nonempty in E|].
    rewrite Hc.
    change (String c (Str.join (String c EmptyString) (w :: ws)) = String c r).
    by rewrite IH.
  - destruct (Str.split c r) as [|w ws] eqn:E; [by apply split_nonempty in E|].
    rewrite join_cons_char. by rewrite IH.
Qed.

(** [parts.slice(1).join(sep)] is what follows the first separator. *)
Lemma join_rest c s :
  Str.join (String c EmptyString) (drop 1 (Str.split c s)) = after_first c s.
Proof.
  induction s as [|a r IH]; cbn [Str.split after_first]; [done|].
  case_bool_decide as Hc.
  - cbn [drop]. apply join_split.
  - destruct (Str.split c r) as [|w ws] eqn:E; [by apply split_nonempty in E|].
    cbn [drop] in *. exact IH.
Qed.

(** The test of the command on its text, in terms of the text. *)
Lemma carries_iff messageText broadcastMessage :
  BroadcastSpec.carries messageText broadcastMessage ↔
  occurrences " " messageText ≠ 0%nat ∧
  broadcastMessage = Str.trim (after_first " " messageText) ∧
  broadcastMessage ≠ ""%string.
Proof.
  unfold BroadcastSpec.carries. rewrite split_length.
  change " "%string with (String " "%char EmptyString).
  rewrite join_rest. intuition lia.
Qed.

(** Without a separator nothing follows. *)
Lemma after_first_none c s : occurrences c s = 0%nat → after_first c s = ""%string.
Proof.
  induction s as [|a r IH]; cbn; [done|].
  case_bool_decide; [done|]. intros Hr. apply IH. lia.
Qed.

End StrFacts.

(** X12.  A broadcast command without a message does nothing but answer.
    When the text of the command has no space, or nothing but white space
    after its first space, the command replies that the parameter is
    missing (no space) or that the message is empty, and that is all: no
    [admin_command] record is logged and no delivery is attempted,
    whatever the snapshot holds.  Only when that reply is rejected does the
    command go on, to log an [admin_command_error] record and to send the
    generic error text. *)
Theorem broadcast_needs_a_message (config : Config) (allUsers : list User)
    (ctx : Ctx) (user : User) (messageText : string) (s : Store) :
  ctx_from ctx = Some user →
  ctx_message_text ctx = Some messageText →
  Str.trim (BroadcastMore.after_first " " messageText) = ""%string →
  let answer :=
    if bool_decide (BroadcastMore.occurrences " " messageText = 0%nat)
    then Localized (userLang_of config (user_language_code user))
           "errors.missing_parameter" [("parameter"%string, PStr "message")]
    else EmptyBroadcast in
  let general :=
    Localized (userLang_of config (user_language_code user))
      "errors.general" [] in
  let out := Broadcast.execute config allUsers ctx s in
  store_of out = s ∧
  match ctx_reply ctx answer with
  | None => result_of out = Ok tt ∧ events_of out = [EvReply answer]
  | Some error =>
      result_of out = match ctx_reply ctx general with
                      | None => Ok tt
                      | Some error' => Throw error'
                      end ∧
      events_of out
      = [EvReply answer;
         EvLog (admin_command_error "/broadcast" (Some (user_id user))
                  (user_username user) (message error));
         EvReply general]
  end.
Proof.
  intros Hfrom Htext Hblank answer general out.
  assert (Htry : Broadcast.execute_try config allUsers ctx s
                 = (match ctx_reply ctx answer with
                    | None => Ok tt
                    | Some error => Throw error
                    end, s, [EvReply answer])).
  { unfold Broadcast.execute_try, get_from.
    rewrite Hfrom, Htext. cbn [bind ret].
    rewrite StrFacts.split_length. subst answer.
    destruct (decide (BroadcastMore.occurrences " " messageText = 0%nat))
      as [Hnone|Hsome].
    - rewrite Hnone. rewrite bool_decide_eq_true_2 by lia.
      rewrite (bool_decide_eq_true_2 (0 = 0)%nat) by done.
      unfold reply, await_call. by destruct (ctx_reply ctx _).
    - rewrite bool_decide_eq_false_2 by lia.
      rewrite (bool_decide_eq_false_2 _ Hsome).
      change " "%string with (String " "%char EmptyString).
      rewrite StrFacts.join_rest, Hblank.
      rewrite bool_decide_eq_true_2 by done.
      unfold reply, await_call. by destruct (ctx_reply ctx _). }
  subst out. unfold Broadcast.execute.
  destruct (ctx_reply ctx answer) as [error|].
  - rewrite (try_catch_Throw _ _ _ _ _ _ Htry).
    rewrite ExecuteFacts.execute_catch_spec. rewrite Hfrom. cbn [fmap option_fmap
      option_map mbind option_bind].
    fold general. unfold store_of, result_of, events_of; cbn [fst snd].
    done.
  - rewrite (try_catch_Ok _ _ _ _ _ _ Htry).
    unfold store_of, result_of, events_of; cbn [fst snd]. done.
Qed.

Lemma broadcast_needs_a_message_witness :
  let config := Samples.config_with 5 in
  let users := Samples.people 2 in
  (Broadcast.execute config users (Samples.broadcast_update "/broadcast" [])
     Samples.fresh
   = (Ok tt, Samples.fresh,
      [EvReply (Localized "en" "errors.missing_parameter"
                  [("parameter"%string, PStr "message")])])) ∧
  (events_of
     (Broadcast.execute config users
        (Samples.update_unreachable 2 "/broadcast   ") Samples.fresh)
   = [EvReply EmptyBroadcast;
      EvLog (admin_command_error "/broadcast" (Some 2) None
               "Forbidden: bot was blocked by the user");
      EvReply (Localized "en" "errors.general" [])]).
Proof.
  intros config users. split.
  - destruct (broadcast_needs_a_message config users
                (Samples.broadcast_update "/broadcast" [])
                (Samples.person 2) "/broadcast" Samples.fresh
                eq_refl eq_refl eq_refl) as (Hstore & Hres & Hevs).
    destruct (Broadcast.execute config users
                (Samples.broadcast_update "/broadcast" []) Samples.fresh)
      as [[r s'] evs].
    unfold store_of, result_of, events_of in *. cbn [fst snd] in *.
    by rewrite Hstore, Hres, Hevs.
  - destruct (broadcast_needs_a_message config users
                (Samples.update_unreachable 2 "/broadcast   ")
                (Samples.person 2) "/broadcast   " Samples.fresh
                eq_refl eq_refl eq_refl) as (_ & _ & Hevs).
    exact Hevs.
Defined.

(** The no-break space is white space: a command that carries nothing
    else is answered in the same way. *)
Example broadcast_of_a_no_break_space :
  let text := ("/broadcast " +:+ String (ascii_of_nat 194)
                                  (String (ascii_of_nat 160) ""))%string in
  Broadcast.execute (Samples.config_with 5) (Samples.people 2)
    (Samples.broadcast_update text []) Samples.fresh
  = (Ok tt, Samples.fresh, [EvReply EmptyBroadcast]).
Proof. vm_compute. reflexivity. Qed.

(** X13.  The message of a broadcast is the text that follows the first
    space of the command, with the white space at its two ends removed and
    everything in between kept as typed.  When that text is not empty and
    there are recipients, the command first logs an [admin_command] record
    with the length of this message, then asks for confirmation with
    exactly this message and the number of recipients. *)
Theorem broadcast_message_is_rest_of_command (config : Config)
    (allUsers : list User) (ctx : Ctx) (user : User) (messageText : string)
    (s : Store) :
  ctx_from ctx = Some user →
  ctx_message_text ctx = Some messageText →
  let broadcastMessage := Str.trim (BroadcastMore.after_first " " messageText) in
  broadcastMessage ≠ ""%string →
  allUsers ≠ [] →
  ∃ tail,
    events_of (Broadcast.execute config allUsers ctx s)
    = EvLog (admin_command "/broadcast" (user_id user)
               (Js.or_str (user_username user) "Unknown")
               (Some (Z.of_nat (Str.length broadcastMessage))))
      :: EvReply (BroadcastConfirmation broadcastMessage
                    (Z.of_nat (length allUsers)))
      :: tail.
Proof.
  intros Hfrom Htext broadcastMessage Hnonempty Hne.
  assert (Hspace : BroadcastMore.occurrences " " messageText ≠ 0%nat).
  { intros Hnone. apply Hnonempty. subst broadcastMessage.
    by rewrite StrFacts.after_first_none. }
  assert (Hreply : ∀ t s0, events_of (reply ctx t s0) = [EvReply t]).
  { intros t s0. unfold reply, await_call, emit, bind, events_of.
    by destruct (ctx_reply ctx t). }
  assert (Htry : Broadcast.execute_try config allUsers ctx s
                 = (logger_log
                      (admin_command "/broadcast" (user_id user)
                         (Js.or_str (user_username user) "Unknown")
                         (Some (Z.of_nat (Str.length broadcastMessage)))) ;;
                    Broadcast.dispatch ctx user
                      (userLang_of config (user_language_code user))
                      broadcastMessage allUsers)%js s).
  { unfold Broadcast.execute_try, get_from.
    rewrite Hfrom, Htext. cbn [bind ret].
    rewrite StrFacts.split_length.
    rewrite bool_decide_eq_false_2 by lia.
    change " "%string with (String " "%char EmptyString).
    rewrite StrFacts.join_rest. fold broadcastMessage.
    rewrite bool_decide_eq_false_2 by done.
    rewrite (bool_decide_eq_false_2 (length allUsers = 0%nat))
      by (by destruct allUsers).
    apply let_nil. }
  unfold Broadcast.execute.
  destruct (try_catch_prefix (Broadcast.execute_try config allUsers ctx)
              (Broadcast.execute_catch config ctx) s) as (tail1 & ->).
  rewrite Htry.
  match goal with
  | |- context [bind (logger_log ?r) ?k s] =>
      destruct (bind_prefix (logger_log r) k s tt s [EvLog r] eq_refl)
        as (tail2 & -> & Htail2)
  end.
  cbn beta in Htail2. unfold Broadcast.dispatch in Htail2.
  match type of Htail2 with
  | context [bind (reply ctx ?t) ?k s] =>
      destruct (bind_events (reply ctx t) k s) as (tail3 & Htail3)
  end.
  rewrite Htail3, Hreply in Htail2. subst tail2.
  cbn. eauto.
Qed.

Lemma broadcast_message_is_rest_of_command_witness :
  ∃ tail,
    events_of (Broadcast.execute (Samples.config_with 5) (Samples.people 2)
                 (Samples.broadcast_update "/broadcast  hello   big world " [])
                 Samples.fresh)
    = EvLog (admin_command "/broadcast" 2 "Unknown"
               (Some (Z.of_nat (Str.length
                  (Str.trim (BroadcastMore.after_first " "
                               "/broadcast  hello   big world "))))))
      :: EvReply (BroadcastConfirmation
                    (Str.trim (BroadcastMore.after_first " "
                                 "/broadcast  hello   big world "))
                    (Z.of_nat (length (Samples.people 2))))
      :: tail.
Proof.
  apply (broadcast_message_is_rest_of_command (Samples.config_with 5)
           (Samples.people 2)
           (Samples.broadcast_update "/broadcast  hello   big world " [])
           (Samples.person 2) "/broadcast  hello   big world " Samples.fresh).
  - reflexivity.
  - reflexivity.
  - vm_compute. discriminate.
  - discriminate.
Defined.

(** The message of the witness. *)
Example broadcast_message_sample :
  Str.trim (BroadcastMore.after_first " " "/broadcast  hello   big world ")
  = "hello   big world"%string.
Proof. vm_compute. reflexivity. Qed.

(** ** Broadcast: how the command ends *)

Module OutcomeFacts.
Import Broadcast BroadcastSpec BroadcastText.
Section WithConfig.
Variable config : Config.

Lemma harmless_bind {A B} (m : M A) (k : A → M B) s :
  harmless (m s) s →
  (∀ a s1, userRequests s1 = userRequests s → harmless (k a s1) s1) →
  harmless (bind m k s) s.
Proof.
  unfold harmless, bind, result_of, store_of. intros [Hexit Hreq] Hk.
  destruct (m s) as [[[a|e|c] s1] e1]; cbn [fst snd] in *.
  - destruct (Hk a s1 Hreq) as [Hexit2 Hreq2].
    destruct (k a s1) as [[r s2] e2]; cbn [fst snd] in *.
    split; [done|congruence].
  - done.
  - by destruct (Hexit c).
Qed.

Lemma await_call_harmless ev outcome s : harmless (await_call ev outcome s) s.
Proof.
  unfold await_call, emit, harmless, result_of, store_of; cbn.
  by destruct outcome.
Qed.

Lemma reply_harmless ctx t s : harmless (reply ctx t s) s.
Proof. apply await_call_harmless. Qed.

Lemma editMessageText_harmless ctx t s : harmless (editMessageText ctx t s) s.
Proof. apply await_call_harmless. Qed.

Lemma logger_log_harmless r s : harmless (logger_log r s) s.
Proof. by unfold logger_log, emit, harmless, result_of, store_of; cbn. Qed.

Lemma Date_now_harmless s : harmless (Date_now s) s.
Proof. by unfold Date_now, harmless, result_of, store_of; cbn. Qed.

Lemma ret_harmless {A} (a : A) s : harmless (ret a s) s.
Proof. by unfold ret, harmless, result_of, store_of; cbn. Qed.

Lemma throw_harmless {A} e s : harmless (@throw A e s) s.
Proof. by unfold throw, harmless, result_of, store_of; cbn. Qed.

Lemma run_batches_harmless bot ctx msg total start batches t s :
  harmless (run_batches bot ctx msg total start batches t s) s.
Proof.
  destruct (ProgressFacts.run_batches_events bot ctx msg total start batches t s)
    as (Hres & _ & _ & Hreq).
  split; [|done]. intros code. by rewrite Hres.
Qed.

Lemma dispatch_harmless ctx user userLang broadcastMessage users s :
  harmless (dispatch ctx user userLang broadcastMessage users s) s.
Proof.
  unfold dispatch.
  apply harmless_bind; [apply reply_harmless|intros _ s1 _].
  apply harmless_bind; [apply reply_harmless|intros _ s2 _].
  apply harmless_bind; [apply Date_now_harmless|intros startTime s3 _].
  apply harmless_bind; [apply run_batches_harmless|intros t s4 _].
  apply harmless_bind; [apply Date_now_harmless|intros now s5 _].
  apply harmless_bind; [apply editMessageText_harmless|intros _ s6 _].
  apply logger_log_harmless.
Qed.

Lemma execute_try_harmless allUsers ctx s :
  harmless (execute_try config allUsers ctx s) s.
Proof.
  unfold execute_try, get_from.
  apply harmless_bind.
  { destruct (ctx_from ctx); [apply ret_harmless|apply throw_harmless]. }
  intros user s1 _.
  destruct (ctx_message_text ctx) as [messageText|]; [|apply throw_harmless].
  case_bool_decide.
  { apply harmless_bind; [apply reply_harmless|intros; apply ret_harmless]. }
  case_bool_decide.
  { apply harmless_bind; [apply reply_harmless|intros; apply ret_harmless]. }
  apply harmless_bind; [apply logger_log_harmless|intros _ s2 _].
  case_bool_decide.
  { apply harmless_bind; [apply reply_harmless|intros; apply ret_harmless]. }
  apply dispatch_harmless.
Qed.

End WithConfig.
End OutcomeFacts.

(** X14.  The broadcast command never ends the process and never touches
    the flood-control map.  It ends with an error only when the generic
    error reply of its [catch] block is itself rejected; the
    [admin_command_error] record has then been logged. *)
Theorem broadcast_ends_quietly (config : Config) (allUsers : list User)
    (ctx : Ctx) (s : Store) :
  let out := Broadcast.execute config allUsers ctx s in
  (∀ code, result_of out ≠ Exited code) ∧
  userRequests (store_of out) = userRequests s ∧
  ∀ error, result_of out = Throw error →
    ctx_reply ctx
      (Localized (userLang_of config (ctx_from ctx ≫= user_language_code))
         "errors.general" []) = Some error ∧
    ∃ cause,
      EvLog (admin_command_error "/broadcast" (user_id <$> ctx_from ctx)
               (ctx_from ctx ≫= user_username) (message cause))
        ∈ events_of out.
Proof.
  intros out. subst out.
  destruct (OutcomeFacts.execute_try_harmless config allUsers ctx s) as [Hexit Hreq].
  unfold Broadcast.execute, try_catch.
  destruct (Broadcast.execute_try config allUsers ctx s) as [[r s1] e1].
  unfold result_of, store_of in Hexit, Hreq. cbn [fst snd] in Hexit, Hreq.
  destruct r as [[]|cause|code].
  - unfold result_of, store_of, events_of; cbn. done.
  - rewrite ExecuteFacts.execute_catch_spec.
    unfold result_of, store_of, events_of; cbn [fst snd].
    split; [by destruct (ctx_reply ctx _)|]. split; [done|].
    intros error Herr. split.
    + by destruct (ctx_reply ctx _) as [e|]; [injection Herr as ->|].
    + exists cause. apply elem_of_app. right. apply list_elem_of_here.
  - by destruct (Hexit code).
Qed.

(** A context without a sender, in a chat that cannot be written to: the
    command logs the error and is itself rejected. *)
Example broadcast_rejected :
  let ctx := {| ctx_from := None; ctx_message_text := Some "/broadcast hi"%string;
                ctx_reply := λ _, Some Samples.blocked;
                ctx_sendMessage := λ _ _, None;
                ctx_editMessageText := λ _, None |} in
  Broadcast.execute (Samples.config_with 5) [Samples.person 1] ctx Samples.fresh
  = (Throw Samples.blocked, Samples.fresh,
     [EvLog (admin_command_error "/broadcast" None None
               "Cannot read properties of undefined (reading 'language_code')");
      EvReply (Localized "en" "errors.general" [])]).
Proof. vm_compute. reflexivity. Qed.

(** ** The log file over many calls *)

Module LogWindowFacts.
Import Logger LoggerMore.




(** A call is its two halves, one run after the other. *)
Lemma log_halves disk isoNow logData file :
  log_commit disk (log_prepare disk isoNow logData file).2
    (log_prepare disk isoNow logData file).1
  = log disk isoNow logData file.
Proof. reflexivity. Qed.

End LogWindowFacts.



(** X16.  A log file that cannot be read is not kept: when the read fails,
    or the file holds no JSON array, a call of [log] whose write goes
    through leaves the new record as the only entry.  Whatever the file
    held is gone. *)
Theorem log_restarts_unreadable_file (disk : Logger.Disk) (isoNow : string)
    (logData : Logger.Entry) (file : Logger.LogFile) :
  Logger.write_ok disk = true →
  Logger.read_ok disk = false ∨ (∀ logs, file ≠ Logger.Logs logs) →
  Logger.log disk isoNow logData file
  = Logger.Logs [Logger.stamp isoNow logData].
Proof.
  intros Hw Hbad. rewrite LoggerFacts.log_written by done.
  assert (Logger.read_logs disk (Logger.initializeLogFile disk file) = [])
    as ->.
  { unfold Logger.read_logs, Logger.initializeLogFile.
    destruct Hbad as [->|Hbad]; [done|].
    destruct (Logger.read_ok disk); [|done].
    destruct (Logger.init_ok disk), file as [| | |logs]; try done;
      by destruct (Hbad logs). }
  rewrite LoggerFacts.slice_last_all; [done|].
  cbn [app length]. pose proof LoggerFacts.maxLogsPerFile_pos. lia.
Qed.

Lemma log_restarts_unreadable_file_witness :
  Logger.log {| Logger.init_ok := true; Logger.read_ok := false;
                Logger.write_ok := true |}
    "now" (Samples.entry 3)
    (Logger.Logs [Samples.entry 1; Samples.entry 2])
  = Logger.Logs [Logger.stamp "now" (Samples.entry 3)].
Proof.
  apply (log_restarts_unreadable_file
           {| Logger.init_ok := true; Logger.read_ok := false;
              Logger.write_ok := true |}
           "now" (Samples.entry 3)
           (Logger.Logs [Samples.entry 1; Samples.entry 2])).
  - reflexivity.
  - left. reflexivity.
Defined.

(** ** The users file *)

Module UsersFacts.
Import FileHelper.

Lemma findIndex_app userId pre l :
  passed_over userId pre →
  findIndex userId (pre ++ l)
  = match findIndex userId l with
    | Some (Some i) => Some (Some (length pre + i)%nat)
    | other => other
    end.
Proof.
  induction 1 as [|e pre He _ IH]; cbn [app findIndex length].
  - by destruct (findIndex userId l) as [[i|]|].
  - rewrite He, IH. by destruct (findIndex userId l) as [[i|]|].
Qed.

Lemma find_app userId pre l :
  passed_over userId pre → find userId (pre ++ l) = find userId l.
Proof.
  induction 1 as [|e pre He _ IH]; cbn [app find]; [done|]. by rewrite He.
Qed.

Lemma id_is_true userId e :
  id_is userId e = Some true ↔
  ∃ o, e = EObj o ∧ o !! "id"%string = Some (VNum userId).
Proof.
  destruct e as [| |o]; cbn.
  - split; [done|]. by intros (o & ? & _).
  - split; [done|]. by intros (o & ? & _).
  - split.
    + intros [= H]. apply bool_decide_eq_true in H. by exists o.
    + intros (o' & [= <-] & H). by rewrite bool_decide_eq_true_2.
Qed.

Lemma id_is_other userId other o :
  o !! "id"%string = Some (VNum userId) → other ≠ userId →
  id_is other (EObj o) = Some false.
Proof.
  intros Hid Hne. cbn. rewrite bool_decide_eq_false_2; [done|].
  rewrite Hid. intros [= ->]. done.
Qed.

Lemma findIndex_found userId users : ∀ i,
  findIndex userId users = Some (Some i) →
  ∃ pre o post,
    users = pre ++ EObj o :: post ∧ length pre = i ∧
    passed_over userId pre ∧ o !! "id"%string = Some (VNum userId).
Proof.
  induction users as [|e users IH]; intros i; cbn [findIndex]; [done|].
  destruct (id_is userId e) as [[|]|] eqn:He; [| |done].
  - intros [= <-]. apply id_is_true in He as (o & -> & Hid).
    exists [], o, users. repeat split; try done. apply Forall_nil_2.
  - destruct (findIndex userId users) as [[j|]|]; try done.
    intros [= <-].
    destruct (IH j eq_refl) as (pre & o & post & -> & <- & Hpre & Hid).
    exists (e :: pre), o, post. repeat split; try done.
    by apply Forall_cons_2.
Qed.

Lemma findIndex_absent userId users :
  findIndex userId users = Some None → passed_over userId users.
Proof.
  induction users as [|e users IH]; cbn [findIndex]; [intros; apply Forall_nil_2|].
  destruct (id_is userId e) as [[|]|] eqn:He; try done.
  destruct (findIndex userId users) as [[j|]|]; try done.
  intros _. apply Forall_cons_2; [done|by apply IH].
Qed.

Lemma findIndex_known userId pre o post :
  passed_over userId pre → o !! "id"%string = Some (VNum userId) →
  findIndex userId (pre ++ EObj o :: post) = Some (Some (length pre)).
Proof.
  intros Hpre Hid. rewrite findIndex_app by done. cbn [findIndex id_is].
  rewrite bool_decide_eq_true_2 by done. by rewrite Nat.add_0_r.
Qed.

Lemma find_known userId pre o post :
  passed_over userId pre → o !! "id"%string = Some (VNum userId) →
  find userId (pre ++ EObj o :: post) = Some (Some (EObj o)).
Proof.
  intros Hpre Hid. rewrite find_app by done. cbn [find id_is].
  by rewrite bool_decide_eq_true_2.
Qed.

Lemma findIndex_null userId pre post :
  passed_over userId pre → findIndex userId (pre ++ ENull :: post) = None.
Proof. intros Hpre. by rewrite findIndex_app. Qed.

Lemma find_null userId pre post :
  passed_over userId pre → find userId (pre ++ ENull :: post) = None.
Proof. intros Hpre. by rewrite find_app. Qed.

Lemma insert_middle {A} (pre post : list A) x y :
  <[length pre := y]> (pre ++ x :: post) = pre ++ y :: post.
Proof. rewrite insert_app_r_alt by lia. by rewrite Nat.sub_diag. Qed.

Lemma records_of_passed_over userId users :
  passed_over userId users → records_of userId users = [].
Proof.
  unfold records_of. induction 1 as [|e l He _ IH]; [done|].
  rewrite filter_cons_False; [done|]. by rewrite He.
Qed.

Lemma records_of_middle userId pre e post :
  records_of userId (pre ++ e :: post)
  = records_of userId pre
    ++ (if bool_decide (id_is userId e = Some true) then [e] else [])
    ++ records_of userId post.
Proof.
  unfold records_of. rewrite filter_app, filter_cons.
  case_bool_decide; by destruct (decide _).
Qed.

(** The array [addUser] starts from, when the file can be read. *)
Lemma read_users disk file :
  Logger.read_ok disk = true →
  match readJSON disk (initializeFiles disk file) with
  | Some (JArray users) => users
  | _ => []
  end = stored file.
Proof.
  intros Hr. unfold readJSON, initializeFiles. rewrite Hr.
  destruct (Logger.init_ok disk); by destruct file.
Qed.

Lemma addUser_known disk now now' userId rest file pre o post :
  Logger.read_ok disk = true → Logger.write_ok disk = true →
  stored file = pre ++ EObj o :: post →
  passed_over userId pre → o !! "id"%string = Some (VNum userId) →
  addUser disk now now' userId rest file
  = Users (pre ++ EObj (<["last_active"%string := VStr now]>
                          (<["id"%string := VNum userId]> rest ∪ o)) :: post).
Proof.
  intros Hr Hw Hfile Hpre Hid. unfold addUser. cbn zeta.
  rewrite read_users, Hfile by done.
  rewrite findIndex_known by done. rewrite Hw.
  rewrite list_lookup_middle by done. cbn [default spread].
  by rewrite insert_middle.
Qed.

Lemma addUser_unknown disk now now' userId rest file :
  Logger.read_ok disk = true → Logger.write_ok disk = true →
  findIndex userId (stored file) = Some None →
  addUser disk now now' userId rest file
  = Users (stored file
           ++ [EObj (newUser userId (<["id"%string := VNum userId]> rest) now now')]).
Proof.
  intros Hr Hw Habs. unfold addUser. cbn zeta.
  rewrite read_users by done. by rewrite Habs, Hw.
Qed.

Lemma getUser_Users disk userId users :
  Logger.read_ok disk = true →
  (getUser disk userId (Users users)).1
  = match find userId users with
    | Some (Some user) => Some user
    | _ => None
    end.
Proof.
  intros Hr. unfold getUser, readJSON, initializeFiles. rewrite Hr. cbn.
  by destruct (Logger.init_ok disk).
Qed.

Lemma newUser_given userId userData now now' k v :
  userData !! k = Some v → newUser userId userData now now' !! k = Some v.
Proof. intros H. unfold newUser. by apply lookup_union_Some_l. Qed.

End UsersFacts.

(** X17.  A user who was registered is found: when the users file can be
    read and written and no [null] element stands in the way, [getUser]
    after [addUser] returns a record with the user's id that carries every
    property [addUser] was given (but for [last_active], which an update
    sets to the time of the call). *)
Theorem registered_user_is_found (disk : Logger.Disk) (now now' : string)
    (userId : Z) (rest : FileHelper.Obj) (file : FileHelper.UsersFile) :
  Logger.read_ok disk = true →
  Logger.write_ok disk = true →
  FileHelper.searchable userId (FileHelper.stored file) →
  ∃ o,
    (FileHelper.getUser disk userId
       (FileHelper.addUser disk now now' userId rest file)).1
    = Some (FileHelper.EObj o) ∧
    o !! "id"%string = Some (FileHelper.VNum userId) ∧
    ∀ k v, rest !! k = Some v →
           k ≠ "id"%string → k ≠ "last_active"%string → o !! k = Some v.
Proof.
  intros Hr Hw Hsearch.
  destruct (FileHelper.findIndex userId (FileHelper.stored file))
    as [[i|]|] eqn:Hfind; [| |done].
  - apply UsersFacts.findIndex_found in Hfind
      as (pre & o & post & Hfile & _ & Hpre & Hid).
    rewrite (UsersFacts.addUser_known _ _ _ _ _ _ pre o post) by done.
    eexists. rewrite UsersFacts.getUser_Users by done.
    rewrite UsersFacts.find_known; [split; [done|split]|done|].
    + rewrite lookup_insert_ne by done.
      apply lookup_union_Some_l. by rewrite lookup_insert_eq.
    + intros k v Hk Hne1 Hne2. rewrite lookup_insert_ne by done.
      apply lookup_union_Some_l. by rewrite lookup_insert_ne.
    + rewrite lookup_insert_ne by done.
      apply lookup_union_Some_l. by rewrite lookup_insert_eq.
  - rewrite UsersFacts.addUser_unknown by done.
    apply UsersFacts.findIndex_absent in Hfind.
    assert (Hnew : FileHelper.newUser userId
                     (<["id"%string := FileHelper.VNum userId]> rest) now now'
                   !! "id"%string = Some (FileHelper.VNum userId)).
    { apply UsersFacts.newUser_given. by rewrite lookup_insert_eq. }
    eexists. rewrite UsersFacts.getUser_Users by done.
    rewrite UsersFacts.find_app by done. cbn [FileHelper.find FileHelper.id_is].
    rewrite bool_decide_eq_true_2 by done.
    split; [done|split; [done|]].
    intros k v Hk Hne1 Hne2. apply UsersFacts.newUser_given.
    by rewrite lookup_insert_ne.
Qed.

Lemma registered_user_is_found_witness :
  ∃ o,
    (FileHelper.getUser Samples.disk_ok 3
       (FileHelper.addUser Samples.disk_ok "t1" "t2" 3
          {["username"%string := FileHelper.VStr "carol"]} UserSamples.file)).1
    = Some (FileHelper.EObj o) ∧
    o !! "id"%string = Some (FileHelper.VNum 3) ∧
    ∀ k v, ({["username"%string := FileHelper.VStr "carol"]} : FileHelper.Obj) !! k = Some v →
           k ≠ "id"%string → k ≠ "last_active"%string → o !! k = Some v.
Proof.
  apply (registered_user_is_found Samples.disk_ok "t1" "t2" 3
           {["username"%string := FileHelper.VStr "carol"]} UserSamples.file).
  - reflexivity.
  - reflexivity.
  - unfold FileHelper.searchable. vm_compute. discriminate.
Defined.

(** X18.  [addUser] keeps one record per user: when the file can be read
    and written and the search does not throw, the user has one record
    afterwards if there was none and as many as before otherwise, and the
    records of every other user are as they were. *)
Theorem addUser_adds_no_second_record (disk : Logger.Disk) (now now' : string)
    (userId : Z) (rest : FileHelper.Obj) (file : FileHelper.UsersFile) :
  Logger.read_ok disk = true →
  Logger.write_ok disk = true →
  FileHelper.searchable userId (FileHelper.stored file) →
  let before := FileHelper.stored file in
  let after :=
    FileHelper.stored (FileHelper.addUser disk now now' userId rest file) in
  length (FileHelper.records_of userId after)
  = Nat.max 1 (length (FileHelper.records_of userId before)) ∧
  ∀ other, other ≠ userId →
    FileHelper.records_of other after = FileHelper.records_of other before.
Proof.
  intros Hr Hw Hsearch before after. subst before after.
  destruct (FileHelper.findIndex userId (FileHelper.stored file))
    as [[i|]|] eqn:Hfind; [| |done].
  - apply UsersFacts.findIndex_found in Hfind
      as (pre & o & post & Hfile & _ & Hpre & Hid).
    rewrite (UsersFacts.addUser_known _ _ _ _ _ _ pre o post) by done.
    rewrite Hfile. cbn [FileHelper.stored].
    set (o' := <["last_active"%string := FileHelper.VStr now]>
                 (<["id"%string := FileHelper.VNum userId]> rest ∪ o)).
    assert (Hid' : o' !! "id"%string = Some (FileHelper.VNum userId)).
    { subst o'. rewrite lookup_insert_ne by done.
      apply lookup_union_Some_l. by rewrite lookup_insert_eq. }
    clearbody o'. split.
    + rewrite !UsersFacts.records_of_middle.
      rewrite !bool_decide_eq_true_2
        by (apply UsersFacts.id_is_true; eauto).
      rewrite !length_app. cbn [length]. lia.
    + intros other Hne. rewrite !UsersFacts.records_of_middle.
      rewrite !bool_decide_eq_false_2; [done| |].
      * by rewrite (UsersFacts.id_is_other userId other o).
      * by rewrite (UsersFacts.id_is_other userId other o').
  - rewrite UsersFacts.addUser_unknown by done. cbn [FileHelper.stored].
    pose proof (UsersFacts.findIndex_absent _ _ Hfind) as Habs.
    assert (Hnew : FileHelper.newUser userId
                     (<["id"%string := FileHelper.VNum userId]> rest) now now'
                   !! "id"%string = Some (FileHelper.VNum userId)).
    { apply UsersFacts.newUser_given. by rewrite lookup_insert_eq. }
    split.
    + unfold FileHelper.records_of at 1. rewrite filter_app.
      fold (FileHelper.records_of userId (FileHelper.stored file)).
      rewrite UsersFacts.records_of_passed_over by done.
      rewrite filter_cons_True by (apply UsersFacts.id_is_true; eauto).
      done.
    + intros other Hne. unfold FileHelper.records_of. rewrite filter_app.
      rewrite (filter_cons_False _ _ []); [by rewrite app_nil_r|].
      by rewrite (UsersFacts.id_is_other userId other).
Qed.

Lemma addUser_adds_no_second_record_witness :
  let before := FileHelper.stored UserSamples.file in
  let after :=
    FileHelper.stored
      (FileHelper.addUser Samples.disk_ok "t1" "t2" 2 ∅ UserSamples.file) in
  length (FileHelper.records_of 2 after)
  = Nat.max 1 (length (FileHelper.records_of 2 before)) ∧
  ∀ other, other ≠ 2 →
    FileHelper.records_of other after = FileHelper.records_of other before.
Proof.
  apply (addUser_adds_no_second_record Samples.disk_ok "t1" "t2" 2 ∅
           UserSamples.file).
  - reflexivity.
  - reflexivity.
  - unfold FileHelper.searchable. vm_compute. discriminate.
Defined.

(** X19.  Every update of a registered user resets [joined_at].  For a
    sender that is not a bot, the auto-register middleware hands [addUser]
    a record with a fresh [joined_at]; for a user the file already knows,
    the merge keeps the
    stored [command_count] but replaces [joined_at] by the time of the
    update, and sets [last_active] to the time of the call.  Nothing else
    in the array changes. *)
Theorem registration_resets_joined_at (disk : Logger.Disk) (now now' : string)
    (from : User) (last_name : option string) (joined active : string)
    (file : FileHelper.UsersFile) (pre post : list FileHelper.Elem)
    (o : FileHelper.Obj) :
  Logger.read_ok disk = true →
  Logger.write_ok disk = true →
  FileHelper.stored file = pre ++ FileHelper.EObj o :: post →
  FileHelper.passed_over (user_id from) pre →
  o !! "id"%string = Some (FileHelper.VNum (user_id from)) →
  ∃ o',
    FileHelper.addUser disk now now' (user_id from)
      (FileHelper.registration from last_name joined active) file
    = FileHelper.Users (pre ++ FileHelper.EObj o' :: post) ∧
    o' !! "joined_at"%string = Some (FileHelper.VStr joined) ∧
    o' !! "last_active"%string = Some (FileHelper.VStr now) ∧
    o' !! "command_count"%string = o !! "command_count"%string.
Proof.
  intros Hr Hw Hfile Hpre Hid.
  eexists. split; [by apply UsersFacts.addUser_known|].
  split; [|split].
  - rewrite lookup_insert_ne by done.
    apply lookup_union_Some_l. unfold FileHelper.registration.
    by rewrite !lookup_insert_ne, lookup_insert_eq by done.
  - by rewrite lookup_insert_eq.
  - rewrite lookup_insert_ne by done.
    apply lookup_union_r. unfold FileHelper.registration.
    by rewrite !lookup_insert_ne, lookup_empty by done.
Qed.

Lemma registration_resets_joined_at_witness :
  ∃ o',
    FileHelper.addUser Samples.disk_ok "t3" "t4" 2
      (FileHelper.registration (Samples.person 2) None "t1" "t2")
      UserSamples.file
    = FileHelper.Users ([UserSamples.record 1 4] ++ FileHelper.EObj o' :: []) ∧
    o' !! "joined_at"%string = Some (FileHelper.VStr "t1") ∧
    o' !! "last_active"%string = Some (FileHelper.VStr "t3") ∧
    o' !! "command_count"%string = Some (FileHelper.VNum 7).
Proof.
  destruct (registration_resets_joined_at Samples.disk_ok "t3" "t4"
              (Samples.person 2) None "t1" "t2" UserSamples.file
              [UserSamples.record 1 4] [] (UserSamples.fields 2 7))
    as (o' & Hfile & Hjoined & Hactive & Hcount).
  - reflexivity.
  - reflexivity.
  - reflexivity.
  - apply Forall_cons_2; [vm_compute; reflexivity|apply Forall_nil_2].
  - vm_compute. reflexivity.
  - exists o'. split; [exact Hfile|]. split; [exact Hjoined|].
    split; [exact Hactive|]. rewrite Hcount. vm_compute. reflexivity.
Defined.

Module CountFacts.
Import FileHelper.

(** The number [(user.command_count || 0) + 1] starts from. *)
Lemma to_double_exact z : - 2 ^ 53 ≤ z ≤ 2 ^ 53 → Js.to_double z = z.
Proof.
  intros Hz. unfold Js.to_double. by rewrite bool_decide_eq_true_2 by lia.
Qed.

Lemma plus_one_or_zero x n :
  - 2 ^ 53 ≤ n + 1 ≤ 2 ^ 53 →
  or_val x (VNum 0) = VNum n →
  plus_one (or_val x (VNum 0)) = VNum (n + 1).
Proof. intros Hn ->. cbn [plus_one]. by rewrite to_double_exact. Qed.

Lemma increments_cons disk now nows userId file :
  increments disk (now :: nows) userId file
  = increments disk nows userId (incrementCommandCount disk now userId file).
Proof. done. Qed.

Lemma increments_snoc disk now nows userId file :
  increments disk (nows ++ [now]) userId file
  = incrementCommandCount disk now userId (increments disk nows userId file).
Proof. unfold increments. by rewrite foldl_app. Qed.

Lemma incrementCommandCount_known disk now userId pre o post :
  Logger.read_ok disk = true → Logger.write_ok disk = true →
  passed_over userId pre → o !! "id"%string = Some (VNum userId) →
  incrementCommandCount disk now userId (Users (pre ++ EObj o :: post))
  = Users (pre ++
           EObj (<["last_active"%string := VStr now]>
                   (<["command_count"%string :=
                        plus_one (or_val (o !! "command_count"%string) (VNum 0))]> o))
           :: post).
Proof.
  intros Hr Hw Hpre Hid. unfold incrementCommandCount, readJSON.
  rewrite Hr, UsersFacts.findIndex_known, Hw by done.
  rewrite list_lookup_middle by done. cbn [default spread].
  by rewrite UsersFacts.insert_middle.
Qed.

Lemma increments_known disk userId pre post nows : ∀ o n,
  Logger.read_ok disk = true → Logger.write_ok disk = true →
  passed_over userId pre → o !! "id"%string = Some (VNum userId) →
  or_val (o !! "command_count"%string) (VNum 0) = VNum n →
  - 2 ^ 53 ≤ n → n + Z.of_nat (length nows) ≤ 2 ^ 53 →
  ∃ o',
    increments disk nows userId (Users (pre ++ EObj o :: post))
    = Users (pre ++ EObj o' :: post) ∧
    or_val (o' !! "command_count"%string) (VNum 0)
    = VNum (n + Z.of_nat (length nows)) ∧
    ∀ k, k ≠ "command_count"%string → k ≠ "last_active"%string →
         o' !! k = o !! k.
Proof.
  induction nows as [|now nows IH]; intros o n Hr Hw Hpre Hid Hn Hlo Hhi.
  - exists o. cbn. rewrite Hn. repeat split; try done. f_equal. lia.
  - cbn [length] in Hhi. rewrite increments_cons.
    rewrite incrementCommandCount_known by done.
    rewrite (plus_one_or_zero _ n) by (done || lia).
    set (o1 := <["last_active"%string := VStr now]>
                 (<["command_count"%string := VNum (n + 1)]> o)).
    assert (Hid1 : o1 !! "id"%string = Some (VNum userId)).
    { subst o1. by rewrite !lookup_insert_ne by done. }
    assert (Hn1 : or_val (o1 !! "command_count"%string) (VNum 0) = VNum (n + 1)).
    { subst o1. rewrite lookup_insert_ne, lookup_insert_eq by done. cbn.
      case_bool_decide as Hz; [done|]. f_equal.
      destruct (decide (n + 1 = 0)); [done|]. by destruct Hz. }
    assert (Hrest1 : ∀ k, k ≠ "command_count"%string →
                          k ≠ "last_active"%string → o1 !! k = o !! k).
    { intros k Hk1 Hk2. subst o1. by rewrite !lookup_insert_ne by done. }
    clearbody o1.
    destruct (IH o1 (n + 1) Hr Hw Hpre Hid1 Hn1 ltac:(lia) ltac:(lia))
      as (o' & Hfile & Hcount & Hrest).
    exists o'. split; [done|]. split.
    + rewrite Hcount. f_equal. cbn [length]. lia.
    + intros k Hk1 Hk2. rewrite Hrest, Hrest1 by done. done.
Qed.

End CountFacts.

(** X20.  [command_count] counts the calls, as long as the count stays
    within the integers a double holds exactly: for a user the file knows,
    with a disk that reads and writes, and a count [n] with
    [-2^53 <= n] and [n + calls <= 2^53], [incrementCommandCount] called
    any number of times, each call after the one before has ended, raises
    the user's count by the number of calls (an absent or falsy count
    starts from zero), leaves [last_active] at the time of the last call,
    and changes nothing else in the file. *)
Theorem command_count_counts_calls (disk : Logger.Disk) (nows : list string)
    (userId : Z) (pre post : list FileHelper.Elem) (o : FileHelper.Obj)
    (n : Z) :
  Logger.read_ok disk = true →
  Logger.write_ok disk = true →
  FileHelper.passed_over userId pre →
  o !! "id"%string = Some (FileHelper.VNum userId) →
  FileHelper.or_val (o !! "command_count"%string) (FileHelper.VNum 0)
  = FileHelper.VNum n →
  - 2 ^ 53 ≤ n →
  n + Z.of_nat (length nows) ≤ 2 ^ 53 →
  nows ≠ [] →
  ∃ o',
    FileHelper.increments disk nows userId
      (FileHelper.Users (pre ++ FileHelper.EObj o :: post))
    = FileHelper.Users (pre ++ FileHelper.EObj o' :: post) ∧
    o' !! "command_count"%string
    = Some (FileHelper.VNum (n + Z.of_nat (length nows))) ∧
    o' !! "last_active"%string = FileHelper.VStr <$> last nows ∧
    ∀ k, k ≠ "command_count"%string → k ≠ "last_active"%string →
         o' !! k = o !! k.
Proof.
  intros Hr Hw Hpre Hid Hn Hlo Hhi Hne.
  destruct (exists_last Hne) as (nows0 & now & ->).
  rewrite length_app in Hhi. cbn [length] in Hhi.
  destruct (CountFacts.increments_known disk userId pre post nows0 o n)
    as (o1 & Hfile1 & Hcount1 & Hrest1); try done; [lia|].
  rewrite CountFacts.increments_snoc, Hfile1.
  assert (Hid1 : o1 !! "id"%string = Some (FileHelper.VNum userId)).
  { by rewrite Hrest1. }
  rewrite CountFacts.incrementCommandCount_known by done.
  rewrite (CountFacts.plus_one_or_zero _ (n + Z.of_nat (length nows0))
             ltac:(lia) Hcount1).
  eexists. split; [done|]. split; [|split].
  - rewrite lookup_insert_ne, lookup_insert_eq by done.
    rewrite length_app. cbn [length]. do 2 f_equal. lia.
  - by rewrite lookup_insert_eq, last_snoc.
  - intros k Hk1 Hk2. by rewrite !lookup_insert_ne, Hrest1 by done.
Qed.

Lemma command_count_counts_calls_witness :
  ∃ o',
    FileHelper.increments Samples.disk_ok ["t1"; "t2"; "t3"]%string 2
      (FileHelper.Users ([UserSamples.record 1 4]
                         ++ FileHelper.EObj (UserSamples.fields 2 7) :: []))
    = FileHelper.Users ([UserSamples.record 1 4] ++ FileHelper.EObj o' :: []) ∧
    o' !! "command_count"%string
    = Some (FileHelper.VNum (7 + Z.of_nat (length ["t1"; "t2"; "t3"]%string))) ∧
    o' !! "last_active"%string
    = FileHelper.VStr <$> last ["t1"; "t2"; "t3"]%string ∧
    ∀ k, k ≠ "command_count"%string → k ≠ "last_active"%string →
         o' !! k = UserSamples.fields 2 7 !! k.
Proof.
  apply (command_count_counts_calls Samples.disk_ok ["t1"; "t2"; "t3"]%string 2
           [UserSamples.record 1 4] [] (UserSamples.fields 2 7) 7).
  - reflexivity.
  - reflexivity.
  - apply Forall_cons_2; [vm_compute; reflexivity|apply Forall_nil_2].
  - vm_compute. reflexivity.
  - vm_compute. reflexivity.
  - lia.
  - cbn [length]. lia.
  - discriminate.
Defined.

(** Beyond [2^53] the count no longer moves: the sum is rounded back. *)
Example command_count_stops_at_2_53 :
  FileHelper.plus_one (FileHelper.VNum (2 ^ 53)) = FileHelper.VNum (2 ^ 53) ∧
  FileHelper.plus_one (FileHelper.VNum (2 ^ 53 - 1)) = FileHelper.VNum (2 ^ 53).
Proof. vm_compute. done. Qed.

(** X21.  A users file that cannot be read is not kept: when the read
    fails, or the file holds no JSON array, an [addUser] whose write goes
    through leaves the added user as the only record.  Every other user,
    and with them the recipients of later broadcasts, is gone. *)
Theorem addUser_restarts_unreadable_file (disk : Logger.Disk)
    (now now' : string) (userId : Z) (rest : FileHelper.Obj)
    (file : FileHelper.UsersFile) :
  Logger.write_ok disk = true →
  Logger.read_ok disk = false ∨ (∀ users, file ≠ FileHelper.Users users) →
  FileHelper.addUser disk now now' userId rest file
  = FileHelper.Users
      [FileHelper.EObj
         (FileHelper.newUser userId
            (<["id"%string := FileHelper.VNum userId]> rest) now now')].
Proof.
  intros Hw Hbad. unfold FileHelper.addUser. cbn zeta.
  assert (match FileHelper.readJSON disk (FileHelper.initializeFiles disk file) with
          | Some (FileHelper.JArray users) => users
          | _ => []
          end = []) as ->.
  { unfold FileHelper.readJSON, FileHelper.initializeFiles.
    destruct Hbad as [->|Hbad]; [done|].
    destruct (Logger.read_ok disk); [|done].
    destruct (Logger.init_ok disk), file as [| | |users]; try done;
      by destruct (Hbad users). }
  cbn [FileHelper.findIndex app]. by rewrite Hw.
Qed.

Lemma addUser_restarts_unreadable_file_witness :
  FileHelper.addUser UserSamples.disk_unreadable "t1" "t2" 3 ∅ UserSamples.file
  = FileHelper.Users
      [FileHelper.EObj
         (FileHelper.newUser 3 (<["id"%string := FileHelper.VNum 3]> ∅) "t1" "t2")].
Proof.
  apply (addUser_restarts_unreadable_file UserSamples.disk_unreadable
           "t1" "t2" 3 ∅ UserSamples.file).
  - reflexivity.
  - left. reflexivity.
Defined.

(** X22.  A [null] element in the array cuts off every user whose record
    does not come before it: for such a user [addUser],
    [updateUserActivity] and [incrementCommandCount] leave the file as it
    is and [getUser] returns [null], whether or not a record of the user
    follows. *)
Theorem null_element_cuts_off_users (disk : Logger.Disk) (now now' : string)
    (userId : Z) (rest : FileHelper.Obj) (pre post : list FileHelper.Elem) :
  Logger.read_ok disk = true →
  FileHelper.passed_over userId pre →
  let file := FileHelper.Users (pre ++ FileHelper.ENull :: post) in
  FileHelper.addUser disk now now' userId rest file = file ∧
  FileHelper.updateUserActivity disk now userId file = file ∧
  FileHelper.incrementCommandCount disk now userId file = file ∧
  (FileHelper.getUser disk userId file).1 = None.
Proof.
  intros Hr Hpre file. subst file. split; [|split; [|split]].
  - unfold FileHelper.addUser. cbn zeta.
    rewrite UsersFacts.read_users by done. cbn [FileHelper.stored].
    rewrite UsersFacts.findIndex_null by done.
    unfold FileHelper.initializeFiles. by destruct (Logger.init_ok disk).
  - unfold FileHelper.updateUserActivity, FileHelper.readJSON.
    by rewrite Hr, UsersFacts.findIndex_null.
  - unfold FileHelper.incrementCommandCount, FileHelper.readJSON.
    by rewrite Hr, UsersFacts.findIndex_null.
  - rewrite UsersFacts.getUser_Users by done.
    by rewrite UsersFacts.find_null.
Qed.

Lemma null_element_cuts_off_users_witness :
  let file := FileHelper.Users ([UserSamples.record 1 4]
                                ++ FileHelper.ENull :: [UserSamples.record 2 7]) in
  FileHelper.addUser Samples.disk_ok "t1" "t2" 2 ∅ file = file ∧
  FileHelper.updateUserActivity Samples.disk_ok "t1" 2 file = file ∧
  FileHelper.incrementCommandCount Samples.disk_ok "t1" 2 file = file ∧
  (FileHelper.getUser Samples.disk_ok 2 file).1 = None.
Proof.
  apply (null_element_cuts_off_users Samples.disk_ok "t1" "t2" 2 ∅
           [UserSamples.record 1 4] [UserSamples.record 2 7]).
  - reflexivity.
  - apply Forall_cons_2; [vm_compute; reflexivity|apply Forall_nil_2].
Defined.

(** The user before the [null] is still served. *)
Example null_element_spares_earlier_users :
  (FileHelper.getUser Samples.disk_ok 1 UserSamples.file_with_null).1
  = Some (UserSamples.record 1 4).
Proof. vm_compute. reflexivity. Qed.
